(** * Extension registry validators and selection engine

    A shallow embedding of [src/lib/validation.ts] and of the selection
    functions of [src/cli.ts], with the canonical sorter modelled from the
    specification, and the properties proved about them. *)

From Stdlib Require Import Ascii String DecimalString Bool Arith Lia List Sorted Permutation.
From stdpp Require Import base list gmap strings.
Import ListNotations.

Set Default Proof Using "Type".

(** ** JavaScript strings

    A JavaScript string is a sequence of code units.  The embedding keeps
    the code units below 256 (one [ascii] each); every character the source
    inspects lies in that range. *)

Abbreviation jsstring := (list ascii).

Definition str (s : string) : jsstring := list_ascii_of_string s.

Definition DQUOTE : ascii := "034"%char.
Definition LF : ascii := "010"%char.

Module Js.

Definition code (c : ascii) : nat := nat_of_ascii c.

Definition in_range (lo hi c : ascii) : bool :=
  (code lo <=? code c) && (code c <=? code hi).

Definition char_eqb (a b : ascii) : bool := Ascii.eqb a b.

(** LineTerminator: LF and CR (U+2028 and U+2029 are beyond the range). *)
Definition is_line_terminator (c : ascii) : bool :=
  (code c =? 10) || (code c =? 13).

(** WhiteSpace and LineTerminator, the set stripped by [trim] and matched
    by [\s]: TAB, LF, VT, FF, CR, SPACE and NO-BREAK SPACE. *)
Definition is_space (c : ascii) : bool :=
  ((9 <=? code c) && (code c <=? 13)) || (code c =? 32) || (code c =? 160).

Definition is_digit (c : ascii) : bool := in_range "0" "9" c.

Definition string_eqb (a b : jsstring) : bool := bool_decide (a = b).

(** [String.prototype.trimStart], [trimEnd] and [trim]. *)
Fixpoint trim_start (s : jsstring) : jsstring :=
  match s with
  | c :: s' => if is_space c then trim_start s' else s
  | [] => []
  end.

Fixpoint trim_end (s : jsstring) : jsstring :=
  match s with
  | c :: s' =>
      match trim_end s' with
      | [] => if is_space c then [] else [c]
      | t => c :: t
      end
  | [] => []
  end.

Definition trim (s : jsstring) : jsstring := trim_end (trim_start s).

(** [s.split("\n")]: the pieces between line feeds, at least one piece. *)
Fixpoint split_lines (s : jsstring) : list jsstring :=
  match s with
  | [] => [[]]
  | c :: s' =>
      if char_eqb c LF then [] :: split_lines s'
      else match split_lines s' with
           | piece :: pieces => (c :: piece) :: pieces
           | [] => [[c]]
           end
  end.

(** [s.startsWith(p)]. *)
Fixpoint starts_with (p s : jsstring) : bool :=
  match p, s with
  | [], _ => true
  | a :: p', b :: s' => char_eqb a b && starts_with p' s'
  | _ :: _, [] => false
  end.

(** [xs.join(sep)]. *)
Fixpoint join (sep : jsstring) (xs : list jsstring) : jsstring :=
  match xs with
  | [] => []
  | [x] => x
  | x :: rest => x ++ sep ++ join sep rest
  end.

(** Decimal rendering of a natural number, as in a template literal. *)
Definition nat_to_string (n : nat) : jsstring :=
  str (NilEmpty.string_of_uint (Nat.to_uint n)).

(** Completion of a call: a returned value or a thrown [Error]. *)
Inductive outcome (A : Type) : Type :=
| Return (a : A)
| Throw (message : jsstring).
Arguments Return {A} a.
Arguments Throw {A} message.

Definition bind {A B} (m : outcome A) (f : A -> outcome B) : outcome B :=
  match m with
  | Return a => f a
  | Throw e => Throw e
  end.

(** *** Values

    The values a TOML or JSON reader produces, but for the date-times of
    TOML, which are outside the embedding.  A number is kept as its
    canonical rendering (the result of [ToString]), which determines all
    the validators observe of it: its type, its truthiness and its
    coercion to a string.  An object is the list of its own enumerable
    properties in enumeration order, keys pairwise distinct. *)
#[warnings="-register-all"]
Inductive value : Type :=
| JUndefined
| JNull
| JBool (b : bool)
| JNum (repr : jsstring)
| JStr (s : jsstring)
| JArr (items : list value)
| JObj (props : list (jsstring * value)).

Inductive type_tag : Type :=
| TUndefined | TObject | TBoolean | TNumber | TString.

Definition type_tag_eqb (a b : type_tag) : bool :=
  match a, b with
  | TUndefined, TUndefined | TObject, TObject | TBoolean, TBoolean
  | TNumber, TNumber | TString, TString => true
  | _, _ => false
  end.

(** [typeof v]; [null] and arrays are objects. *)
Definition typeof (v : value) : type_tag :=
  match v with
  | JUndefined => TUndefined
  | JNull => TObject
  | JBool _ => TBoolean
  | JNum _ => TNumber
  | JStr _ => TString
  | JArr _ => TObject
  | JObj _ => TObject
  end.

(** ToBoolean. *)
Definition truthy (v : value) : bool :=
  match v with
  | JUndefined | JNull => false
  | JBool b => b
  | JNum r => negb (string_eqb r (str "0")) && negb (string_eqb r (str "NaN"))
  | JStr s => negb (string_eqb s [])
  | JArr _ | JObj _ => true
  end.

Fixpoint assoc (k : jsstring) (props : list (jsstring * value)) : option value :=
  match props with
  | [] => None
  | (k', v) :: rest => if string_eqb k' k then Some v else assoc k rest
  end.

Definition TO_PRIMITIVE_ERROR : jsstring :=
  str "Cannot convert object to primitive value".

(** ToString.  An object is converted through its [toString] method: the
    one every object inherits gives ["[object Object]"], but an own
    property of that name hides it, and no value a parser returns is a
    function, so that the conversion of such an object throws a
    [TypeError].  An array joins the conversions of its elements. *)
Fixpoint to_string (v : value) : outcome jsstring :=
  match v with
  | JUndefined => Return (str "undefined")
  | JNull => Return (str "null")
  | JBool true => Return (str "true")
  | JBool false => Return (str "false")
  | JNum r => Return r
  | JStr s => Return s
  | JArr items =>
      bind
        ((fix each (items : list value) : outcome (list jsstring) :=
            match items with
            | [] => Return []
            | x :: items' =>
                bind (match x with
                      | JUndefined | JNull => Return []
                      | _ => to_string x
                      end)
                     (fun piece =>
                        bind (each items')
                             (fun pieces => Return (piece :: pieces)))
            end) items)
        (fun pieces => Return (join (str ",") pieces))
  | JObj props =>
      match assoc (str "toString") props with
      | Some _ => Throw TO_PRIMITIVE_ERROR
      | None => Return (str "[object Object]")
      end
  end.

(** The index an array key denotes, if any. *)
Definition index_of_key (k : jsstring) (len : nat) : option nat :=
  List.find (fun i => string_eqb (nat_to_string i) k) (seq 0 len).

(** [v[k]] on a value that passed the [typeof v === "object"] guard.
    Inherited properties are outside the embedding: the validators read
    own keys and a few fixed names no prototype defines. *)
Definition get (v : value) (k : jsstring) : value :=
  match v with
  | JObj props => default JUndefined (assoc k props)
  | JArr items =>
      match index_of_key k (length items) with
      | Some i => nth i items JUndefined
      | None =>
          if string_eqb k (str "length")
          then JNum (nat_to_string (length items))
          else JUndefined
      end
  | _ => JUndefined
  end.

(** [Object.keys(v)], also the order of [for (k in v)]. *)
Definition keys (v : value) : list jsstring :=
  match v with
  | JObj props => map fst props
  | JArr items => map nat_to_string (seq 0 (length items))
  | JStr s => map nat_to_string (seq 0 (length s))
  | _ => []
  end.

(** [a === b] for operands that are not one and the same object, as two
    values read from two different parse results never are: [undefined] and
    [null] equal themselves, booleans, numbers and strings compare by value
    ([NaN] equals nothing), and an object or array equals nothing else. *)
Definition strict_equals (a b : value) : bool :=
  match a, b with
  | JUndefined, JUndefined | JNull, JNull => true
  | JBool x, JBool y => Bool.eqb x y
  | JNum x, JNum y => string_eqb x y && negb (string_eqb x (str "NaN"))
  | JStr x, JStr y => string_eqb x y
  | _, _ => false
  end.

End Js.

Notation "'let!' x ':=' m 'in' k" := (Js.bind m (fun x => k))
  (at level 10, x name, m at level 100, k at level 200).

(** ** Regular expressions

    A backtracking matcher with the priorities of the JavaScript one: the
    matches of a pattern at a position are listed in the order in which
    backtracking tries them, greedy quantifiers first taking as many
    iterations as they can. *)

Module Regex.

Inductive regex : Type :=
| REps
| RChr (c : ascii)
| RSet (p : ascii -> bool)
| RSeq (r1 r2 : regex)
| RAlt (r1 r2 : regex)
| RStar (r : regex)
| RPlus (r : regex)
| ROpt (r : regex)
| RGroup (r : regex)
| RBegin
| REnd.

(** One way of matching: the text consumed, the text left, and the
    capture groups of the pattern in order of their opening parenthesis
    ([None] for a group that took no part). *)
Record candidate : Type := Candidate {
  consumed : jsstring;
  rest : jsstring;
  groups : list (option jsstring)
}.

Fixpoint ngroups (r : regex) : nat :=
  match r with
  | REps | RChr _ | RSet _ | RBegin | REnd => 0
  | RSeq r1 r2 | RAlt r1 r2 => ngroups r1 + ngroups r2
  | RStar r1 | RPlus r1 | ROpt r1 => ngroups r1
  | RGroup r1 => S (ngroups r1)
  end.

Definition unset (n : nat) : list (option jsstring) := repeat None n.

(** Further iterations of a quantified pattern after the mandatory ones:
    an iteration that consumes nothing is not taken. *)
Fixpoint iterate (step : bool -> jsstring -> list candidate) (fuel : nat)
    (at_start : bool) (s : jsstring) (g : list (option jsstring))
    : list candidate :=
  match fuel with
  | 0 => [Candidate [] s g]
  | S fuel' =>
      flat_map
        (fun x =>
           if length (rest x) <? length s
           then map (fun y => Candidate (consumed x ++ consumed y) (rest y) (groups y))
                    (iterate step fuel' false (rest x) (groups x))
           else [])
        (step at_start s)
      ++ [Candidate [] s g]
  end.

(** [run r at_start s]: the matches of [r] at the head of [s]; [at_start]
    tells whether that position is the start of the input. *)
Fixpoint run (r : regex) (at_start : bool) (s : jsstring) : list candidate :=
  match r with
  | REps => [Candidate [] s []]
  | RChr c =>
      match s with
      | c' :: s' => if Js.char_eqb c c' then [Candidate [c'] s' []] else []
      | [] => []
      end
  | RSet p =>
      match s with
      | c' :: s' => if p c' then [Candidate [c'] s' []] else []
      | [] => []
      end
  | RSeq r1 r2 =>
      flat_map
        (fun x =>
           map (fun y => Candidate (consumed x ++ consumed y) (rest y)
                           (groups x ++ groups y))
               (run r2 (at_start && Nat.eqb (length (consumed x)) 0) (rest x)))
        (run r1 at_start s)
  | RAlt r1 r2 =>
      map (fun x => Candidate (consumed x) (rest x) (groups x ++ unset (ngroups r2)))
          (run r1 at_start s)
      ++ map (fun x => Candidate (consumed x) (rest x) (unset (ngroups r1) ++ groups x))
             (run r2 at_start s)
  | RStar r1 =>
      iterate (run r1) (length s) at_start s (unset (ngroups r1))
  | RPlus r1 =>
      flat_map
        (fun x =>
           map (fun y => Candidate (consumed x ++ consumed y) (rest y) (groups y))
               (iterate (run r1) (length (rest x))
                  (at_start && Nat.eqb (length (consumed x)) 0) (rest x) (groups x)))
        (run r1 at_start s)
  | ROpt r1 =>
      run r1 at_start s ++ [Candidate [] s (unset (ngroups r1))]
  | RGroup r1 =>
      map (fun x => Candidate (consumed x) (rest x) (Some (consumed x) :: groups x))
          (run r1 at_start s)
  | RBegin => if at_start then [Candidate [] s []] else []
  | REnd => match s with [] => [Candidate [] [] []] | _ :: _ => [] end
  end.

(** The first match starting at some position of the input, leftmost
    position first. *)
Fixpoint search (r : regex) (at_start : bool) (s : jsstring) : option candidate :=
  match run r at_start s with
  | x :: _ => Some x
  | [] =>
      match s with
      | [] => None
      | _ :: s' => search r false s'
      end
  end.

(** [s.match(r)] for a pattern without the global flag: [None] is [null]. *)
Definition exec (r : regex) (s : jsstring) : option candidate := search r true s.

(** [r.test(s)]. *)
Definition test (r : regex) (s : jsstring) : bool :=
  match exec r s with Some _ => true | None => false end.

(** [m[i]] for [i >= 1]: [None] is [undefined]. *)
Definition group (m : candidate) (i : nat) : option jsstring :=
  match i with
  | 0 => Some (consumed m)
  | S j => default None (nth_error (groups m) j)
  end.

(** A literal run of characters. *)
Fixpoint lit (w : jsstring) : regex :=
  match w with
  | [] => REps
  | [c] => RChr c
  | c :: w' => RSeq (RChr c) (lit w')
  end.

(** Sequence of several patterns. *)
Fixpoint seq_of (rs : list regex) : regex :=
  match rs with
  | [] => REps
  | [r] => r
  | r :: rs' => RSeq r (seq_of rs')
  end.

(** [\s], [\d] and [.] *)
Definition ws : regex := RSet Js.is_space.
Definition digit : regex := RSet Js.is_digit.
Definition dot : regex := RSet (fun c => negb (Js.is_line_terminator c)).

End Regex.

(** ** [src/lib/validation.ts] *)

Module Validation.
Import Js Regex.

(** [/^[a-z0-9\-]+$/] *)
Definition id_char (c : ascii) : bool :=
  in_range "a" "z" c || in_range "0" "9" c || char_eqb c "-".

Definition EXTENSION_ID_PATTERN : regex :=
  seq_of [RBegin; RPlus (RSet id_char); REnd].

Record ValidationResult : Type := {
  isValid : bool;
  errors : list jsstring
}.

Record Submodule : Type := {
  name : jsstring;
  lineNumber : nat;
  path : option jsstring;
  url : option jsstring
}.

(** [GitmodulesValidationResult extends ValidationResult]. *)
Record GitmodulesValidationResult : Type := {
  base :> ValidationResult;
  submodules : list Submodule
}.

(** *** validateExtensionsToml *)

Definition top_level_id_message (extensionId : jsstring) : jsstring :=
  str "Extension IDs must only consist of lowercase letters, numbers, and hyphens ('-'): "
  ++ [DQUOTE] ++ extensionId ++ [DQUOTE] ++ str ".".

Definition invalid_id_message (extensionId : jsstring) : jsstring :=
  str "Invalid extension ID: " ++ extensionId
  ++ str ". Must contain only lowercase letters, numbers, and hyphens".

Definition not_object_message (extensionId : jsstring) : jsstring :=
  str "Extension " ++ extensionId ++ str " must be an object".

Definition bad_version_message (extensionId : jsstring) : jsstring :=
  str "Extension " ++ extensionId ++ str " missing or invalid version".

Definition bad_source_message (extensionId : jsstring) : jsstring :=
  str "Extension " ++ extensionId ++ str " missing or invalid source".

(** [!v || typeof v !== t] *)
Definition missing_or_not (t : type_tag) (v : value) : bool :=
  negb (truthy v) || negb (type_tag_eqb (typeof v) t).

(** The loop over [Object.keys(extensionsToml)]. *)
Fixpoint check_top_level_ids (ids : list jsstring) : outcome unit :=
  match ids with
  | [] => Return tt
  | extensionId :: ids' =>
      if negb (test EXTENSION_ID_PATTERN extensionId)
      then Throw (top_level_id_message extensionId)
      else check_top_level_ids ids'
  end.

(** The loop over the keys of [extensions.extensions]. *)
Fixpoint check_extensions (section : value) (ids : list jsstring) : outcome unit :=
  match ids with
  | [] => Return tt
  | extensionId :: ids' =>
      if negb (test EXTENSION_ID_PATTERN extensionId)
      then Throw (invalid_id_message extensionId)
      else
        let extension := get section extensionId in
        if missing_or_not TObject extension
        then Throw (not_object_message extensionId)
        else if missing_or_not TString (get extension (str "version"))
        then Throw (bad_version_message extensionId)
        else if missing_or_not TString (get extension (str "source"))
        then Throw (bad_source_message extensionId)
        else check_extensions section ids'
  end.

Definition validateExtensionsToml (extensionsToml : value) : outcome unit :=
  if missing_or_not TObject extensionsToml
  then Throw (str "extensions.toml must be an object")
  else
    let! _ := check_top_level_ids (keys extensionsToml) in
    let extensions := get extensionsToml (str "extensions") in
    if missing_or_not TObject extensions
    then Throw (str "Missing or invalid extensions section")
    else check_extensions extensions (keys extensions).

(** *** validateManifest *)

Definition requiredFields : list jsstring :=
  [str "name"; str "version"; str "description"].

Definition required_message (field : jsstring) : jsstring :=
  str "Missing or invalid required field: " ++ field.

Definition name_message : jsstring :=
  str "Manifest name must contain only lowercase letters, numbers, and hyphens".

Definition version_message : jsstring :=
  str "Version must follow semantic versioning format (e.g., 1.0.0 or 1.0.0-beta.1)".

(** [/^\d+\.\d+\.\d+(-[a-zA-Z0-9\-\.]+)?$/] *)
Definition prerelease_char (c : ascii) : bool :=
  in_range "a" "z" c || in_range "A" "Z" c || in_range "0" "9" c
  || char_eqb c "-" || char_eqb c ".".

Definition versionRegex : regex :=
  seq_of [RBegin; RPlus digit; RChr "."; RPlus digit; RChr "."; RPlus digit;
          ROpt (RGroup (RSeq (RChr "-") (RPlus (RSet prerelease_char))));
          REnd].

(** [errors.push(message)] when [cond] holds. *)
Definition push_if (cond : bool) (message : jsstring) (errors : list jsstring)
    : list jsstring :=
  if cond then errors ++ [message] else errors.

Definition is_string_array (v : value) : bool :=
  match v with
  | JArr items => forallb (fun k => type_tag_eqb (typeof k) TString) items
  | _ => false
  end.

(** [manifest.f && !pattern.test(manifest.f)]: the test converts its
    argument to a string, which may throw. *)
Definition push_unless_matching (pattern : regex) (v : value)
    (message : jsstring) (errors : list jsstring) : outcome (list jsstring) :=
  if truthy v
  then bind (to_string v)
            (fun rendered =>
               Return (push_if (negb (test pattern rendered)) message errors))
  else Return errors.

Definition validateManifest (manifest : value) : outcome ValidationResult :=
  let errors : list jsstring := [] in
  if missing_or_not TObject manifest
  then Return {| isValid := false; errors := [str "Manifest must be an object"] |}
  else
    let errors :=
      fold_left
        (fun errors field =>
           push_if (missing_or_not TString (get manifest field))
                   (required_message field) errors)
        requiredFields errors in
    bind (push_unless_matching EXTENSION_ID_PATTERN (get manifest (str "name"))
            name_message errors)
      (fun errors =>
    bind (push_unless_matching versionRegex (get manifest (str "version"))
            version_message errors)
      (fun errors =>
    let errors :=
      push_if (truthy (get manifest (str "author"))
               && negb (type_tag_eqb (typeof (get manifest (str "author"))) TString))
              (str "Author must be a string") errors in
    let errors :=
      push_if (truthy (get manifest (str "license"))
               && negb (type_tag_eqb (typeof (get manifest (str "license"))) TString))
              (str "License must be a string") errors in
    let errors :=
      push_if (truthy (get manifest (str "repository"))
               && negb (type_tag_eqb (typeof (get manifest (str "repository"))) TString))
              (str "Repository must be a string") errors in
    let errors :=
      push_if (truthy (get manifest (str "keywords"))
               && negb (is_string_array (get manifest (str "keywords"))))
              (str "Keywords must be an array of strings") errors in
    Return {| isValid := Nat.eqb (length errors) 0; errors := errors |})).

(** *** validateGitmodules *)

(** [/^\[submodule "(.+)"\]$/] *)
Definition SUBMODULE_HEADER : regex :=
  seq_of [RBegin; lit (str "[submodule " ++ [DQUOTE]); RGroup (RPlus dot);
          lit ([DQUOTE] ++ str "]"); REnd].

(** [/^path\s*=\s*(.+)$/] and [/^url\s*=\s*(.+)$/] *)
Definition property_pattern (key : jsstring) : regex :=
  seq_of [RBegin; lit key; RStar ws; RChr "="; RStar ws; RGroup (RPlus dot); REnd].

Definition PATH_PROPERTY : regex := property_pattern (str "path").
Definition URL_PROPERTY : regex := property_pattern (str "url").

(** [/^(https?:\/\/|git@|ssh:\/\/)/] *)
Definition URL_SCHEME : regex :=
  seq_of [RBegin;
          RGroup (RAlt (seq_of [lit (str "http"); ROpt (RChr "s"); lit (str "://")])
                       (RAlt (lit (str "git@")) (lit (str "ssh://"))))].

(** [m[1]] read as a string.  An unset group would leave [name]
    undefined and make [.trim()] throw; either is a [TypeError] here. *)
Definition group1 (m : candidate) : outcome jsstring :=
  match group m 1 with
  | Some s => Return s
  | None => Throw (str "TypeError: Cannot read properties of undefined")
  end.

Definition header_message (i : nat) (line : jsstring) : jsstring :=
  str "Invalid section header at line " ++ nat_to_string (i + 1) ++ str ": " ++ line.

Definition property_message (i : nat) (line : jsstring) : jsstring :=
  str "Invalid property at line " ++ nat_to_string (i + 1) ++ str ": " ++ line.

(** The variables of the scanning loop. *)
Record scan_state : Type := {
  currentSubmodule : option Submodule;
  scanned : list Submodule;
  scan_errors : list jsstring
}.

Definition is_some {A} (o : option A) : bool :=
  match o with Some _ => true | None => false end.

(** One iteration of [for (let i = 0; i < lines.length; i++)]. *)
Definition scan_line (i : nat) (line : jsstring) (st : scan_state)
    : outcome scan_state :=
  let submoduleMatch := exec SUBMODULE_HEADER line in
  match submoduleMatch with
  | Some m =>
      let! captured := group1 m in
      Return {| currentSubmodule :=
                  Some {| name := captured; lineNumber := i + 1;
                          path := None; url := None |};
                scanned :=
                  match currentSubmodule st with
                  | Some current => scanned st ++ [current]
                  | None => scanned st
                  end;
                scan_errors := scan_errors st |}
  | None =>
      let pathMatch := exec PATH_PROPERTY line in
      let urlMatch := exec URL_PROPERTY line in
      match pathMatch, urlMatch, currentSubmodule st with
      | Some m, _, Some current =>
          let! captured := group1 m in
          Return {| currentSubmodule :=
                      Some {| name := name current; lineNumber := lineNumber current;
                              path := Some (trim captured); url := url current |};
                    scanned := scanned st;
                    scan_errors := scan_errors st |}
      | _, Some m, Some current =>
          let! captured := group1 m in
          Return {| currentSubmodule :=
                      Some {| name := name current; lineNumber := lineNumber current;
                              path := path current; url := Some (trim captured) |};
                    scanned := scanned st;
                    scan_errors := scan_errors st |}
      | _, _, _ =>
          if starts_with (str "[") line && negb (is_some submoduleMatch)
          then Return {| currentSubmodule := currentSubmodule st;
                         scanned := scanned st;
                         scan_errors := scan_errors st ++ [header_message i line] |}
          else if negb (starts_with (str "#") line)
                  && negb (is_some pathMatch) && negb (is_some urlMatch)
                  && is_some (currentSubmodule st)
          then Return {| currentSubmodule := currentSubmodule st;
                         scanned := scanned st;
                         scan_errors := scan_errors st ++ [property_message i line] |}
          else Return st
      end
  end.

Fixpoint scan_lines (i : nat) (lines : list jsstring) (st : scan_state)
    : outcome scan_state :=
  match lines with
  | [] => Return st
  | line :: lines' =>
      let! st' := scan_line i line st in
      scan_lines (i + 1) lines' st'
  end.

(** Truthiness of a [string | null]. *)
Definition present (o : option jsstring) : bool :=
  match o with
  | Some (_ :: _) => true
  | _ => false
  end.

Definition missing_path_message (n : jsstring) : jsstring :=
  str "Submodule " ++ [DQUOTE] ++ n ++ [DQUOTE] ++ str " missing path property".

Definition missing_url_message (n : jsstring) : jsstring :=
  str "Submodule " ++ [DQUOTE] ++ n ++ [DQUOTE] ++ str " missing url property".

Definition invalid_url_message (n u : jsstring) : jsstring :=
  str "Submodule " ++ [DQUOTE] ++ n ++ [DQUOTE]
  ++ str " has invalid URL format: " ++ u.

(** [submodule.url && !submodule.url.match(...)] *)
Definition url_rejected (submodule : Submodule) : bool :=
  match url submodule with
  | Some u => present (url submodule) && negb (is_some (exec URL_SCHEME u))
  | None => false
  end.

(** The body of [for (const submodule of submodules)]. *)
Definition check_submodule (errors : list jsstring) (submodule : Submodule)
    : list jsstring :=
  let errors :=
    push_if (negb (present (path submodule)))
            (missing_path_message (name submodule)) errors in
  let errors :=
    push_if (negb (present (url submodule)))
            (missing_url_message (name submodule)) errors in
  push_if (url_rejected submodule)
          (invalid_url_message (name submodule) (default [] (url submodule)))
          errors.

Definition lines_of (gitmodules : jsstring) : list jsstring :=
  List.filter (fun line => 0 <? length line) (map trim (split_lines gitmodules)).

Definition validateGitmodules (gitmodules : value)
    : outcome GitmodulesValidationResult :=
  match gitmodules with
  | JStr text =>
      let lines := lines_of text in
      let! st := scan_lines 0 lines
                   {| currentSubmodule := None; scanned := []; scan_errors := [] |} in
      let submodules :=
        match currentSubmodule st with
        | Some current => scanned st ++ [current]
        | None => scanned st
        end in
      let errors := fold_left check_submodule submodules (scan_errors st) in
      Return {| base := {| isValid := Nat.eqb (length errors) 0; errors := errors |};
                submodules := submodules |}
  | _ =>
      Return {| base := {| isValid := false;
                           errors := [str "Gitmodules must be a string"] |};
                submodules := [] |}
  end.

End Validation.

(** ** [src/types.ts] *)

Module Types.

(** [ExtensionInfo].  The registry is the output of the TOML reader under
    an unchecked cast, so a field holds whatever the file has under that
    name, of whatever type, and [JUndefined] where the entry has no such
    property (or is no table at all). *)
Record ExtensionInfo : Type := {
  id : Js.value;
  version : Js.value;
  submodule : Js.value;
  path : Js.value
}.

(** A parsed value seen through that interface. *)
Definition as_extension_info (v : Js.value) : ExtensionInfo :=
  {| id := Js.get v (str "id");
     version := Js.get v (str "version");
     submodule := Js.get v (str "submodule");
     path := Js.get v (str "path") |}.

(** [{ [key: string]: ExtensionInfo }]: the entries in enumeration order,
    as [Object.entries] lists them. *)
Abbreviation ExtensionsToml := (list (jsstring * ExtensionInfo)).

(** [Object.entries] of a parsed registry. *)
Definition entries_of (parsed : Js.value) : list (jsstring * ExtensionInfo) :=
  map (fun key => (key, as_extension_info (Js.get parsed key))) (Js.keys parsed).

(** [toml[key]]: [None] is [undefined]. *)
Fixpoint lookup_extension (key : jsstring) (toml : ExtensionsToml)
    : option ExtensionInfo :=
  match toml with
  | [] => None
  | (k, info) :: rest =>
      if Js.string_eqb k key then Some info else lookup_extension key rest
  end.

(** [S3Object]; a [Date] is kept as its time value. *)
Record S3Object : Type := {
  Key : jsstring;
  LastModified : option nat
}.

(** The variables declared on [NodeJS.ProcessEnv]: [None] is a variable
    that is not set. *)
Record ProcessEnv : Type := {
  S3_ACCESS_KEY : option jsstring;
  S3_SECRET_KEY : option jsstring;
  S3_BUCKET : option jsstring;
  SHOULD_PUBLISH : option jsstring;
  S3_ENDPOINT : option jsstring;
  S3_REGION : option jsstring
}.

End Types.

(** ** The selection functions of [src/cli.ts]

    Both functions await an external collaborator before their loop: the
    index of published versions built from the blob store, and the registry
    at [origin/main].  The embedding takes what the collaborator returned as
    an argument, and returns the line written to the console together with
    the result. *)

Module Cli.
Import Js Types.

(** [versions.has(v)] on a set of strings: nothing but a string is equal
    to a member. *)
Definition has (versions : gset jsstring) (v : value) : bool :=
  match v with
  | JStr s => bool_decide (s ∈ versions)
  | _ => false
  end.

(** [extension?.version]: [undefined] when there is no such entry. *)
Definition version_of (extension : option ExtensionInfo) : value :=
  match extension with
  | Some info => version info
  | None => JUndefined
  end.

Definition unpublishedExtensionIds
    (publishedExtensionVersions : gmap jsstring (gset jsstring))
    (extensionsToml : ExtensionsToml) : jsstring * list jsstring :=
  let result :=
    fold_left
      (fun (result : list jsstring) (entry : jsstring * ExtensionInfo) =>
         let (extensionId, extensionInfo) := entry in
         let versions := publishedExtensionVersions !! extensionId in
         match versions with
         | Some set =>
             if has set (version extensionInfo)
             then result
             else result ++ [extensionId]
         | None => result ++ [extensionId]
         end)
      extensionsToml [] in
  (str "Extensions needing to be published: " ++ join (str ", ") result, result).

Definition changedExtensionIds
    (mainExtensionsToml : ExtensionsToml)
    (extensionsToml : ExtensionsToml) : jsstring * list jsstring :=
  let result :=
    fold_left
      (fun (result : list jsstring) (entry : jsstring * ExtensionInfo) =>
         let (extensionId, extensionInfo) := entry in
         let mainExtension := lookup_extension extensionId mainExtensionsToml in
         if strict_equals (version_of mainExtension) (version extensionInfo)
         then result
         else result ++ [extensionId])
      extensionsToml [] in
  (str "Extensions changed from main: " ++ join (str ", ") result, result).

(** *** The blob store

    The client of the blob store is an external collaborator.  The
    embedding keeps what the code hands to it and reads from it: the
    options the client is built with, the listing request and its
    response, and the upload command.  The store itself is a transition on
    a state [W] of the outside world, so that two requests may well be
    answered differently. *)

Record S3ClientConfig : Type := {
  forcePathStyle : option bool;
  endpoint : option jsstring;
  region : option jsstring;
  accessKeyId : jsstring;
  secretAccessKey : jsstring
}.

Record ListObjectsV2Request : Type := {
  Bucket : jsstring;
  ContinuationToken : option jsstring
}.

(** An object of a listing as the client types it: every field optional. *)
Record ListedObject : Type := {
  listed_Key : option jsstring;
  listed_LastModified : option nat
}.

Record ListObjectsV2Output : Type := {
  Contents : option (list ListedObject);
  NextContinuationToken : option jsstring
}.

Definition ListObjectsV2 (W : Type) : Type :=
  S3ClientConfig -> ListObjectsV2Request -> W -> outcome ListObjectsV2Output * W.

(** [obj.Key || ''] *)
Definition key_or_empty (k : option jsstring) : jsstring :=
  if Validation.present k then default [] k else [].

(** The [do ... while (continuationToken)] loop of
    getPublishedVersionsByExtensionId.  The loop runs for as long as the
    store hands out continuation tokens; [fuel] bounds the number of
    requests, and [None] is a run cut short by that bound. *)
Fixpoint list_bucket {W} (listObjectsV2 : ListObjectsV2 W) (fuel : nat)
    (s3 : S3ClientConfig) (bucket : jsstring)
    (continuationToken : option jsstring) (bucketList : list S3Object) (w : W)
    : option (outcome (list S3Object) * W) :=
  match fuel with
  | 0 => None
  | S fuel' =>
      match listObjectsV2 s3 {| Bucket := bucket;
                                ContinuationToken := continuationToken |} w with
      | (Throw e, w') => Some (Throw e, w')
      | (Return response, w') =>
          let bucketList :=
            match Contents response with
            | Some listed =>
                bucketList
                ++ map (fun obj => {| Key := key_or_empty (listed_Key obj);
                                      LastModified := listed_LastModified obj |})
                       listed
            | None => bucketList
            end in
          let continuationToken :=
            if Validation.present (NextContinuationToken response)
            then NextContinuationToken response
            else None in
          if Validation.present continuationToken
          then list_bucket listObjectsV2 fuel' s3 bucket continuationToken
                 bucketList w'
          else Some (Return bucketList, w')
      end
  end.

(** [/^(\w+)\/([^\/]+)\/[^\/]+$/] *)
Definition word_char (c : ascii) : bool :=
  in_range "a" "z" c || in_range "A" "Z" c || in_range "0" "9" c
  || char_eqb c "_".

Definition not_slash (c : ascii) : bool := negb (char_eqb c "/").

Definition OBJECT_KEY : Regex.regex :=
  Regex.seq_of
    [Regex.RBegin; Regex.RGroup (Regex.RPlus (Regex.RSet word_char));
     Regex.RChr "/"; Regex.RGroup (Regex.RPlus (Regex.RSet not_slash));
     Regex.RChr "/"; Regex.RPlus (Regex.RSet not_slash); Regex.REnd].

(** [const [, extensionId, version] = match].  A group that took no part
    would bind [undefined], for which a map keyed by strings has no place:
    the embedding stops there. *)
Definition captured (m : Regex.candidate) (i : nat) : outcome jsstring :=
  match Regex.group m i with
  | Some s => Return s
  | None => Throw (str "TypeError: capture group is undefined")
  end.

(** The body of [for (const object of bucketList)]. *)
Definition record_object
    (versionsByExtensionId : gmap jsstring (gset jsstring)) (object : S3Object)
    : outcome (gmap jsstring (gset jsstring)) :=
  if negb (Validation.present (Some (Key object)))
  then Return versionsByExtensionId
  else
    match Regex.exec OBJECT_KEY (Key object) with
    | Some m =>
        let! extensionId := captured m 1 in
        let! version := captured m 2 in
        let versionsByExtensionId :=
          if negb (Validation.is_some (versionsByExtensionId !! extensionId))
          then <[extensionId := ∅]> versionsByExtensionId
          else versionsByExtensionId in
        Return
          match versionsByExtensionId !! extensionId with
          | Some versions =>
              <[extensionId := versions ∪ {[version]}]> versionsByExtensionId
          | None => versionsByExtensionId
          end
    | None => Return versionsByExtensionId
    end.

Fixpoint record_objects
    (versionsByExtensionId : gmap jsstring (gset jsstring))
    (bucketList : list S3Object) : outcome (gmap jsstring (gset jsstring)) :=
  match bucketList with
  | [] => Return versionsByExtensionId
  | object :: bucketList' =>
      let! versionsByExtensionId := record_object versionsByExtensionId object in
      record_objects versionsByExtensionId bucketList'
  end.

Definition credentials_warning : jsstring :=
  str "S3 credentials not configured. Will not check for existing versions.".

(** getPublishedVersionsByExtensionId: the lines written by [console.warn]
    and the index, with the state the store is left in. *)
Definition getPublishedVersionsByExtensionId {W}
    (listObjectsV2 : ListObjectsV2 W) (fuel : nat) (env : ProcessEnv) (w : W)
    : option (outcome (list jsstring * gmap jsstring (gset jsstring)) * W) :=
  if negb (Validation.present (S3_ACCESS_KEY env))
     || negb (Validation.present (S3_SECRET_KEY env))
     || negb (Validation.present (S3_BUCKET env))
  then Some (Return ([credentials_warning], ∅), w)
  else
    let s3 := {| forcePathStyle := None;
                 endpoint := S3_ENDPOINT env;
                 region := S3_REGION env;
                 accessKeyId := default [] (S3_ACCESS_KEY env);
                 secretAccessKey := default [] (S3_SECRET_KEY env) |} in
    match list_bucket listObjectsV2 fuel s3 (default [] (S3_BUCKET env))
            None [] w with
    | None => None
    | Some (Throw e, w') => Some (Throw e, w')
    | Some (Return bucketList, w') =>
        Some (let! versionsByExtensionId := record_objects ∅ bucketList in
              Return ([], versionsByExtensionId),
              w')
    end.

(** unpublishedExtensionIds with the index it awaits: the lines written to
    the console and the result. *)
Definition unpublishedExtensionIds_from {W}
    (listObjectsV2 : ListObjectsV2 W) (fuel : nat) (env : ProcessEnv)
    (extensionsToml : ExtensionsToml) (w : W)
    : option (outcome (list jsstring * list jsstring) * W) :=
  match getPublishedVersionsByExtensionId listObjectsV2 fuel env w with
  | None => None
  | Some (Throw e, w') => Some (Throw e, w')
  | Some (Return (warned, publishedExtensionVersions), w') =>
      let (logged, result) :=
        unpublishedExtensionIds publishedExtensionVersions extensionsToml in
      Some (Return (warned ++ [logged], result), w')
  end.

(** *** The upload step of packageExtension *)

Record S3ClientOptions : Type := {
  s3Client : option S3ClientConfig;
  options_S3_BUCKET : jsstring;
  EXTENSIONS_PREFIX : jsstring
}.

Record PutObjectCommandInput : Type := {
  put_Bucket : jsstring;
  put_Key : jsstring;
  Body : jsstring;
  ContentType : jsstring;
  ACL : jsstring
}.

(** [s.endsWith(p)]. *)
Definition ends_with (p s : jsstring) : bool := starts_with (rev p) (rev s).

(** The object key of line 276. *)
Definition upload_key (s3Options : S3ClientOptions)
    (extensionId extensionVersion filename : jsstring) : jsstring :=
  EXTENSIONS_PREFIX s3Options ++ str "/" ++ extensionId ++ str "/"
  ++ extensionVersion ++ str "/" ++ filename.

(** The commands sent by the loop over the entries of the output directory,
    each entry given with the contents read from it. *)
Definition upload_commands (extensionId extensionVersion : jsstring)
    (shouldPublish : bool) (s3Options : S3ClientOptions)
    (entries : list (jsstring * jsstring)) : list PutObjectCommandInput :=
  if shouldPublish && Validation.is_some (s3Client s3Options)
  then map (fun entry : jsstring * jsstring =>
              let (filename, contents) := entry in
              {| put_Bucket := options_S3_BUCKET s3Options;
                 put_Key := upload_key s3Options extensionId extensionVersion
                              filename;
                 Body := contents;
                 ContentType :=
                   if ends_with (str ".gz") filename
                   then str "application/gzip"
                   else str "application/octet-stream";
                 ACL := str "public-read" |})
           entries
  else [].

End Cli.

(** ** The canonical sorter

    [src/lib/extensions-toml.ts] and [src/lib/git.ts], which define
    [sortExtensionsToml] and [sortGitmodules], are not among the sources;
    only their callers are. *)

Module CanonicalSorter.
Import Js Validation.

(** Modelled from the spec: the comparison of the canonical order, which
    the missing sorter sources would define; "ordinary lexicographic
    (byte) comparison ascending". *)
Fixpoint byte_leb (a b : jsstring) : bool :=
  match a, b with
  | [], _ => true
  | _ :: _, [] => false
  | x :: a', y :: b' =>
      if code x <? code y then true
      else if code y <? code x then false
      else byte_leb a' b'
  end.

(** Modelled from the spec: the reordering step of the missing sorter
    sources, "entries sorted by [id]" and "sections sorted by [path]";
    entries with equal keys keep their relative order. *)
Fixpoint insert_by {A} (key : A -> jsstring) (x : A) (l : list A) : list A :=
  match l with
  | [] => [x]
  | y :: l' =>
      if byte_leb (key x) (key y) then x :: l else y :: insert_by key x l'
  end.

Definition sort_by {A} (key : A -> jsstring) (l : list A) : list A :=
  fold_right (insert_by key) [] l.

(** How a sort ends: with the canonical contents, or with the error of the
    validation that precedes it. *)
Inductive result (E A : Type) : Type :=
| Ok (a : A)
| Failed (error : E).
Arguments Ok {E A} a.
Arguments Failed {E A} error.

(** Modelled from the spec: the [SchemaError] of [validateRegistry]; the
    specification fixes no more of it than the id it names. *)
Inductive SchemaError : Type :=
| NotAMapping
| InvalidId (extensionId : jsstring)
| InvalidEntry (extensionId : jsstring).

(** Modelled from the spec: [validateRegistry] of section 4.1, the
    validation the missing sorter runs first.  It "fails with SchemaError
    if the input is not an object-shaped mapping; fails if any key violates
    the ID pattern; for every entry, fails unless [version] and [source]
    are non-empty strings".  The registry is the mapping from id to entry
    itself, with no enclosing section. *)
Definition validateRegistry (registry : value) : result SchemaError unit :=
  match registry with
  | JObj entries =>
      match List.find (fun e => negb (Regex.test EXTENSION_ID_PATTERN e.1)) entries with
      | Some e => Failed (InvalidId e.1)
      | None =>
          match List.find
                  (fun e => missing_or_not TString (get e.2 (str "version"))
                            || missing_or_not TString (get e.2 (str "source")))
                  entries with
          | Some e => Failed (InvalidEntry e.1)
          | None => Ok tt
          end
      end
  | _ => Failed NotAMapping
  end.

(** Modelled from the spec: [sortExtensionsToml] of the missing
    [src/lib/extensions-toml.ts], on the registry as the core receives it
    (already parsed, section 6): "if the file fails validation before
    sorting, the sort step fails with the same error", and otherwise the
    entries are "sorted by [id]". *)
Definition sortExtensionsToml (registry : value) : result SchemaError value :=
  match validateRegistry registry with
  | Failed e => Failed e
  | Ok _ =>
      match registry with
      | JObj entries => Ok (JObj (sort_by fst entries))
      | other => Ok other
      end
  end.

End CanonicalSorter.


(** ** The host

    File system, child processes and the blob store are external
    collaborators.  The embedding threads a state [W] of the outside world
    through the calls made to them and keeps, beside the completion of a
    computation, the trace of those calls and of the lines written to the
    console. *)

Module Host.
Import Js.

Inductive stat_result : Type :=
| Stats (isFile : bool)
| StatError (code : option jsstring) (message : jsstring).

(** What [exec] of [./lib/process.js] resolves to. *)
Record ExecOutput : Type := {
  stdout : jsstring;
  stderr : jsstring
}.

Inductive event : Type :=
| Mkdir (path : jsstring)
| Stat (path : jsstring)
| ReadFile (path : jsstring)
| Readdir (path : jsstring)
| Exec (command : jsstring) (args : list jsstring)
       (env : list (jsstring * option jsstring))
| Send (command : Cli.PutObjectCommandInput)
| Log (line : jsstring).

Record host (W : Type) : Type := {
  fs_mkdir : jsstring -> W -> outcome unit * W;
  fs_stat : jsstring -> W -> stat_result * W;
  fs_readFile : jsstring -> W -> outcome jsstring * W;
  fs_readdir : jsstring -> W -> outcome (list jsstring) * W;
  process_exec : jsstring -> list jsstring -> list (jsstring * option jsstring)
                 -> W -> outcome ExecOutput * W;
  s3_send : Cli.PutObjectCommandInput -> W -> outcome unit * W;
  path_join : list jsstring -> jsstring;
  toml_parse : jsstring -> outcome value;
  JSON_parse : jsstring -> outcome value;
  env_PATH : option jsstring
}.
Arguments fs_mkdir {W}.
Arguments fs_stat {W}.
Arguments fs_readFile {W}.
Arguments fs_readdir {W}.
Arguments process_exec {W}.
Arguments s3_send {W}.
Arguments path_join {W}.
Arguments toml_parse {W}.
Arguments JSON_parse {W}.
Arguments env_PATH {W}.

(** An asynchronous computation: from the state of the world to its
    completion, the state it leaves and the trace of what it did. *)
Definition M (W A : Type) : Type := W -> outcome A * W * list event.

Definition ret {W A} (a : A) : M W A := fun w => (Return a, w, []).

Definition throw {W A} (message : jsstring) : M W A :=
  fun w => (Throw message, w, []).

Definition lift {W A} (o : outcome A) : M W A := fun w => (o, w, []).

Definition bind {W A B} (m : M W A) (k : A -> M W B) : M W B :=
  fun w =>
    match m w with
    | (Return a, w', t) =>
        match k a w' with
        | (r, w'', t') => (r, w'', t ++ t')
        end
    | (Throw e, w', t) => (Throw e, w', t)
    end.

(** [try { m } catch (error) { handler(error.message) }] *)
Definition catch {W A} (m : M W A) (handler : jsstring -> M W A) : M W A :=
  fun w =>
    match m w with
    | (Return a, w', t) => (Return a, w', t)
    | (Throw e, w', t) =>
        match handler e w' with
        | (r, w'', t') => (r, w'', t ++ t')
        end
    end.

(** [for (const x of xs) { await body(x) }] *)
Fixpoint for_each {W A} (xs : list A) (body : A -> M W unit) : M W unit :=
  match xs with
  | [] => ret tt
  | x :: xs' => bind (body x) (fun _ => for_each xs' body)
  end.

Definition log {W} (line : jsstring) : M W unit :=
  fun w => (Return tt, w, [Log line]).

Definition call {W A} (e : event) (f : W -> outcome A * W) : M W A :=
  fun w => match f w with (r, w') => (r, w', [e]) end.

End Host.

Notation "'do!' x ':=' m 'in' k" := (Host.bind m (fun x => k))
  (at level 10, x name, m at level 100, k at level 200).

(** ** [src/lib/fs.ts] *)

Module Fs.
Import Js Host.

Section WithHost.
Context {W : Type} (h : host W).

Definition failed_to_parse (path errorMessage : jsstring) : jsstring :=
  str "Failed to parse TOML file '" ++ path ++ str "': " ++ errorMessage.

Definition readTomlFile (path : jsstring) : M W value :=
  catch
    (do! tomlContents := call (ReadFile path) (fs_readFile h path) in
     lift (toml_parse h tomlContents))
    (fun errorMessage => throw (failed_to_parse path errorMessage)).

Definition fileExists (path : jsstring) : M W bool :=
  fun w =>
    match fs_stat h path w with
    | (Stats isFile, w') => (Return isFile, w', [Stat path])
    | (StatError code message, w') =>
        match code with
        | Some c =>
            if string_eqb c (str "ENOENT")
            then (Return false, w', [Stat path])
            else (Throw message, w', [Stat path])
        | None => (Throw message, w', [Stat path])
        end
    end.

End WithHost.

End Fs.

(** ** packageExtension of [src/cli.ts] *)

Module Packaging.
Import Js Host Fs Cli.

(** [a !== b] for [b] a string. *)
Definition differs_from (a : value) (b : jsstring) : bool :=
  match a with
  | JStr s => negb (string_eqb s b)
  | _ => true
  end.

(** [v.k] where [v] may be anything a parser returns: reading a property
    of [null] or [undefined] throws. *)
Definition prop (v : value) (k : jsstring) : outcome value :=
  match v with
  | JUndefined =>
      Throw (str "Cannot read properties of undefined (reading '" ++ k ++ str "')")
  | JNull =>
      Throw (str "Cannot read properties of null (reading '" ++ k ++ str "')")
  | _ => Return (get v k)
  end.

(** [s.includes(p)]. *)
Fixpoint includes (p s : jsstring) : bool :=
  starts_with p s
  || match s with
     | [] => false
     | _ :: s' => includes p s'
     end.

Definition superseded_message : jsstring :=
  str "The `extension.json` manifest format has been superseded by `extension.toml`".

(** The two messages are built from template literals, which convert the
    interpolated value to a string and throw when that conversion does; the
    pieces are converted in the order the source lists them. *)
Definition id_mismatch_message (extensionId : jsstring) (found : value)
    : outcome jsstring :=
  Js.bind (to_string found) (fun foundId =>
  Return
    (join [LF]
       [str "IDs in `extensions.toml` and `extension.toml` do not match:";
        [];
        str "extensions.toml: " ++ extensionId;
        str " extension.toml: " ++ foundId])).

Definition version_mismatch_message
    (extensionId : jsstring) (metadataName : value)
    (extensionVersion : jsstring) (metadataVersion : value) : outcome jsstring :=
  Js.bind (to_string metadataName) (fun name =>
  Js.bind (to_string metadataVersion) (fun actual =>
  Return
    (join [LF]
       [str "Incorrect version for extension " ++ extensionId ++ str " ("
          ++ name ++ str ")";
        [];
        str "Expected version: " ++ extensionVersion;
        str "Actual version: " ++ actual]))).

Section WithHost.
Context {W : Type} (h : host W).

(** The body of the upload loop. *)
Definition upload_entry (extensionId extensionVersion : jsstring)
    (s3Options : S3ClientOptions) (outputDir filename : jsstring) : M W unit :=
  let filePath := path_join h [outputDir; filename] in
  let key := upload_key s3Options extensionId extensionVersion filename in
  do! _ := log (str "Uploading " ++ filePath ++ str " to s3://"
                ++ options_S3_BUCKET s3Options ++ str "/" ++ key) in
  do! body := call (ReadFile filePath) (fs_readFile h filePath) in
  let command :=
    {| put_Bucket := options_S3_BUCKET s3Options;
       put_Key := key;
       Body := body;
       ContentType :=
         if ends_with (str ".gz") filename
         then str "application/gzip"
         else str "application/octet-stream";
       ACL := str "public-read" |} in
  call (Send command) (s3_send h command).

Definition packageExtension
    (extensionId extensionPath extensionVersion : jsstring)
    (shouldPublish : bool) (s3Options : S3ClientOptions) : M W unit :=
  let outputDir := str "output" in
  let SCRATCH_DIR := str "./scratch" in
  do! _ := call (Mkdir SCRATCH_DIR) (fs_mkdir h SCRATCH_DIR) in
  do! superseded := fileExists h (path_join h [extensionPath; str "extension.json"]) in
  if (superseded : bool) then throw superseded_message
  else
    let pathToExtensionToml := path_join h [extensionPath; str "extension.toml"] in
    do! hasExtensionToml := fileExists h pathToExtensionToml in
    do! _ :=
      (if (hasExtensionToml : bool)
       then
         do! extensionToml := readTomlFile h pathToExtensionToml in
         do! found := lift (prop extensionToml (str "id")) in
         if differs_from found extensionId
         then
           do! message := lift (id_mismatch_message extensionId found) in
           throw message
         else ret tt
       else ret tt) in
    let args :=
      [str "--scratch-dir"; SCRATCH_DIR; str "--source-dir"; extensionPath;
       str "--output-dir"; outputDir] in
    let env := [(str "PATH", env_PATH h); (str "RUST_LOG", Some (str "info"))] in
    do! neopilotExtensionOutput :=
      call (Exec (str "./neopilot-extension") args env)
           (process_exec h (str "./neopilot-extension") args env) in
    do! _ := log (stdout neopilotExtensionOutput) in
    let warnings :=
      List.filter (fun line => includes (str "WARN") line)
                  (split_lines (stderr neopilotExtensionOutput)) in
    do! _ := for_each warnings log in
    let manifestPath := path_join h [outputDir; str "manifest.json"] in
    do! manifestJson := call (ReadFile manifestPath) (fs_readFile h manifestPath) in
    do! metadata := lift (JSON_parse h manifestJson) in
    do! metadataVersion := lift (prop metadata (str "version")) in
    if differs_from metadataVersion extensionVersion
    then
      do! message :=
        lift (version_mismatch_message extensionId (get metadata (str "name"))
                extensionVersion metadataVersion) in
      throw message
    else
      do! _ := lift (Validation.validateManifest metadata) in
      if shouldPublish && Validation.is_some (s3Client s3Options)
      then
        do! _ := log (str "Uploading " ++ extensionId ++ str " version "
                      ++ extensionVersion) in
        do! entries := call (Readdir outputDir) (fs_readdir h outputDir) in
        do! _ := for_each entries
                   (upload_entry extensionId extensionVersion s3Options outputDir) in
        log (str "Successfully uploaded " ++ nat_to_string (length entries)
             ++ str " files for " ++ extensionId ++ str "@" ++ extensionVersion)
      else ret tt.

End WithHost.

End Packaging.

(** ** Predicates of the statements *)

Module Predicates.
Import Js Regex Validation Types.

Definition upper_or_underscore (c : ascii) : bool :=
  in_range "A" "Z" c || char_eqb c "_".

(** The first key that the pattern rejects, in key order. *)
Definition first_invalid_id (ids : list jsstring) : option jsstring :=
  List.find (fun extensionId => negb (test EXTENSION_ID_PATTERN extensionId)) ids.

(** What the second loop demands of the entry stored under [extensionId]. *)
Definition entry_ok (section : value) (extensionId : jsstring) : Prop :=
  test EXTENSION_ID_PATTERN extensionId = true
  /\ missing_or_not TObject (get section extensionId) = false
  /\ missing_or_not TString (get (get section extensionId) (str "version")) = false
  /\ missing_or_not TString (get (get section extensionId) (str "source")) = false.

(** The versions of [extensionId] in the published index: none for an id
    the index does not have. *)
Definition published_versions (index : gmap jsstring (gset jsstring))
    (extensionId : jsstring) : gset jsstring :=
  default ∅ (index !! extensionId).

(** The version a registry snapshot records for [extensionId]:
    [JUndefined] when it lacks the id, or has it without a version. *)
Definition version_in (snapshot : ExtensionsToml) (extensionId : jsstring)
    : value :=
  Cli.version_of (lookup_extension extensionId snapshot).

(** The version is a string, as the interface declares it. *)
Definition string_version (info : ExtensionInfo) : Prop :=
  exists s, version info = JStr s.

Definition entry (extensionId v : string) : jsstring * ExtensionInfo :=
  (str extensionId,
   {| id := JStr (str extensionId); version := JStr (str v);
      submodule := JUndefined; Types.path := JUndefined |}).

(** The entry has a version, of whatever type. *)
Definition versioned (info : ExtensionInfo) : bool :=
  match version info with
  | JUndefined => false
  | _ => true
  end.

(** An entry that has no version. *)
Definition versionless (extensionId : string) : jsstring * ExtensionInfo :=
  (str extensionId, as_extension_info (JObj [])).

(** A non-empty run of decimal digits. *)
Definition digits (w : jsstring) : Prop :=
  w <> [] /\ forallb is_digit w = true.

(** The strings of the shape major.minor.patch, optionally followed by a
    hyphen and a non-empty run of letters, digits, dots and hyphens. *)
Definition is_version (s : jsstring) : Prop :=
  exists major minor patch tail,
    s = major ++ str "." ++ minor ++ str "." ++ patch ++ tail
    /\ digits major /\ digits minor /\ digits patch
    /\ (tail = []
        \/ exists pre, tail = str "-" ++ pre /\ pre <> []
                       /\ forallb prerelease_char pre = true).

(** The result holds no complaint about the [version] field. *)
Definition accepts_version (r : ValidationResult) : Prop :=
  ~ In (str "Missing or invalid required field: version") (errors r)
  /\ ~ In (str "Version must follow semantic versioning format (e.g., 1.0.0 or 1.0.0-beta.1)")
          (errors r).

(** The conversion of [v] to a string does not throw where validateManifest
    makes it: [v] is falsy and never converted, or ToString succeeds. *)
Definition renders (v : value) : Prop :=
  truthy v = false \/ exists s, to_string v = Return s.

(** The string [v] is converted to, when it is. *)
Definition rendered (v : value) : jsstring :=
  match to_string v with
  | Return s => s
  | Throw _ => []
  end.

(** The errors validateManifest collects on an object when no conversion
    throws: one for each check that fires, in the order of the checks. *)
Definition manifest_errors (manifest : value) : list jsstring :=
  push_if (truthy (get manifest (str "keywords"))
           && negb (is_string_array (get manifest (str "keywords"))))
    (str "Keywords must be an array of strings")
  (push_if (truthy (get manifest (str "repository"))
            && negb (type_tag_eqb (typeof (get manifest (str "repository"))) TString))
    (str "Repository must be a string")
  (push_if (truthy (get manifest (str "license"))
            && negb (type_tag_eqb (typeof (get manifest (str "license"))) TString))
    (str "License must be a string")
  (push_if (truthy (get manifest (str "author"))
            && negb (type_tag_eqb (typeof (get manifest (str "author"))) TString))
    (str "Author must be a string")
  (push_if (truthy (get manifest (str "version"))
            && negb (test versionRegex (rendered (get manifest (str "version")))))
    version_message
  (push_if (truthy (get manifest (str "name"))
            && negb (test EXTENSION_ID_PATTERN (rendered (get manifest (str "name")))))
    name_message
  (push_if (missing_or_not TString (get manifest (str "description")))
    (required_message (str "description"))
  (push_if (missing_or_not TString (get manifest (str "version")))
    (required_message (str "version"))
  (push_if (missing_or_not TString (get manifest (str "name")))
    (required_message (str "name")) [])))))))).

(** [v] is there (truthy) and is not a string. *)
Definition wrongly_typed (v : value) : Prop :=
  truthy v = true /\ typeof v <> TString.

(** [v] is there (truthy) and is not an array of strings. *)
Definition not_string_array (v : value) : Prop :=
  truthy v = true /\ is_string_array v = false.

Definition manifest_of (fields : list (string * value)) : value :=
  JObj (map (fun f => (str f.1, f.2)) fields).

(** [s] begins with the characters of [p]. *)
Definition begins_with (p : string) (s : jsstring) : Prop :=
  exists tail, s = str p ++ tail.

Definition uses_scheme (schemes : list string) (u : jsstring) : Prop :=
  Exists (fun p => begins_with p u) schemes.

(** The schemes the specification lists, and those the pattern of the
    source lets through. *)
Definition listed_schemes : list string := ["https://"; "git@"; "ssh://"].
Definition accepted_schemes : list string :=
  ["http://"; "https://"; "git@"; "ssh://"].

(** No character of [w] is a line terminator: [w] can be matched by [.+]. *)
Definition one_line (w : jsstring) : Prop :=
  forallb (fun c => negb (is_line_terminator c)) w = true.

Definition blanks (w : jsstring) : Prop := forallb is_space w = true.

Definition header_prefix : jsstring := str "[submodule " ++ [DQUOTE].
Definition header_suffix : jsstring := [DQUOTE] ++ str "]".

(** The trimmed, non-empty lines among [raws]: what the scanning loop of
    validateGitmodules iterates over. *)
Definition nonblank_lines (raws : list jsstring) : list jsstring :=
  List.filter (fun line => 0 <? length line) (map trim raws).

(** The variables of the scanning loop before its first iteration. *)
Definition initial_state : scan_state :=
  {| currentSubmodule := None; scanned := []; scan_errors := [] |}.

(** The submodules collected once the scanning loop is over. *)
Definition collected (st : scan_state) : list Submodule :=
  match currentSubmodule st with
  | Some current => scanned st ++ [current]
  | None => scanned st
  end.

(** A line that is neither a section header, an assignment, a comment nor
    bracketed. *)
Definition unrecognized (line : jsstring) : Prop :=
  test SUBMODULE_HEADER line = false
  /\ test PATH_PROPERTY line = false
  /\ test URL_PROPERTY line = false
  /\ starts_with (str "[") line = false
  /\ starts_with (str "#") line = false.

(** The fixture of the test suite. *)
Definition fixture_submodule : Submodule :=
  {| name := str "extensions/my-extension"; lineNumber := 1;
     Validation.path := Some (str "extensions/my-extension");
     url := Some (str "git@github.com:me/my-extension.git") |}.

Definition fixture_text : jsstring :=
  [LF] ++ header_prefix ++ str "extensions/my-extension" ++ header_suffix ++ [LF]
  ++ str "  path = extensions/my-extension" ++ [LF]
  ++ str "  url = git@github.com:me/my-extension.git" ++ [LF].

(** A value as the scanning loop stores it: on one line and trimmed. *)
Definition clean (s : jsstring) : Prop := one_line s /\ trim s = s.

(** What the scanning loop guarantees of every submodule it collects. *)
Definition parsed_entry (sm : Submodule) : Prop :=
  name sm <> [] /\ one_line (name sm)
  /\ (forall p, Validation.path sm = Some p -> clean p)
  /\ (forall u, url sm = Some u -> clean u).

(** Neither value of the submodule is the empty string. *)
Definition filled_entry (sm : Submodule) : Prop :=
  Validation.path sm <> Some [] /\ url sm <> Some [].

(** A submodule no check complains about. *)
Definition complete_entry (sm : Submodule) : Prop :=
  parsed_entry sm
  /\ (exists p, Validation.path sm = Some p /\ p <> [])
  /\ (exists u, url sm = Some u /\ u <> [] /\ uses_scheme accepted_schemes u).

(** Two submodules that differ at most in their line number. *)
Definition same_entry (a b : Submodule) : Prop :=
  name a = name b /\ Validation.path a = Validation.path b /\ url a = url b.

(** The three lines the scanning loop reads back from a serialized entry. *)
Definition entry_lines (sm : Submodule) : list jsstring :=
  [header_prefix ++ name sm ++ header_suffix;
   str "path = " ++ default [] (Validation.path sm);
   str "url = " ++ default [] (url sm)].

(** [a] comes no later than [b] in the lexicographic order of their
    bytes: [a] is a prefix of [b], or at the first place where they differ
    [a] has the smaller byte. *)
Definition lex_le (a b : jsstring) : Prop :=
  (exists tail, b = a ++ tail)
  \/ (exists common x y a' b',
        a = common ++ x :: a' /\ b = common ++ y :: b' /\ code x < code y).

(** Adjacent elements of a canonically ordered list compare this way. *)
Definition key_le {A} (key : A -> jsstring) (a b : A) : Prop :=
  CanonicalSorter.byte_leb (key a) (key b) = true.

(** Only the two fields the selection functions read. *)
Definition same_version (a b : jsstring * ExtensionInfo) : Prop :=
  a.1 = b.1 /\ strict_equals (version a.2) (version b.2) = true.

(** [key] is [extensionId/v/file]: a non-empty run of word characters,
    then two non-empty segments, with a slash between them and none
    within. *)
Definition names_version (extensionId v key : jsstring) : Prop :=
  exists file,
    key = extensionId ++ str "/" ++ v ++ str "/" ++ file
    /\ extensionId <> [] /\ forallb Cli.word_char extensionId = true
    /\ v <> [] /\ forallb Cli.not_slash v = true
    /\ file <> [] /\ forallb Cli.not_slash file = true.

(** The number of slashes of a key. *)
Definition slashes (key : jsstring) : nat :=
  length (List.filter (fun c => char_eqb c "/") key).

(** The objects a listing response adds to the bucket list. *)
Definition objects_of (response : Cli.ListObjectsV2Output) : list S3Object :=
  match Cli.Contents response with
  | Some listed =>
      map (fun obj => {| Key := Cli.key_or_empty (Cli.listed_Key obj);
                         LastModified := Cli.listed_LastModified obj |})
          listed
  | None => []
  end.

(** A store that answers with the responses of a script, one for each
    request, and keeps the requests it received. *)
Definition scripted
    : Cli.ListObjectsV2 (list Cli.ListObjectsV2Output
                         * list Cli.ListObjectsV2Request) :=
  fun _ request w =>
    match w.1 with
    | response :: script => (Return response, (script, w.2 ++ [request]))
    | [] => (Throw (str "no response"), ([], w.2 ++ [request]))
    end.

(** The environment variables the index needs are all set. *)
Definition configured (env : ProcessEnv) : bool :=
  present (S3_ACCESS_KEY env) && present (S3_SECRET_KEY env)
  && present (S3_BUCKET env).

(** The requests of a listing that starts with [token] and goes through
    [pages]: each carries the token the response before it gave. *)
Definition requests (bucket : jsstring) (token : option jsstring)
    (pages : list Cli.ListObjectsV2Output) : list Cli.ListObjectsV2Request :=
  map (fun t => {| Cli.Bucket := bucket; Cli.ContinuationToken := t |})
      (token :: map Cli.NextContinuationToken pages).

(** [key] is the key of a command that packageExtension sends. *)
Definition uploaded (key : jsstring) : Prop :=
  exists extensionId extensionVersion shouldPublish s3Options entries command,
    In command (Cli.upload_commands extensionId extensionVersion shouldPublish
                  s3Options entries)
    /\ key = Cli.put_Key command.

(** What passes [v && typeof v === "object"]: an object or an array. *)
Definition object_like (v : value) : Prop :=
  match v with
  | JArr _ | JObj _ => True
  | _ => False
  end.

(** What passes [v && typeof v === "string"]. *)
Definition nonempty_string (v : value) : Prop :=
  exists s, v = JStr s /\ s <> [].

(** A string the ID pattern accepts. *)
Definition is_extension_id (s : jsstring) : Prop :=
  s <> [] /\ forallb id_char s = true.

(** The entry under [extensionId] has a version and a source. *)
Definition described (section : value) (extensionId : jsstring) : Prop :=
  object_like (get section extensionId)
  /\ nonempty_string (get (get section extensionId) (str "version"))
  /\ nonempty_string (get (get section extensionId) (str "source")).

(** Every message validateManifest has for an object, in the order of its
    checks. *)
Definition manifest_messages : list jsstring :=
  [str "Missing or invalid required field: name";
   str "Missing or invalid required field: version";
   str "Missing or invalid required field: description";
   str "Manifest name must contain only lowercase letters, numbers, and hyphens";
   str "Version must follow semantic versioning format (e.g., 1.0.0 or 1.0.0-beta.1)";
   str "Author must be a string"; str "License must be a string";
   str "Repository must be a string"; str "Keywords must be an array of strings"].

(** The name a header line gives, if the line is one. *)
Definition header_name (line : jsstring) : option jsstring :=
  match exec SUBMODULE_HEADER line with
  | Some m => group m 1
  | None => None
  end.

(** The value a line assigns to [key], if the line is an assignment to
    it. *)
Definition assigned (key line : jsstring) : option jsstring :=
  match exec (property_pattern key) line with
  | Some m => trim <$> group m 1
  | None => None
  end.

(** The lines of a section: those up to the next header. *)
Fixpoint section_lines (lines : list jsstring) : list jsstring :=
  match lines with
  | [] => []
  | line :: rest =>
      if is_some (header_name line) then [] else line :: section_lines rest
  end.

(** The last value the lines of [block] assign to [key]. *)
Definition last_assigned (key : jsstring) (block : list jsstring)
    : option jsstring :=
  last (omap (assigned key) block).

(** [sm] with the assignments of [block] on top of its own. *)
Definition fill (sm : Submodule) (block : list jsstring) : Submodule :=
  {| name := name sm; lineNumber := lineNumber sm;
     Validation.path :=
       match last_assigned (str "path") block with
       | Some p => Some p
       | None => Validation.path sm
       end;
     url :=
       match last_assigned (str "url") block with
       | Some u => Some u
       | None => url sm
       end |}.

(** The submodules a list of lines describes, [i] lines into the file: one
    for each header, numbered by the position of the header, with the last
    path and the last url its section assigns. *)
Fixpoint sections (i : nat) (lines : list jsstring) : list Submodule :=
  match lines with
  | [] => []
  | line :: rest =>
      match header_name line with
      | Some n =>
          fill {| name := n; lineNumber := i + 1;
                  Validation.path := None; url := None |}
               (section_lines rest)
          :: sections (i + 1) rest
      | None => sections (i + 1) rest
      end
  end.

Definition CR : ascii := "013"%char.

(** [text] with every line feed preceded by a carriage return. *)
Fixpoint to_crlf (text : jsstring) : jsstring :=
  match text with
  | [] => []
  | c :: text' =>
      if char_eqb c LF then CR :: LF :: to_crlf text' else c :: to_crlf text'
  end.

(** The errors the closing loop of validateGitmodules has for one
    submodule: one when it has no path, one when it has no url, and one
    when its url begins with none of the accepted schemes. *)
Definition section_errors (sm : Submodule) (group : list jsstring) : Prop :=
  exists no_path no_url bad_url,
    group = no_path ++ no_url ++ bad_url
    /\ match Validation.path sm with
       | None =>
           no_path = [str "Submodule " ++ [DQUOTE] ++ name sm ++ [DQUOTE]
                      ++ str " missing path property"]
       | Some _ => no_path = []
       end
    /\ match url sm with
       | None =>
           no_url = [str "Submodule " ++ [DQUOTE] ++ name sm ++ [DQUOTE]
                     ++ str " missing url property"]
           /\ bad_url = []
       | Some u =>
           no_url = []
           /\ ((uses_scheme accepted_schemes u /\ bad_url = [])
               \/ (~ uses_scheme accepted_schemes u
                   /\ bad_url = [str "Submodule " ++ [DQUOTE] ++ name sm ++ [DQUOTE]
                                 ++ str " has invalid URL format: " ++ u]))
       end.

(** A line the scanning loop complains about when it opens with a bracket:
    it is no header. *)
Definition bad_header (line : jsstring) : Prop :=
  starts_with (str "[") line = true /\ test SUBMODULE_HEADER line = false.

(** Some line of [lines] is a header. *)
Definition has_header (lines : list jsstring) : Prop :=
  Exists (fun line => test SUBMODULE_HEADER line = true) lines.

End Predicates.

(** ** The gitmodules text model and its canonical form *)

Module Git.
Import Js Regex Validation Predicates CanonicalSorter.

(** Modelled from the spec: the text model of the missing [src/lib/git.ts]
    (sections 3 and 4.2).  It is read off the "non-empty, trimmed lines" of
    the file with the state machine of validateGitmodules: a block for each
    section, made of its entry and of the lines of the section that the
    parser does not consume, which are "preserved verbatim"; and likewise
    the lines that come before the first section. *)
Record Block : Type := {
  section_entry : Submodule;
  kept : list jsstring
}.

Record TextModel : Type := {
  preamble : list jsstring;
  blocks : list Block
}.

Definition is_assignment (line : jsstring) : bool :=
  test PATH_PROPERTY line || test URL_PROPERTY line.

(** The lines of a section that set neither field. *)
Definition unknown_lines (block : list jsstring) : list jsstring :=
  List.filter (fun line => negb (is_assignment line)) block.

(** Modelled from the spec: the parser of the text model.  The blocks of
    a list of lines, [i] lines into the file: "on [[submodule "<name>"]]"
    a new section opens, "with [name], [lineNumber], [path=null],
    [url=null]", and an assignment in it "sets the corresponding field
    (trimmed)". *)
Fixpoint blocks_of (i : nat) (lines : list jsstring) : list Block :=
  match lines with
  | [] => []
  | line :: rest =>
      match header_name line with
      | Some n =>
          {| section_entry :=
               fill {| name := n; lineNumber := i + 1;
                       Validation.path := None; url := None |}
                    (section_lines rest);
             kept := unknown_lines (section_lines rest) |}
          :: blocks_of (i + 1) rest
      | None => blocks_of (i + 1) rest
      end
  end.

(** Modelled from the spec: the text model of a file. *)
Definition parseGitmodules (text : jsstring) : TextModel :=
  {| preamble := section_lines (lines_of text);
     blocks := blocks_of 0 (lines_of text) |}.

(** Modelled from the spec: the serializer of the text model, "one
    [[submodule "name"]] block per entry with [path =] and [url =] lines",
    indented by two spaces and with one space on either side of the equals
    sign; the preserved lines of a block follow its two assignments, and
    those that precede the first section come first.  Every line ends with
    a line feed. *)
Definition block_lines (b : Block) : list jsstring :=
  [str "[submodule " ++ [DQUOTE] ++ name (section_entry b) ++ [DQUOTE] ++ str "]";
   str "  path = " ++ default [] (Validation.path (section_entry b));
   str "  url = " ++ default [] (url (section_entry b))]
  ++ kept b.

Definition serializeGitmodules (model : TextModel) : jsstring :=
  flat_map (fun line => line ++ [LF])
           (preamble model ++ flat_map block_lines (blocks model)).

Definition path_key (sm : Submodule) : jsstring :=
  default [] (Validation.path sm).

Definition block_path (b : Block) : jsstring := path_key (section_entry b).

(** Modelled from the spec: [sortGitmodules] of the missing
    [src/lib/git.ts], from the text of the file to its canonical text
    (section 4.3): it "re-parses, re-orders" the sections "by [path]" and
    writes them out again; "if the file fails validation before sorting,
    the sort step fails with the same error", here the errors of
    validateGitmodules. *)
Definition sortGitmodules (text : jsstring) : result (list jsstring) jsstring :=
  match validateGitmodules (JStr text) with
  | Return parsed =>
      if isValid parsed
      then
        let model := parseGitmodules text in
        Ok (serializeGitmodules
              {| preamble := preamble model;
                 blocks := sort_by block_path (blocks model) |})
      else Failed (errors parsed)
  | Throw e => Failed [e]
  end.

(** A line of the model: not blank, trimmed, and without line feed. *)
Definition model_line (line : jsstring) : Prop :=
  line <> [] /\ trim line = line
  /\ forallb (fun c => negb (char_eqb c LF)) line = true.

(** The lines a valid file has before its first section, and those it has
    within a section besides header and assignments: comments. *)
Definition preamble_line (line : jsstring) : Prop :=
  model_line line /\ starts_with (str "[") line = false.

Definition comment_line (line : jsstring) : Prop :=
  model_line line /\ starts_with (str "#") line = true.

(** A block as a valid file has them. *)
Definition canonical_block (b : Block) : Prop :=
  complete_entry (section_entry b) /\ Forall comment_line (kept b).

(** The lines the parser reads back from a serialized block. *)
Definition read_lines (b : Block) : list jsstring :=
  entry_lines (section_entry b) ++ kept b.

(** Two blocks that differ at most in the line number of their entry. *)
Definition same_block (a b : Block) : Prop :=
  same_entry (section_entry a) (section_entry b) /\ kept a = kept b.

End Git.

(** ** Predicates on runs of packageExtension *)

Module Runs.
Import Js Validation Cli Host Fs Packaging.

(** Every event of every run of [m] satisfies [Q]. *)
Definition traces {W A} (Q : event -> Prop) (m : M W A) : Prop :=
  forall w, Forall Q (m w).2.

(** The commands sent in a trace, in order. *)
Fixpoint sends (t : list event) : list PutObjectCommandInput :=
  match t with
  | [] => []
  | Send command :: t' => command :: sends t'
  | _ :: t' => sends t'
  end.

(** If [e] is an upload, it is one that packageExtension was asked for: to
    the bucket of the options, under [prefix/id/version/], readable by
    all. *)
Definition asked_for (extensionId extensionVersion : jsstring)
    (shouldPublish : bool) (s3Options : S3ClientOptions) (e : event) : Prop :=
  match e with
  | Send command =>
      shouldPublish = true
      /\ is_some (s3Client s3Options) = true
      /\ put_Bucket command = options_S3_BUCKET s3Options
      /\ (exists filename,
            put_Key command
            = upload_key s3Options extensionId extensionVersion filename)
      /\ ACL command = str "public-read"
  | _ => True
  end.

(** A host whose answers depend on the question only. *)
Record answers : Type := {
  mkdir_of : jsstring -> outcome unit;
  stat_of : jsstring -> stat_result;
  contents_of : jsstring -> outcome jsstring;
  listing_of : jsstring -> outcome (list jsstring);
  output_of : jsstring -> list jsstring -> outcome ExecOutput;
  sent : PutObjectCommandInput -> outcome unit;
  joined : list jsstring -> jsstring;
  toml_of : jsstring -> outcome value;
  json_of : jsstring -> outcome value;
  path_variable : option jsstring
}.

Definition stateless (a : answers) : host unit :=
  {| fs_mkdir := fun p w => (mkdir_of a p, w);
     fs_stat := fun p w => (stat_of a p, w);
     fs_readFile := fun p w => (contents_of a p, w);
     fs_readdir := fun p w => (listing_of a p, w);
     process_exec := fun command args _ w => (output_of a command args, w);
     s3_send := fun command w => (sent a command, w);
     path_join := joined a;
     toml_parse := toml_of a;
     JSON_parse := json_of a;
     env_PATH := path_variable a |}.

(** [stat] finds no file at the path. *)
Definition no_file (r : stat_result) : Prop :=
  r = Stats false \/ exists message, r = StatError (Some (str "ENOENT")) message.

(** The lines packageExtension logs for the tool: its output, then the
    lines of its error output that hold WARN. *)
Definition tool_lines (output : ExecOutput) : list event :=
  Log (stdout output)
  :: map Log (List.filter (fun line => includes (str "WARN") line)
                          (split_lines (stderr output))).

(** The arguments packageExtension runs the packaging tool with. *)
Definition tool_args (extensionPath : jsstring) : list jsstring :=
  [str "--scratch-dir"; str "./scratch"; str "--source-dir"; extensionPath;
   str "--output-dir"; str "output"].

(** The events of one turn of the upload loop. *)
Definition upload_events (a : answers) (command : PutObjectCommandInput)
    (filename : jsstring) : list event :=
  [Log (str "Uploading " ++ joined a [str "output"; filename] ++ str " to s3://"
        ++ put_Bucket command ++ str "/" ++ put_Key command);
   ReadFile (joined a [str "output"; filename]);
   Send command].

(** The command packageExtension sends for one file of the output
    directory. *)
Definition upload_command (extensionId extensionVersion : jsstring)
    (s3Options : S3ClientOptions) (filename contents : jsstring)
    : PutObjectCommandInput :=
  {| put_Bucket := options_S3_BUCKET s3Options;
     put_Key := upload_key s3Options extensionId extensionVersion filename;
     Body := contents;
     ContentType :=
       if ends_with (str ".gz") filename
       then str "application/gzip"
       else str "application/octet-stream";
     ACL := str "public-read" |}.

(** A host for a package whose manifest has the version asked for and
    nothing else. *)
Definition bare_manifest_host : answers :=
  {| mkdir_of := fun _ => Return tt;
     stat_of := fun _ => StatError (Some (str "ENOENT")) (str "no such file");
     contents_of := fun _ => Return (str "bytes");
     listing_of := fun _ => Return [str "archive.tar.gz"; str "manifest.json"];
     output_of := fun _ _ => Return {| stdout := str "done"; stderr := [] |};
     sent := fun _ => Return tt;
     joined := join (str "/");
     toml_of := fun _ => Throw (str "not TOML");
     json_of := fun _ => Return (JObj [(str "version", JStr (str "1.0.0"))]);
     path_variable := None |}.

Definition some_options : S3ClientOptions :=
  {| s3Client := Some {| forcePathStyle := Some false; endpoint := None;
                         region := None; accessKeyId := str "k";
                         secretAccessKey := str "s" |};
     options_S3_BUCKET := str "b";
     EXTENSIONS_PREFIX := str "extensions" |}.

End Runs.

(** * Properties *)

#[global] Arguments str : simpl never.
#[global] Arguments Regex.test : simpl never.
#[global] Arguments Regex.exec : simpl never.
#[global] Arguments Js.nat_to_string : simpl never.
#[global] Arguments Js.trim : simpl never.
#[global] Arguments Validation.EXTENSION_ID_PATTERN : simpl never.
#[global] Arguments Validation.versionRegex : simpl never.
#[global] Arguments Validation.SUBMODULE_HEADER : simpl never.
#[global] Arguments Validation.PATH_PROPERTY : simpl never.
#[global] Arguments Validation.URL_PROPERTY : simpl never.
#[global] Arguments Validation.URL_SCHEME : simpl never.
#[global] Arguments Validation.top_level_id_message : simpl never.
#[global] Arguments Validation.invalid_id_message : simpl never.
#[global] Arguments Validation.not_object_message : simpl never.
#[global] Arguments Validation.bad_version_message : simpl never.
#[global] Arguments Validation.bad_source_message : simpl never.
#[global] Arguments Validation.required_message : simpl never.
#[global] Arguments Validation.name_message : simpl never.
#[global] Arguments Validation.version_message : simpl never.
#[global] Arguments Validation.header_message : simpl never.
#[global] Arguments Validation.property_message : simpl never.
#[global] Arguments Validation.missing_path_message : simpl never.
#[global] Arguments Validation.missing_url_message : simpl never.
#[global] Arguments Validation.invalid_url_message : simpl never.
#[global] Arguments Validation.missing_or_not : simpl never.


(** ** The embedding at work *)

Section Examples.
Import Js Regex Validation Predicates.

Example split_lines_keeps_empty_pieces :
  split_lines ([LF] ++ str "a" ++ [LF] ++ [LF] ++ str "b" ++ [LF])
  = [[]; str "a"; []; str "b"; []].
Proof. reflexivity. Qed.

Example trim_strips_both_ends :
  trim (str "  path = a b  ") = str "path = a b" /\ trim (str "   ") = [].
Proof. split; reflexivity. Qed.

Example id_pattern_samples :
  test EXTENSION_ID_PATTERN (str "my-cool-extension") = true
  /\ test EXTENSION_ID_PATTERN (str "base16") = true
  /\ test EXTENSION_ID_PATTERN (str "BadExtension") = false
  /\ test EXTENSION_ID_PATTERN (str "bad_extension") = false
  /\ test EXTENSION_ID_PATTERN [] = false.
Proof. repeat split; by vm_compute. Qed.

Example version_samples :
  test versionRegex (str "1.0.0") = true
  /\ test versionRegex (str "10.20.30-beta.1") = true
  /\ test versionRegex (str "1.0") = false
  /\ test versionRegex (str "1.0.0-") = false
  /\ test versionRegex (str "v1.0.0") = false
  /\ test versionRegex (str "1.0.0" ++ [LF]) = false.
Proof. repeat split; by vm_compute. Qed.

(** Greedy [\s*] leaves [(.+)] the value without its leading blanks. *)
Example property_group :
  (m ← exec PATH_PROPERTY (str "path=   a b"); group m 1) = Some (str "a b")
  /\ exec PATH_PROPERTY (str "path =") = None
  /\ exec PATH_PROPERTY (str "xpath = a") = None.
Proof. repeat split; by vm_compute. Qed.

Example header_group :
  (m ← exec SUBMODULE_HEADER (header_prefix ++ str "a]b" ++ header_suffix);
   group m 1) = Some (str "a]b")
  /\ exec SUBMODULE_HEADER (str "[submodule x]") = None.
Proof. split; by vm_compute. Qed.

Example url_scheme_samples :
  test URL_SCHEME (str "https://example.com/x.git") = true
  /\ test URL_SCHEME (str "http://example.com/x.git") = true
  /\ test URL_SCHEME (str "git@example.com:x.git") = true
  /\ test URL_SCHEME (str "ssh://example.com/x.git") = true
  /\ test URL_SCHEME (str "ftp://example.com/x.git") = false
  /\ test URL_SCHEME (str " https://example.com/x.git") = false.
Proof. repeat split; by vm_compute. Qed.

(** The fixture of the test suite is a valid file. *)
Example fixture_is_valid :
  validateGitmodules (JStr fixture_text)
  = Return {| base := {| isValid := true; errors := [] |};
              submodules := [fixture_submodule] |}.
Proof. by vm_compute. Qed.

Example to_string_samples :
  to_string (JArr [JStr (str "a"); JNull; JArr [JNum (str "1"); JBool true]])
  = Return (str "a,,1,true")
  /\ to_string (JObj []) = Return (str "[object Object]")
  /\ to_string (JObj [(str "toString", JNum (str "1"))]) = Throw TO_PRIMITIVE_ERROR
  /\ to_string (JArr [JObj [(str "toString", JNull)]]) = Throw TO_PRIMITIVE_ERROR.
Proof. repeat split; reflexivity. Qed.

Example keys_and_get_of_array :
  keys (JArr [JStr (str "x"); JStr (str "y")]) = [str "0"; str "1"]
  /\ get (JArr [JStr (str "x"); JStr (str "y")]) (str "1") = JStr (str "y")
  /\ get (JArr [JStr (str "x"); JStr (str "y")]) (str "extensions") = JUndefined.
Proof. repeat split; reflexivity. Qed.

(** A registry with the section the validator asks for. *)
Example nested_registry_passes :
  validateExtensionsToml
    (JObj [(str "extensions",
            JObj [(str "base16",
                   JObj [(str "version", JStr (str "0.1.0"));
                         (str "source", JStr (str "extensions/base16"))])])])
  = Return tt.
Proof. by vm_compute. Qed.

End Examples.
(** ** The matcher *)

Section RegexFacts.
Import Js Regex.

Lemma candidate_eta (x : candidate) :
  Candidate (consumed x) (rest x) (groups x) = x.
Proof. by destruct x. Qed.

Lemma candidate_ext (x : candidate) c r g :
  consumed x = c -> rest x = r -> groups x = g -> x = Candidate c r g.
Proof. destruct x; cbn; by intros -> -> ->. Qed.

Lemma search_not_at_start r s : search (RSeq RBegin r) false s = None.
Proof. induction s as [|c s IH]; cbn; [done | exact IH]. Qed.

Lemma run_begin_seq r s :
  run (RSeq RBegin r) true s = run r true s.
Proof.
  cbn. rewrite app_nil_r. rewrite <- (map_id (run r true s)) at 2.
  apply map_ext. intros x. apply candidate_eta.
Qed.

(** A pattern that opens with [^] matches at the start of the input or
    not at all. *)
Lemma exec_anchored r s : exec (RSeq RBegin r) s = hd_error (run r true s).
Proof.
  unfold exec. destruct s as [|c s].
  - cbn [search]. rewrite run_begin_seq. by destruct (run r true []).
  - cbn [search]. rewrite run_begin_seq, search_not_at_start.
    by destruct (run r true (c :: s)).
Qed.

Lemma test_anchored r s :
  test (RSeq RBegin r) s = true <-> exists x, In x (run r true s).
Proof.
  unfold test. rewrite exec_anchored.
  destruct (run r true s) as [|x l]; cbn.
  - split; [done | by intros [x []]].
  - split; [|done]. intros _. exists x. by left.
Qed.

Lemma exec_anchored_in r s x :
  exec (RSeq RBegin r) s = Some x -> In x (run r true s).
Proof.
  rewrite exec_anchored. destruct (run r true s); cbn; [done|].
  intros [= ->]. by left.
Qed.

Lemma exec_anchored_some r s x :
  In x (run r true s) -> exists y, exec (RSeq RBegin r) s = Some y.
Proof.
  rewrite exec_anchored. destruct (run r true s) as [|y l]; [done|].
  intros _. by exists y.
Qed.

Lemma in_run_seq r1 r2 b s x :
  In x (run (RSeq r1 r2) b s) <->
  exists x1 x2,
    In x1 (run r1 b s)
    /\ In x2 (run r2 (b && Nat.eqb (length (consumed x1)) 0) (rest x1))
    /\ x = Candidate (consumed x1 ++ consumed x2) (rest x2)
                     (groups x1 ++ groups x2).
Proof.
  cbn [run]. rewrite in_flat_map. split.
  - intros (x1 & H1 & H2). apply in_map_iff in H2 as (x2 & <- & H2).
    by exists x1, x2.
  - intros (x1 & x2 & H1 & H2 & ->). exists x1. split; [done|].
    apply in_map_iff. by exists x2.
Qed.

Lemma run_seq_ex r1 r2 b s x1 :
  In x1 (run r1 b s) ->
  (exists x2, In x2 (run r2 (b && Nat.eqb (length (consumed x1)) 0) (rest x1))) ->
  exists x, In x (run (RSeq r1 r2) b s).
Proof.
  intros H1 (x2 & H2). eexists. apply in_run_seq. by exists x1, x2.
Qed.

Lemma in_run_chr c b s x :
  In x (run (RChr c) b s) <-> exists s', s = c :: s' /\ x = Candidate [c] s' [].
Proof.
  cbn [run]. destruct s as [|c' s'].
  - split; [done | by intros (? & ? & _)].
  - unfold char_eqb. destruct (Ascii.eqb_spec c c') as [->|Hne]; cbn.
    + split.
      * intros [<-|[]]. by exists s'.
      * intros (s'' & [= ->] & ->). by left.
    + split; [done|]. intros (s'' & [= ? ?] & _). done.
Qed.

Lemma in_run_set p b s x :
  In x (run (RSet p) b s) <->
  exists c s', s = c :: s' /\ p c = true /\ x = Candidate [c] s' [].
Proof.
  cbn [run]. destruct s as [|c' s'].
  - split; [done | by intros (? & ? & ? & _)].
  - destruct (p c') eqn:Hp; cbn.
    + split.
      * intros [<-|[]]. by exists c', s'.
      * intros (c & s'' & [= -> ->] & _ & ->). by left.
    + split; [done|]. intros (c & s'' & [= -> ->] & Hc & _). congruence.
Qed.

Lemma in_run_end b s x :
  In x (run REnd b s) <-> s = [] /\ x = Candidate [] [] [].
Proof.
  cbn [run]. destruct s; cbn.
  - split; [intros [<-|[]]; done | intros [_ ->]; by left].
  - split; [done | by intros [? _]].
Qed.

Lemma in_run_eps b s x :
  In x (run REps b s) <-> x = Candidate [] s [].
Proof. cbn. split; [by intros [<-|[]] | intros ->; by left]. Qed.

Lemma in_run_group r b s x :
  In x (run (RGroup r) b s) <->
  exists y, In y (run r b s)
            /\ x = Candidate (consumed y) (rest y) (Some (consumed y) :: groups y).
Proof.
  cbn [run]. rewrite in_map_iff. split; intros (y & H1 & H2); by exists y.
Qed.

Lemma in_run_opt r b s x :
  In x (run (ROpt r) b s) <->
  In x (run r b s) \/ x = Candidate [] s (unset (ngroups r)).
Proof.
  cbn [run]. rewrite in_app_iff. cbn [In]. split.
  - intros [H|[<-|[]]]; [by left | by right].
  - intros [H| ->]; [by left | right; by left].
Qed.

Lemma in_run_alt r1 r2 b s x :
  In x (run (RAlt r1 r2) b s) <->
  (exists y, In y (run r1 b s)
             /\ x = Candidate (consumed y) (rest y) (groups y ++ unset (ngroups r2)))
  \/ (exists y, In y (run r2 b s)
                /\ x = Candidate (consumed y) (rest y) (unset (ngroups r1) ++ groups y)).
Proof.
  cbn [run]. rewrite in_app_iff, !in_map_iff.
  split; (intros [(y & H1 & H2)|(y & H1 & H2)]; [left|right]; by exists y).
Qed.

Lemma in_run_lit w b s x :
  In x (run (lit w) b s) <-> exists s', s = w ++ s' /\ x = Candidate w s' [].
Proof.
  revert b s x. induction w as [|c w IH]; intros b s x.
  - cbn [lit]. rewrite in_run_eps. split.
    + intros ->. by exists s.
    + by intros (s' & -> & ->).
  - destruct w as [|c' w'].
    + cbn [lit]. apply in_run_chr.
    + change (lit (c :: c' :: w')) with (RSeq (RChr c) (lit (c' :: w'))).
      rewrite in_run_seq. split.
      * intros (x1 & x2 & H1 & H2 & ->).
        apply in_run_chr in H1 as (s1 & -> & ->). cbn in H2.
        apply IH in H2 as (s2 & -> & ->). by exists s2.
      * intros (s' & -> & ->).
        exists (Candidate [c] ((c' :: w') ++ s') []), (Candidate (c' :: w') s' []).
        split; [apply in_run_chr; by eexists|].
        split; [apply IH; by eexists | done].
Qed.

(** Iterations of a character class: every prefix made of characters of
    the class is a way to match. *)
Lemma in_iterate_set p fuel b s x :
  length s <= fuel ->
  In x (iterate (run (RSet p)) fuel b s []) <->
  exists w, forallb p w = true /\ s = w ++ rest x
            /\ consumed x = w /\ groups x = [].
Proof.
  revert b s x. induction fuel as [|fuel IH]; intros b s x Hlen.
  - destruct s; [|cbn in Hlen; lia]. cbn. split.
    + intros [<-|[]]. by exists [].
    + intros (w & _ & Hs & Hc & Hg). left.
      symmetry in Hs. apply app_eq_nil in Hs as [-> Hr].
      symmetry. by apply candidate_ext.
  - cbn [iterate]. rewrite in_app_iff, in_flat_map. split.
    + intros [(y & Hy & Hx)|[<-|[]]]; [|by exists []].
      apply in_run_set in Hy as (c & s' & -> & Hc & ->). cbn [rest consumed groups] in Hx.
      destruct (length s' <? length (c :: s')) eqn:Hlt; [|done].
      apply in_map_iff in Hx as (z & <- & Hz).
      apply IH in Hz as (w & Hw & -> & Hcz & Hgz); [|cbn in Hlen; lia].
      exists (c :: w). cbn. rewrite Hc, Hw, Hcz. done.
    + intros (w & Hw & Hs & Hc & Hg). destruct w as [|c w].
      * right. left. symmetry. by apply candidate_ext.
      * left. cbn in Hw. apply andb_true_iff in Hw as [Hpc Hw].
        exists (Candidate [c] (w ++ rest x) []). split.
        { apply in_run_set. exists c, (w ++ rest x). by rewrite Hs. }
        cbn [rest consumed groups]. rewrite Hs.
        replace (length (w ++ rest x) <? length ((c :: w) ++ rest x)) with true
          by (symmetry; apply Nat.ltb_lt; cbn; lia).
        apply in_map_iff. exists (Candidate w (rest x) []). split.
        { symmetry. by apply candidate_ext. }
        apply IH; [rewrite Hs in Hlen; cbn in Hlen; lia|].
        by exists w.
Qed.

Lemma in_run_star_set p b s x :
  In x (run (RStar (RSet p)) b s) <->
  exists w, forallb p w = true /\ s = w ++ rest x
            /\ consumed x = w /\ groups x = [].
Proof. cbn [run ngroups unset repeat]. by apply in_iterate_set. Qed.

Lemma run_plus_unfold r b s :
  run (RPlus r) b s =
  flat_map
    (fun x =>
       map (fun y => Candidate (consumed x ++ consumed y) (rest y) (groups y))
           (iterate (run r) (length (rest x))
              (b && Nat.eqb (length (consumed x)) 0) (rest x) (groups x)))
    (run r b s).
Proof. reflexivity. Qed.

Lemma in_run_plus_set p b s x :
  In x (run (RPlus (RSet p)) b s) <->
  exists w, w <> [] /\ forallb p w = true /\ s = w ++ rest x
            /\ consumed x = w /\ groups x = [].
Proof.
  rewrite run_plus_unfold, in_flat_map. split.
  - intros (y & Hy & Hx).
    apply in_run_set in Hy as (c & s' & -> & Hc & ->). cbn [rest consumed groups] in Hx.
    apply in_map_iff in Hx as (z & <- & Hz).
    apply in_iterate_set in Hz as (w & Hw & -> & Hcz & Hgz); [|done].
    exists (c :: w). cbn. rewrite Hc, Hw, Hcz. done.
  - intros (w & Hne & Hw & Hs & Hc & Hg). destruct w as [|c w]; [done|].
    cbn in Hw. apply andb_true_iff in Hw as [Hpc Hw].
    exists (Candidate [c] (w ++ rest x) []). split.
    { apply in_run_set. exists c, (w ++ rest x). by rewrite Hs. }
    cbn [rest consumed groups].
    apply in_map_iff. exists (Candidate w (rest x) []). split.
    { symmetry. by apply candidate_ext. }
    apply in_iterate_set; [done|]. by exists w.
Qed.

(** Every match splits the input into what it consumed and what is left,
    and carries one entry per capture group of the pattern. *)
Lemma iterate_splits step n fuel :
  (forall b s x, In x (step b s) ->
                 s = consumed x ++ rest x /\ length (groups x) = n) ->
  forall b s g x,
    length g = n ->
    In x (iterate step fuel b s g) ->
    s = consumed x ++ rest x /\ length (groups x) = n.
Proof.
  intros Hstep. induction fuel as [|fuel IH]; intros b s g x Hg; cbn [iterate].
  - by intros [<-|[]].
  - rewrite in_app_iff, in_flat_map. intros [(y & Hy & Hx)|[<-|[]]]; [|done].
    destruct (length (rest y) <? length s); [|done].
    apply in_map_iff in Hx as (z & <- & Hz). cbn [consumed rest groups].
    destruct (Hstep _ _ _ Hy) as [Hs Hgy].
    destruct (IH _ _ _ _ Hgy Hz) as [Hr Hgz].
    split; [|done]. by rewrite <- app_assoc, <- Hr.
Qed.

Lemma length_unset n : length (unset n) = n.
Proof. apply repeat_length. Qed.

Lemma run_splits r : forall b s x,
  In x (run r b s) ->
  s = consumed x ++ rest x /\ length (groups x) = ngroups r.
Proof.
  induction r as [| c | p | r1 IH1 r2 IH2 | r1 IH1 r2 IH2 | r IH | r IH | r IH
                 | r IH | |]; intros b s x.
  - rewrite in_run_eps. by intros ->.
  - rewrite in_run_chr. by intros (s' & -> & ->).
  - rewrite in_run_set. by intros (c & s' & -> & _ & ->).
  - rewrite in_run_seq. intros (x1 & x2 & H1 & H2 & ->).
    destruct (IH1 _ _ _ H1) as [E1 G1], (IH2 _ _ _ H2) as [E2 G2].
    cbn [consumed rest groups ngroups]. split.
    + by rewrite <- app_assoc, <- E2.
    + by rewrite length_app, G1, G2.
  - rewrite in_run_alt. intros [(y & Hy & ->)|(y & Hy & ->)];
      cbn [consumed rest groups ngroups].
    + destruct (IH1 _ _ _ Hy) as [E G]. split; [done|].
      by rewrite length_app, length_unset, G.
    + destruct (IH2 _ _ _ Hy) as [E G]. split; [done|].
      by rewrite length_app, length_unset, G.
  - cbn [run ngroups]. intros Hx.
    apply (iterate_splits (run r) (ngroups r) _ IH _ _ _ _ (length_unset _) Hx).
  - rewrite run_plus_unfold, in_flat_map. intros (y & Hy & Hx).
    apply in_map_iff in Hx as (z & <- & Hz). cbn [consumed rest groups ngroups].
    destruct (IH _ _ _ Hy) as [E G].
    destruct (iterate_splits (run r) (ngroups r) _ IH _ _ _ _ G Hz) as [E' G'].
    split; [|done]. by rewrite <- app_assoc, <- E'.
  - rewrite in_run_opt. intros [H| ->]; [by apply (IH b)|].
    cbn [consumed rest groups ngroups]. split; [done | apply length_unset].
  - rewrite in_run_group. intros (y & Hy & ->).
    destruct (IH _ _ _ Hy) as [E G]. cbn [consumed rest groups ngroups length].
    by rewrite G.
  - cbn [run]. destruct b; [|done]. by intros [<-|[]].
  - rewrite in_run_end. by intros [-> ->].
Qed.

End RegexFacts.

(** ** validateExtensionsToml *)

Section ExtensionsTomlFacts.
Import Js Regex Validation Predicates.

(** The strings [/^[a-z0-9\-]+$/] accepts: the non-empty strings of
    lowercase letters, digits and hyphens. *)
Lemma test_extension_id_pattern s :
  test EXTENSION_ID_PATTERN s = true <-> s <> [] /\ forallb id_char s = true.
Proof.
  change EXTENSION_ID_PATTERN
    with (RSeq RBegin (RSeq (RPlus (RSet id_char)) REnd)).
  rewrite test_anchored. split.
  - intros (x & Hx). apply in_run_seq in Hx as (x1 & x2 & H1 & H2 & _).
    apply in_run_plus_set in H1 as (w & Hne & Hw & Hs & _).
    apply in_run_end in H2 as [Hr _]. rewrite Hr, app_nil_r in Hs. by subst.
  - intros [Hne Hall]. eexists. apply in_run_seq.
    exists (Candidate s [] []), (Candidate [] [] []). split; [|split; [|done]].
    + apply in_run_plus_set. exists s. by rewrite app_nil_r.
    + by apply in_run_end.
Qed.

Lemma upper_or_underscore_not_id_char c :
  upper_or_underscore c = true -> id_char c = false.
Proof.
  destruct c as [[] [] [] [] [] [] [] []]; vm_compute; intros H;
    first [reflexivity | discriminate H].
Qed.

Lemma test_rejects_upper_or_underscore s :
  existsb upper_or_underscore s = true -> test EXTENSION_ID_PATTERN s = false.
Proof.
  intros Hex. apply not_true_is_false. rewrite test_extension_id_pattern.
  intros [_ Hall]. apply existsb_exists in Hex as (c & Hin & Hc).
  rewrite forallb_forall in Hall. specialize (Hall c Hin).
  apply upper_or_underscore_not_id_char in Hc. congruence.
Qed.

Lemma check_top_level_ids_eq ids :
  check_top_level_ids ids =
  match first_invalid_id ids with
  | Some bad => Throw (top_level_id_message bad)
  | None => Return tt
  end.
Proof.
  induction ids as [|k ids IH]; [done|]. cbn.
  destruct (negb (test EXTENSION_ID_PATTERN k)); [done | exact IH].
Qed.

Lemma first_invalid_id_none ids :
  first_invalid_id ids = None <->
  Forall (fun k => test EXTENSION_ID_PATTERN k = true) ids.
Proof.
  induction ids as [|k ids IH]; cbn.
  - split; [constructor | done].
  - destruct (test EXTENSION_ID_PATTERN k) eqn:Hk; cbn.
    + rewrite IH. split; [by constructor | by inversion 1].
    + split; [done | inversion 1; congruence].
Qed.

Lemma check_extensions_ok section ids :
  check_extensions section ids = Return tt <-> Forall (entry_ok section) ids.
Proof.
  induction ids as [|k ids IH]; cbn.
  - split; [constructor | done].
  - unfold entry_ok at 1. split.
    + intros H.
      destruct (test EXTENSION_ID_PATTERN k) eqn:E1; cbn in H; [|done].
      destruct (missing_or_not TObject (get section k)) eqn:E2; [done|].
      destruct (missing_or_not TString (get (get section k) (str "version")))
        eqn:E3; [done|].
      destruct (missing_or_not TString (get (get section k) (str "source")))
        eqn:E4; [done|].
      constructor; [done | by apply IH].
    + inversion 1 as [|? ? (E1 & E2 & E3 & E4) Hrest]; subst.
      rewrite E1, E2, E3, E4. cbn. by apply IH.
Qed.

(** Validation succeeds exactly on an object whose own keys all match the
    pattern and whose [extensions] property is an object with valid
    entries. *)
Lemma validateExtensionsToml_ok v :
  validateExtensionsToml v = Return tt <->
  missing_or_not TObject v = false
  /\ Forall (fun k => test EXTENSION_ID_PATTERN k = true) (keys v)
  /\ missing_or_not TObject (get v (str "extensions")) = false
  /\ Forall (entry_ok (get v (str "extensions"))) (keys (get v (str "extensions"))).
Proof.
  unfold validateExtensionsToml.
  destruct (missing_or_not TObject v); [split; [done | by intros [? _]]|].
  rewrite check_top_level_ids_eq, <- first_invalid_id_none.
  destruct (first_invalid_id (keys v)); cbn;
    [split; [done | by intros (_ & ? & _)]|].
  destruct (missing_or_not TObject (get v (str "extensions")));
    [split; [done | by intros (_ & _ & ? & _)]|].
  rewrite check_extensions_ok. tauto.
Qed.


Lemma first_invalid_id_some ids bad :
  first_invalid_id ids = Some bad ->
  In bad ids /\ test EXTENSION_ID_PATTERN bad = false.
Proof.
  intros H. apply find_some in H as [Hin Hbad].
  split; [done|]. by apply negb_true_iff.
Qed.

(** An object with a key holding an uppercase letter or an underscore is
    rejected by the first loop, with the message naming the first key the
    pattern rejects. *)
Lemma validateExtensionsToml_names_first_invalid v k :
  missing_or_not TObject v = false ->
  In k (keys v) ->
  existsb upper_or_underscore k = true ->
  exists bad,
    first_invalid_id (keys v) = Some bad
    /\ validateExtensionsToml v = Throw (top_level_id_message bad).
Proof.
  intros Hobj Hin Hup. unfold validateExtensionsToml.
  rewrite Hobj, check_top_level_ids_eq.
  destruct (first_invalid_id (keys v)) as [bad|] eqn:Hfind.
  - by exists bad.
  - apply first_invalid_id_none in Hfind. rewrite List.Forall_forall in Hfind.
    specialize (Hfind k Hin).
    rewrite test_rejects_upper_or_underscore in Hfind; done.
Qed.

(** When the keys before it match the pattern, the key named is the
    offending key itself; so it is for a registry of one entry, as the test
    suite builds them. *)
Lemma validateExtensionsToml_names_invalid_id (before after : list (jsstring * value))
    (extensionId : jsstring) (v : value) :
  Forall (fun k => test EXTENSION_ID_PATTERN k = true) (map fst before) ->
  existsb upper_or_underscore extensionId = true ->
  validateExtensionsToml (JObj (before ++ (extensionId, v) :: after))
  = Throw (top_level_id_message extensionId).
Proof.
  intros Hbefore Hbad. unfold validateExtensionsToml.
  change (missing_or_not TObject (JObj (before ++ (extensionId, v) :: after)))
    with false. cbn [keys]. rewrite map_app. cbn [map fst].
  induction Hbefore as [|k ks Hk _ IH]; cbn [app check_top_level_ids].
  - by rewrite test_rejects_upper_or_underscore.
  - rewrite Hk. cbn [negb]. exact IH.
Qed.

(** C1, at the registry of the test suite and at a registry as the
    command line reads it: every key of [{ "my-cool-extension": {} }] and of
    [{ "base16": { submodule, version } }] matches the ID pattern, and
    validateExtensionsToml throws all the same, for want of an
    [extensions] section. *)
Theorem validateExtensionsToml_rejects_flat_registry :
  let tested := JObj [(str "my-cool-extension", JObj [])] in
  let flat :=
    JObj [(str "base16",
           JObj [(str "submodule", JStr (str "extensions/base16"));
                 (str "version", JStr (str "0.1.0"))])] in
  Forall (fun k => test EXTENSION_ID_PATTERN k = true) (keys tested)
  /\ validateExtensionsToml tested
     = Throw (str "Missing or invalid extensions section")
  /\ Forall (fun k => test EXTENSION_ID_PATTERN k = true) (keys flat)
  /\ validateExtensionsToml flat
     = Throw (str "Missing or invalid extensions section").
Proof.
  cbv zeta. split; [|split; [|split]].
  - constructor; [by vm_compute | constructor].
  - by vm_compute.
  - constructor; [by vm_compute | constructor].
  - by vm_compute.
Qed.

(** C10, as the code has it: on an object without an object-valued
    [extensions] property, validateExtensionsToml throws "Missing or invalid
    extensions section" when every top-level key matches the ID pattern, and
    the ID error of the first offending key otherwise; and it returns only
    when the section is there and every entry of it passes its checks. *)
Theorem validateExtensionsToml_requires_section (v : value) :
  missing_or_not TObject v = false ->
  (missing_or_not TObject (get v (str "extensions")) = true ->
   (Forall (fun k => test EXTENSION_ID_PATTERN k = true) (keys v) ->
    validateExtensionsToml v = Throw (str "Missing or invalid extensions section"))
   /\ (forall bad, first_invalid_id (keys v) = Some bad ->
       validateExtensionsToml v = Throw (top_level_id_message bad)))
  /\ (validateExtensionsToml v = Return tt ->
      missing_or_not TObject (get v (str "extensions")) = false
      /\ Forall (entry_ok (get v (str "extensions")))
                (keys (get v (str "extensions")))).
Proof.
  intros Hobj. split.
  - intros Hsec. unfold validateExtensionsToml.
    rewrite Hobj, check_top_level_ids_eq. split.
    + intros Hall. apply first_invalid_id_none in Hall. rewrite Hall. cbn.
      by rewrite Hsec.
    + intros bad Hbad. by rewrite Hbad.
  - intros Hok. apply validateExtensionsToml_ok in Hok. tauto.
Qed.

Lemma validateExtensionsToml_requires_section_witness :
  validateExtensionsToml (JObj [(str "base16", JObj [])])
  = Throw (str "Missing or invalid extensions section").
Proof.
  apply (validateExtensionsToml_requires_section (JObj [(str "base16", JObj [])])).
  - vm_compute. reflexivity.
  - vm_compute. reflexivity.
  - constructor; [vm_compute; reflexivity | constructor].
Defined.

(** C10 as stated fails: [{ "Bad": {} }] has no [extensions] section, and
    the error thrown is the ID error of its key. *)
Lemma validateExtensionsToml_requires_section_counterexample :
  let v := JObj [(str "Bad", JObj [])] in
  missing_or_not TObject v = false
  /\ missing_or_not TObject (get v (str "extensions")) = true
  /\ validateExtensionsToml v = Throw (top_level_id_message (str "Bad"))
  /\ validateExtensionsToml v <> Throw (str "Missing or invalid extensions section").
Proof.
  cbv zeta. repeat split; try (vm_compute; reflexivity).
  vm_compute. intros [=].
Qed.

End ExtensionsTomlFacts.
(** ** The selection engine *)

Section SelectionFacts.
Import Js Types Cli Predicates.

Lemma has_string (versions : gset jsstring) s :
  has versions (JStr s) = true <-> s ∈ versions.
Proof. cbn. apply bool_decide_eq_true. Qed.

Lemma has_inv (versions : gset jsstring) v :
  has versions v = true <-> exists s, v = JStr s /\ s ∈ versions.
Proof.
  split.
  - destruct v; cbn; try done. intros Hin%bool_decide_eq_true. eauto.
  - intros (s & -> & Hin). by apply has_string.
Qed.

Lemma has_empty v : has ∅ v = false.
Proof.
  destruct v; cbn; try done; apply bool_decide_eq_false, not_elem_of_empty.
Qed.

Lemma strict_equals_string a s :
  strict_equals a (JStr s) = true <-> a = JStr s.
Proof.
  destruct a; cbn; try (split; [discriminate | congruence]).
  unfold string_eqb. rewrite bool_decide_eq_true. split; congruence.
Qed.

Lemma strict_equals_undefined v :
  strict_equals JUndefined v = true <-> v = JUndefined.
Proof. destruct v; cbn; split; congruence. Qed.

(** Equal operands are the same primitive. *)
Lemma strict_equals_eq a b : strict_equals a b = true -> a = b.
Proof.
  destruct a, b; cbn; try done.
  - intros H%Bool.eqb_prop. congruence.
  - unfold string_eqb. intros [H%bool_decide_eq_true _]%andb_true_iff. congruence.
  - unfold string_eqb. intros H%bool_decide_eq_true. congruence.
Qed.

Lemma strict_equals_left a b :
  strict_equals a b = true -> strict_equals a a = true.
Proof. intros H. pose proof (strict_equals_eq a b H) as <-. done. Qed.

Lemma unpublished_fold index (toml : ExtensionsToml) (acc : list jsstring) :
  fold_left
    (fun (result : list jsstring) (entry : jsstring * ExtensionInfo) =>
       let (extensionId, extensionInfo) := entry in
       match index !! extensionId with
       | Some set =>
           if has set (version extensionInfo)
           then result
           else result ++ [extensionId]
       | None => result ++ [extensionId]
       end)
    toml acc
  = acc ++ (filter (λ e, has (published_versions index e.1) (version e.2) = false)
              toml).*1.
Proof.
  revert acc. induction toml as [|[k info] toml IH]; intros acc; cbn [fold_left].
  - by rewrite app_nil_r.
  - rewrite IH, filter_cons. cbn [fst snd].
    assert (Hpv : published_versions index k = default ∅ (index !! k)) by done.
    rewrite Hpv. clear Hpv.
    destruct (index !! k) as [set|] eqn:Hk; cbn [default Datatypes.id].
    + destruct (has set (version info)) eqn:Hhas.
      * by rewrite decide_False.
      * rewrite decide_True by done. cbn. by rewrite <- app_assoc.
    + rewrite decide_True by apply has_empty. cbn.
      by rewrite <- app_assoc.
Qed.

Lemma changed_fold main (toml : ExtensionsToml) (acc : list jsstring) :
  fold_left
    (fun (result : list jsstring) (entry : jsstring * ExtensionInfo) =>
       let (extensionId, extensionInfo) := entry in
       let mainExtension := lookup_extension extensionId main in
       if strict_equals (version_of mainExtension) (version extensionInfo)
       then result
       else result ++ [extensionId])
    toml acc
  = acc ++ (filter (λ e, strict_equals (version_in main e.1) (version e.2) = false)
              toml).*1.
Proof.
  revert acc. induction toml as [|[k info] toml IH]; intros acc; cbn [fold_left].
  - by rewrite app_nil_r.
  - rewrite IH, filter_cons. cbn [fst snd].
    change (version_of (lookup_extension k main)) with (version_in main k).
    destruct (strict_equals (version_in main k) (version info)).
    + by rewrite decide_False.
    + rewrite decide_True by done. cbn. by rewrite <- app_assoc.
Qed.

Lemma unpublished_eq index (toml : ExtensionsToml) :
  (unpublishedExtensionIds index toml).2
  = (filter (λ e, has (published_versions index e.1) (version e.2) = false)
       toml).*1.
Proof. unfold unpublishedExtensionIds. cbn [snd]. by rewrite unpublished_fold. Qed.

Lemma changed_eq main (toml : ExtensionsToml) :
  (changedExtensionIds main toml).2
  = (filter (λ e, strict_equals (version_in main e.1) (version e.2) = false)
       toml).*1.
Proof. unfold changedExtensionIds. cbn [snd]. by rewrite changed_fold. Qed.

(** C2: unpublishedExtensionIds returns, in registry order, exactly the ids
    whose current version is not among the published versions of that id,
    an id the index lacks having none (and a version that is no string being
    among none); so an id published under another version is selected, and
    registry [{a: v1.0.0, b: v2.0.0}] with index [{a: {v1.0.0}}] gives
    exactly [[b]]. *)
Theorem unpublishedExtensionIds_selects
    (index : gmap jsstring (gset jsstring)) (toml : ExtensionsToml) :
  (unpublishedExtensionIds index toml).2
  = (filter (λ e, has (published_versions index e.1) (version e.2) = false)
       toml).*1
  /\ (forall extensionId,
        extensionId ∈ (unpublishedExtensionIds index toml).2 <->
        exists info,
          (extensionId, info) ∈ toml
          /\ ~ (exists s, version info = JStr s
                          /\ s ∈ published_versions index extensionId))
  /\ (forall extensionId info versions s,
        (extensionId, info) ∈ toml ->
        index !! extensionId = Some versions ->
        version info = JStr s ->
        s ∉ versions ->
        extensionId ∈ (unpublishedExtensionIds index toml).2)
  /\ (forall extensionId info,
        (extensionId, info) ∈ toml ->
        index !! extensionId = None ->
        extensionId ∈ (unpublishedExtensionIds index toml).2)
  /\ (unpublishedExtensionIds
        {[ str "a" := {[ str "v1.0.0" ]} ]}
        [entry "a" "v1.0.0"; entry "b" "v2.0.0"]).2 = [str "b"].
Proof.
  assert (Hmem : forall extensionId,
    extensionId ∈ (unpublishedExtensionIds index toml).2 <->
    exists info,
      (extensionId, info) ∈ toml
      /\ ~ (exists s, version info = JStr s
                      /\ s ∈ published_versions index extensionId)).
  { intros k. rewrite unpublished_eq, list_elem_of_fmap. split.
    - intros ([k' info] & -> & Hin). apply list_elem_of_filter in Hin as [Hv Hin].
      exists info. split; [done|]. cbn [fst snd] in *.
      intros Hpub%has_inv. congruence.
    - intros (info & Hin & Hnot). exists (k, info). split; [done|].
      apply list_elem_of_filter. split; [|done]. cbn [fst snd].
      apply not_true_iff_false. by intros Hpub%has_inv. }
  split; [apply unpublished_eq|]. split; [done|]. split; [|split].
  - intros k info versions s Hin Hk Hv Hs. apply Hmem. exists info.
    split; [done|]. intros (s' & Hv' & Hs'). unfold published_versions in Hs'.
    rewrite Hk in Hs'. cbn in Hs'. congruence.
  - intros k info Hin Hk. apply Hmem. exists info.
    split; [done|]. intros (s' & Hv' & Hs'). unfold published_versions in Hs'.
    rewrite Hk in Hs'. cbn in Hs'. by apply not_elem_of_empty in Hs'.
  - by vm_compute.
Qed.

Lemma unpublishedExtensionIds_selects_witness :
  str "a" ∈ (unpublishedExtensionIds
               {[ str "a" := {[ str "v1.0.0" ]} ]}
               [entry "a" "v1.1.0"; entry "b" "v2.0.0"]).2
  /\ str "b" ∈ (unpublishedExtensionIds
                  {[ str "a" := {[ str "v1.0.0" ]} ]}
                  [entry "a" "v1.1.0"; entry "b" "v2.0.0"]).2.
Proof.
  destruct (unpublishedExtensionIds_selects
              {[ str "a" := {[ str "v1.0.0" ]} ]}
              [entry "a" "v1.1.0"; entry "b" "v2.0.0"])
    as (_ & _ & Hnew & Habsent & _).
  split.
  - apply (Hnew (str "a") (entry "a" "v1.1.0").2 {[ str "v1.0.0" ]} (str "v1.1.0")).
    + apply list_elem_of_here.
    + vm_compute. reflexivity.
    + reflexivity.
    + apply (bool_decide_unpack _). vm_compute. reflexivity.
  - apply (Habsent (str "b") (entry "b" "v2.0.0").2).
    + apply list_elem_of_further, list_elem_of_here.
    + vm_compute. reflexivity.
Defined.

(** C3, as the code has it: changedExtensionIds returns, in registry order,
    exactly the ids whose current version is not strictly equal to the
    version of that id in the reference snapshot, which is [undefined] for
    an id the reference lacks.  So, when every current entry has a string
    for its version, it returns exactly the ids whose version in the
    reference is another one and the ids the reference lacks.  Every id it
    returns is an id of the current registry, so one only the reference has
    is never selected; and current [{a: v1.1.0, b: v2.0.0}] against
    reference [{a: v1.0.0, b: v2.0.0}] gives exactly [[a]]. *)
Theorem changedExtensionIds_selects (main toml : ExtensionsToml) :
  (changedExtensionIds main toml).2
  = (filter (λ e, strict_equals (version_in main e.1) (version e.2) = false)
       toml).*1
  /\ (Forall (λ e, string_version e.2) toml ->
      forall extensionId,
        extensionId ∈ (changedExtensionIds main toml).2 <->
        exists info,
          (extensionId, info) ∈ toml
          /\ (lookup_extension extensionId main = None
              \/ exists old, lookup_extension extensionId main = Some old
                             /\ version old <> version info))
  /\ (forall extensionId,
        extensionId ∉ toml.*1 ->
        extensionId ∉ (changedExtensionIds main toml).2)
  /\ (changedExtensionIds
        [entry "a" "v1.0.0"; entry "b" "v2.0.0"]
        [entry "a" "v1.1.0"; entry "b" "v2.0.0"]).2 = [str "a"].
Proof.
  split; [apply changed_eq|]. split; [|split].
  - intros Hstrings k. rewrite changed_eq, list_elem_of_fmap. split.
    + intros ([k' info] & -> & Hin). apply list_elem_of_filter in Hin as [Hv Hin].
      exists info. split; [done|]. unfold version_in in Hv. cbn [fst snd] in *.
      destruct (lookup_extension k' main) as [old|]; [right|by left].
      exists old. split; [done|]. cbn [version_of] in Hv.
      rewrite Forall_forall in Hstrings.
      destruct (Hstrings _ Hin) as [s Hs]. cbn [snd] in Hs. rewrite Hs in *.
      intros Heq. apply strict_equals_string in Heq. congruence.
    + intros (info & Hin & Hcase). exists (k, info). split; [done|].
      apply list_elem_of_filter. split; [|done]. unfold version_in. cbn [fst snd].
      rewrite Forall_forall in Hstrings.
      destruct (Hstrings _ Hin) as [s Hs]. cbn [snd] in Hs. rewrite Hs in *.
      apply not_true_iff_false. intros Heq%strict_equals_string.
      destruct Hcase as [Hnone|(old & Hsome & Hne)].
      * by rewrite Hnone in Heq.
      * rewrite Hsome in Heq. cbn [version_of] in Heq. congruence.
  - intros k Hk. rewrite changed_eq. intros Hsel'. apply Hk.
    apply list_elem_of_fmap in Hsel' as ([k' info] & -> & Hin).
    apply list_elem_of_filter in Hin as [_ Hin].
    apply (list_elem_of_fmap_2 fst _ (k', info)). done.
  - by vm_compute.
Qed.

Lemma changedExtensionIds_selects_witness :
  str "a" ∈ (changedExtensionIds
               [entry "a" "v1.0.0"; entry "gone" "v0.1.0"]
               [entry "a" "v1.1.0"; entry "new" "v0.0.1"]).2
  /\ str "new" ∈ (changedExtensionIds
                    [entry "a" "v1.0.0"; entry "gone" "v0.1.0"]
                    [entry "a" "v1.1.0"; entry "new" "v0.0.1"]).2
  /\ str "gone" ∉ (changedExtensionIds
                     [entry "a" "v1.0.0"; entry "gone" "v0.1.0"]
                     [entry "a" "v1.1.0"; entry "new" "v0.0.1"]).2.
Proof.
  destruct (changedExtensionIds_selects
              [entry "a" "v1.0.0"; entry "gone" "v0.1.0"]
              [entry "a" "v1.1.0"; entry "new" "v0.0.1"])
    as (_ & Hmem & Hremoved & _).
  assert (Hstrings : Forall (λ e, string_version e.2)
                       [entry "a" "v1.1.0"; entry "new" "v0.0.1"]).
  { repeat constructor; eexists; reflexivity. }
  split; [|split].
  - apply (Hmem Hstrings). exists (entry "a" "v1.1.0").2. split.
    + apply list_elem_of_here.
    + right. exists (entry "a" "v1.0.0").2. split.
      * vm_compute. reflexivity.
      * vm_compute. discriminate.
  - apply (Hmem Hstrings). exists (entry "new" "v0.0.1").2. split.
    + apply list_elem_of_further, list_elem_of_here.
    + left. vm_compute. reflexivity.
  - apply Hremoved. apply (bool_decide_unpack _). vm_compute. reflexivity.
Defined.

(** C3 as stated fails: an id that exists only in the current snapshot is
    not selected when its entry has no version, [undefined] being strictly
    equal to the [undefined] read off the missing reference entry.  Such is
    the entry every registry that validateExtensionsToml accepts has under
    the key [extensions]. *)
Lemma changedExtensionIds_selects_counterexample :
  (changedExtensionIds [] [versionless "fresh"]).2 = []
  /\ lookup_extension (str "fresh") [] = None
  /\ (let registry :=
        JObj [(str "extensions",
               JObj [(str "a", JObj [(str "version", JStr (str "1.0.0"));
                                     (str "source", JStr (str "s"))])])] in
      Validation.validateExtensionsToml registry = Return tt
      /\ (entries_of registry).*1 = [str "extensions"]
      /\ (changedExtensionIds [] (entries_of registry)).2 = []).
Proof. repeat split; by vm_compute. Qed.

End SelectionFacts.

(** ** validateManifest *)

Section ManifestFacts.
Import Js Regex Validation Predicates.

Lemma in_run_plus_digit b s x :
  In x (run (RPlus digit) b s) <->
  exists w, digits w /\ s = w ++ rest x /\ consumed x = w /\ groups x = [].
Proof.
  unfold digit, digits. rewrite in_run_plus_set. split.
  - intros (w & ? & ? & ? & ? & ?). by exists w.
  - intros (w & [? ?] & ? & ? & ?). by exists w.
Qed.

(** The strings [versionRegex] accepts. *)
Lemma test_versionRegex s : test versionRegex s = true <-> is_version s.
Proof.
  change versionRegex with
    (RSeq RBegin
       (RSeq (RPlus digit) (RSeq (RChr ".") (RSeq (RPlus digit)
          (RSeq (RChr ".") (RSeq (RPlus digit)
             (RSeq (ROpt (RGroup (RSeq (RChr "-") (RPlus (RSet prerelease_char)))))
                   REnd))))))).
  rewrite test_anchored. split.
  - intros (x & Hx).
    apply in_run_seq in Hx as (a1 & y1 & Ha1 & Hy1 & _).
    apply in_run_plus_digit in Ha1 as (major & Hmajor & Hs1 & _).
    apply in_run_seq in Hy1 as (a2 & y2 & Ha2 & Hy2 & _).
    apply in_run_chr in Ha2 as (s2 & Hs2 & ->). cbn [rest consumed] in Hy2.
    apply in_run_seq in Hy2 as (a3 & y3 & Ha3 & Hy3 & _).
    apply in_run_plus_digit in Ha3 as (minor & Hminor & Hs3 & _).
    apply in_run_seq in Hy3 as (a4 & y4 & Ha4 & Hy4 & _).
    apply in_run_chr in Ha4 as (s4 & Hs4 & ->). cbn [rest consumed] in Hy4.
    apply in_run_seq in Hy4 as (a5 & y5 & Ha5 & Hy5 & _).
    apply in_run_plus_digit in Ha5 as (patch & Hpatch & Hs5 & _).
    apply in_run_seq in Hy5 as (a6 & y6 & Ha6 & Hy6 & _).
    apply in_run_end in Hy6 as [Hend _].
    apply in_run_opt in Ha6 as [Ha6| ->].
    + apply in_run_group in Ha6 as (g & Hg & ->). cbn [rest] in Hend.
      apply in_run_seq in Hg as (a7 & y7 & Ha7 & Hy7 & ->). cbn [rest] in Hend.
      apply in_run_chr in Ha7 as (s7 & Hs7 & ->). cbn [rest consumed] in Hy7.
      apply in_run_plus_set in Hy7 as (pre & Hne & Hpre & Hs8 & _).
      rewrite Hend, app_nil_r in Hs8. subst s7.
      exists major, minor, patch, (str "-" ++ pre). split.
      { rewrite Hs1, Hs2, Hs3, Hs4, Hs5, Hs7. done. }
      repeat (split; [done|]). right. by exists pre.
    + cbn [rest] in Hend.
      exists major, minor, patch, []. split.
      { rewrite Hs1, Hs2, Hs3, Hs4, Hs5, Hend. done. }
      repeat (split; [done|]). by left.
  - intros (major & minor & patch & tail & -> & Hmajor & Hminor & Hpatch & Htail).
    apply (run_seq_ex _ _ _ _
             (Candidate major (str "." ++ minor ++ str "." ++ patch ++ tail) []));
      [apply in_run_plus_digit; by exists major|]. cbn [rest consumed].
    apply (run_seq_ex _ _ _ _
             (Candidate (str ".") (minor ++ str "." ++ patch ++ tail) []));
      [apply in_run_chr; by eexists|]. cbn [rest consumed].
    apply (run_seq_ex _ _ _ _ (Candidate minor (str "." ++ patch ++ tail) []));
      [apply in_run_plus_digit; by exists minor|]. cbn [rest consumed].
    apply (run_seq_ex _ _ _ _ (Candidate (str ".") (patch ++ tail) []));
      [apply in_run_chr; by eexists|]. cbn [rest consumed].
    apply (run_seq_ex _ _ _ _ (Candidate patch tail []));
      [apply in_run_plus_digit; by exists patch|]. cbn [rest consumed].
    destruct Htail as [->|(pre & -> & Hne & Hpre)].
    + apply (run_seq_ex _ _ _ _ (Candidate [] [] (unset 1)));
        [apply in_run_opt; by right|].
      eexists. by apply in_run_end.
    + apply (run_seq_ex _ _ _ _
               (Candidate (str "-" ++ pre) [] [Some (str "-" ++ pre)]));
        [|eexists; by apply in_run_end].
      apply in_run_opt. left. apply in_run_group.
      exists (Candidate (str "-" ++ pre) [] []). split; [|done].
      apply in_run_seq.
      exists (Candidate (str "-") pre []), (Candidate pre [] []).
      split; [apply in_run_chr; by eexists|]. split; [|done].
      apply in_run_plus_set. exists pre. by rewrite app_nil_r.
Qed.

Lemma test_versionRegex_nil : test versionRegex [] = false.
Proof. by vm_compute. Qed.

Lemma in_push_if x cond message errors :
  In x (push_if cond message errors) <->
  In x errors \/ (cond = true /\ x = message).
Proof.
  unfold push_if. destruct cond.
  - rewrite in_app_iff. cbn. intuition congruence.
  - intuition congruence.
Qed.


(** The conversion to a string throws nothing but the [TypeError] of an
    object that cannot be converted. *)
Lemma to_string_throws : forall v e,
  to_string v = Throw e -> e = TO_PRIMITIVE_ERROR.
Proof.
  fix IH 1. intros [| |b|r|s|items|props] e; cbn [to_string]; try discriminate.
  - destruct b; discriminate.
  - match goal with
    | |- bind (?each items) _ = _ -> _ =>
        assert (Heach : forall e0, each items = Throw e0 -> e0 = TO_PRIMITIVE_ERROR)
    end.
    { clear e. revert items. fix IHitems 1. intros [|x items] e0; [discriminate|].
      destruct (match x with JUndefined | JNull => Return [] | _ => to_string x end)
        as [piece|e1] eqn:Hx; cbn [bind].
      - match goal with
        | |- bind ?m _ = _ -> _ => destruct m as [pieces|e2] eqn:Hrest
        end; cbn [bind]; [discriminate|].
        intros [= <-]. by apply (IHitems items).
      - intros [= <-].
        assert (Hthrow : to_string x = Throw e1) by (by destruct x).
        exact (IH x e1 Hthrow). }
    match goal with
    | |- bind ?m _ = _ -> _ => destruct m as [pieces|e0] eqn:Hm
    end; cbn [bind]; [discriminate|].
    intros [= <-]. by apply Heach.
  - destruct (assoc (str "toString") props); [by intros [= <-] | discriminate].
Qed.

Lemma push_unless_matching_renders pattern v message errs :
  renders v ->
  push_unless_matching pattern v message errs
  = Return (push_if (truthy v && negb (test pattern (rendered v))) message errs).
Proof.
  unfold push_unless_matching, renders, rendered.
  intros [Hfalsy|[s Hs]].
  - by rewrite Hfalsy.
  - rewrite Hs. cbn [bind]. by destruct (truthy v).
Qed.

Lemma push_unless_matching_throws pattern v message errs e :
  truthy v = true -> to_string v = Throw e ->
  push_unless_matching pattern v message errs = Throw e.
Proof. unfold push_unless_matching. by intros -> ->. Qed.

(** On an object whose name and version convert, validateManifest returns
    the errors of the checks that fire, in the order of the checks. *)
Lemma validateManifest_returns manifest :
  missing_or_not TObject manifest = false ->
  renders (get manifest (str "name")) ->
  renders (get manifest (str "version")) ->
  validateManifest manifest
  = Return {| isValid := Nat.eqb (length (manifest_errors manifest)) 0;
              errors := manifest_errors manifest |}.
Proof.
  intros Hobj Hname Hversion. unfold validateManifest. rewrite Hobj.
  rewrite (push_unless_matching_renders _ _ _ _ Hname). cbn [bind].
  rewrite (push_unless_matching_renders _ _ _ _ Hversion). cbn [bind].
  reflexivity.
Qed.

(** It throws when the name, or else the version, is truthy and fails to
    convert. *)
Lemma validateManifest_throws manifest e :
  missing_or_not TObject manifest = false ->
  (truthy (get manifest (str "name")) = true
   /\ to_string (get manifest (str "name")) = Throw e)
  \/ (renders (get manifest (str "name"))
      /\ truthy (get manifest (str "version")) = true
      /\ to_string (get manifest (str "version")) = Throw e) ->
  validateManifest manifest = Throw e.
Proof.
  intros Hobj [[Htruthy Hthrow]|(Hname & Htruthy & Hthrow)];
    unfold validateManifest; rewrite Hobj.
  - by rewrite (push_unless_matching_throws _ _ _ _ e Htruthy Hthrow).
  - rewrite (push_unless_matching_renders _ _ _ _ Hname). cbn [bind].
    by rewrite (push_unless_matching_throws _ _ _ _ e Htruthy Hthrow).
Qed.

Lemma renders_cases v :
  renders v \/ (truthy v = true /\ exists e, to_string v = Throw e).
Proof.
  unfold renders. destruct (truthy v); [|by left; left].
  destruct (to_string v) as [s|e]; [left; right; by exists s | right; eauto].
Qed.

(** What a returned result is. *)
Lemma validateManifest_inv manifest r :
  validateManifest manifest = Return r ->
  (missing_or_not TObject manifest = true
   /\ r = {| isValid := false; errors := [str "Manifest must be an object"] |})
  \/ (missing_or_not TObject manifest = false
      /\ renders (get manifest (str "name"))
      /\ renders (get manifest (str "version"))
      /\ r = {| isValid := Nat.eqb (length (manifest_errors manifest)) 0;
                errors := manifest_errors manifest |}).
Proof.
  intros Hr. destruct (missing_or_not TObject manifest) eqn:Hobj.
  - left. split; [done|]. unfold validateManifest in Hr. rewrite Hobj in Hr.
    by injection Hr as <-.
  - right. split; [done|].
    destruct (renders_cases (get manifest (str "name")))
      as [Hname|(Htruthy & e & Hthrow)].
    2:{ rewrite (validateManifest_throws manifest e Hobj) in Hr; [done|].
        by left. }
    destruct (renders_cases (get manifest (str "version")))
      as [Hversion|(Htruthy & e & Hthrow)].
    2:{ rewrite (validateManifest_throws manifest e Hobj) in Hr; [done|].
        by right. }
    split; [done|]. split; [done|].
    rewrite (validateManifest_returns manifest Hobj Hname Hversion) in Hr.
    by injection Hr as <-.
Qed.

(** On an object validateManifest returns a result, unless the conversion
    of the name or of the version throws. *)
Lemma validateManifest_object manifest :
  missing_or_not TObject manifest = false ->
  (renders (get manifest (str "name")) /\ renders (get manifest (str "version"))
   /\ validateManifest manifest
      = Return {| isValid := Nat.eqb (length (manifest_errors manifest)) 0;
                  errors := manifest_errors manifest |})
  \/ ((~ renders (get manifest (str "name"))
       \/ ~ renders (get manifest (str "version")))
      /\ validateManifest manifest = Throw TO_PRIMITIVE_ERROR).
Proof.
  intros Hobj.
  assert (Hnot : forall v e, truthy v = true -> to_string v = Throw e -> ~ renders v).
  { intros v e Ht He [Hf|[s Hs]]; congruence. }
  destruct (renders_cases (get manifest (str "name")))
    as [Hname|(Htruthy & e & Hthrow)].
  2:{ right. split; [left; by eapply Hnot|].
      rewrite (validateManifest_throws manifest e Hobj) by (by left).
      by rewrite (to_string_throws _ _ Hthrow). }
  destruct (renders_cases (get manifest (str "version")))
    as [Hversion|(Htruthy & e & Hthrow)].
  2:{ right. split; [right; by eapply Hnot|].
      rewrite (validateManifest_throws manifest e Hobj) by (by right).
      by rewrite (to_string_throws _ _ Hthrow). }
  left. split; [done|]. split; [done|]. by apply validateManifest_returns.
Qed.

Lemma validateManifest_isValid manifest r :
  validateManifest manifest = Return r ->
  isValid r = true <-> errors r = [].
Proof.
  intros Hr. apply validateManifest_inv in Hr as [[_ ->]|(_ & _ & _ & ->)];
    cbn [isValid errors].
  - split; discriminate.
  - rewrite Nat.eqb_eq. apply length_zero_iff_nil.
Qed.

Lemma type_tag_eqb_eq a b : type_tag_eqb a b = true <-> a = b.
Proof. destruct a, b; cbn; split; congruence. Qed.

(** Membership of one of the fixed messages in the error list: the
    messages are pairwise distinct, so only its own check can have put it
    there. *)
Ltac pick_message :=
  unfold Predicates.manifest_errors;
  rewrite !in_push_if; cbn [In];
  repeat match goal with
    | |- context [?a = ?b :> jsstring] =>
        lazymatch a with
        | b => fail
        | _ => let H := fresh in
               assert (H : (a = b) <-> False)
                 by (split; [by vm_compute | done]);
               rewrite H; clear H
        end
    end.

Lemma wrongly_typed_iff v :
  wrongly_typed v <->
  truthy v && negb (type_tag_eqb (typeof v) TString) = true.
Proof.
  unfold wrongly_typed.
  rewrite andb_true_iff, negb_true_iff, <- not_true_iff_false, type_tag_eqb_eq.
  tauto.
Qed.

Lemma not_string_array_iff v :
  not_string_array v <-> truthy v && negb (is_string_array v) = true.
Proof.
  unfold not_string_array. rewrite andb_true_iff, negb_true_iff. tauto.
Qed.

Lemma in_version_message manifest :
  In version_message (manifest_errors manifest) <->
  truthy (get manifest (str "version"))
  && negb (test versionRegex (rendered (get manifest (str "version")))) = true.
Proof. pick_message. tauto. Qed.

Lemma in_required_message manifest field :
  In field requiredFields ->
  In (required_message field) (manifest_errors manifest) <->
  missing_or_not TString (get manifest field) = true.
Proof.
  intros [<-|[<-|[<-|[]]]]; pick_message; tauto.
Qed.

Lemma in_license_message manifest :
  In (str "License must be a string") (manifest_errors manifest) <->
  wrongly_typed (get manifest (str "license")).
Proof. pick_message. rewrite wrongly_typed_iff. tauto. Qed.

Lemma in_repository_message manifest :
  In (str "Repository must be a string") (manifest_errors manifest) <->
  wrongly_typed (get manifest (str "repository")).
Proof. pick_message. rewrite wrongly_typed_iff. tauto. Qed.

Lemma in_keywords_message manifest :
  In (str "Keywords must be an array of strings") (manifest_errors manifest) <->
  not_string_array (get manifest (str "keywords")).
Proof. pick_message. rewrite not_string_array_iff. tauto. Qed.

Lemma renders_string s : renders (JStr s).
Proof. right. by exists s. Qed.

Lemma accepts_version_iff manifest s :
  get manifest (str "version") = JStr s ->
  accepts_version {| isValid := Nat.eqb (length (manifest_errors manifest)) 0;
                     errors := manifest_errors manifest |}
  <-> test versionRegex s = true.
Proof.
  intros Hget. unfold accepts_version. cbn [errors].
  change (str "Missing or invalid required field: version")
    with (required_message (str "version")).
  change (str "Version must follow semantic versioning format (e.g., 1.0.0 or 1.0.0-beta.1)")
    with version_message.
  rewrite in_version_message.
  rewrite (in_required_message manifest (str "version")) by (cbn; tauto).
  rewrite Hget. unfold rendered. cbn [to_string truthy].
  unfold missing_or_not. cbn [truthy typeof type_tag_eqb]. unfold string_eqb.
  case_bool_decide as Hs; cbn.
  - subst s. rewrite test_versionRegex_nil. split; [by intros [? _] | done].
  - destruct (test versionRegex s); cbn; split; try done.
    by intros [_ ?].
Qed.

(** C8: on an object-shaped manifest whose [version] is a string, and
    whose name converts to a string where the name check converts it,
    validateManifest returns a result, and the result holds no complaint
    about the version exactly when the string matches [versionRegex], that
    is when it reads digits.digits.digits with an optional hyphenated
    suffix of letters, digits, dots and hyphens.  (When the conversion of
    the name throws, so does validateManifest, before it looks at the
    version.)  And [{name: "x", version: "1.0", description: "d"}] yields,
    without a throw, an invalid result whose one error is the version-format
    message. *)
Theorem validateManifest_version_format :
  (forall manifest s,
     missing_or_not TObject manifest = false ->
     get manifest (str "version") = JStr s ->
     renders (get manifest (str "name")) ->
     exists r,
       validateManifest manifest = Return r
       /\ (accepts_version r <-> test versionRegex s = true)
       /\ (accepts_version r <-> is_version s))
  /\ (forall manifest e,
        missing_or_not TObject manifest = false ->
        truthy (get manifest (str "name")) = true ->
        to_string (get manifest (str "name")) = Throw e ->
        validateManifest manifest = Throw e)
  /\ validateManifest
       (manifest_of [("name", JStr (str "x")); ("version", JStr (str "1.0"));
                     ("description", JStr (str "d"))])
     = Return
         {| isValid := false;
            errors := [str "Version must follow semantic versioning format (e.g., 1.0.0 or 1.0.0-beta.1)"] |}.
Proof.
  split; [|split].
  - intros manifest s Hobj Hget Hname. eexists. split.
    + apply validateManifest_returns; [done | done |].
      rewrite Hget. apply renders_string.
    + split.
      * by apply accepts_version_iff.
      * rewrite <- test_versionRegex. by apply accepts_version_iff.
  - intros manifest e Hobj Htruthy Hthrow.
    apply validateManifest_throws; [done | by left].
  - by vm_compute.
Qed.

Lemma validateManifest_version_format_witness :
  exists r,
    validateManifest
      (manifest_of [("name", JStr (str "x")); ("version", JStr (str "1.0.0-beta.1"));
                    ("description", JStr (str "d"))])
    = Return r
    /\ accepts_version r.
Proof.
  destruct (proj1 validateManifest_version_format
              (manifest_of [("name", JStr (str "x"));
                            ("version", JStr (str "1.0.0-beta.1"));
                            ("description", JStr (str "d"))])
              (str "1.0.0-beta.1") eq_refl eq_refl (renders_string (str "x")))
    as (r & Hr & Hiff & _).
  exists r. split; [exact Hr|]. apply Hiff. vm_compute. reflexivity.
Defined.

(** C9, as the code has it: on an object-shaped manifest whose name and
    version convert to a string where their checks convert them,
    validateManifest returns a result whose errors hold the message of every
    required field that is missing or not a string, the license and the
    repository message exactly when that field is there (truthy) and not a
    string, and the keywords message exactly when that field is there and
    not an array of strings; each check reports whatever the others found,
    and the result is valid exactly when no error was collected. *)
Theorem validateManifest_collects_all (manifest : value) :
  missing_or_not TObject manifest = false ->
  renders (get manifest (str "name")) ->
  renders (get manifest (str "version")) ->
  exists r,
    validateManifest manifest = Return r
    /\ (forall field, In field requiredFields ->
          (In (str "Missing or invalid required field: " ++ field) (errors r) <->
           missing_or_not TString (get manifest field) = true))
    /\ (In (str "License must be a string") (errors r) <->
        wrongly_typed (get manifest (str "license")))
    /\ (In (str "Repository must be a string") (errors r) <->
        wrongly_typed (get manifest (str "repository")))
    /\ (In (str "Keywords must be an array of strings") (errors r) <->
        not_string_array (get manifest (str "keywords")))
    /\ (isValid r = true <-> errors r = []).
Proof.
  intros Hobj Hname Hversion.
  pose proof (validateManifest_returns manifest Hobj Hname Hversion) as Hr.
  eexists. split; [exact Hr|]. cbn [errors isValid].
  split; [|split; [|split; [|split]]].
  - intros field Hfield. by apply in_required_message.
  - by apply in_license_message.
  - by apply in_repository_message.
  - by apply in_keywords_message.
  - apply (validateManifest_isValid manifest _ Hr).
Qed.

Lemma validateManifest_collects_all_witness :
  exists r,
    validateManifest
      (manifest_of [("name", JStr (str "x")); ("license", JNum (str "5"));
                    ("repository", JArr []);
                    ("keywords", JArr [JStr (str "a"); JNum (str "1")])])
    = Return r
    /\ In (str "Missing or invalid required field: version") (errors r)
    /\ In (str "Missing or invalid required field: description") (errors r)
    /\ In (str "License must be a string") (errors r)
    /\ In (str "Repository must be a string") (errors r)
    /\ In (str "Keywords must be an array of strings") (errors r).
Proof.
  destruct (validateManifest_collects_all
              (manifest_of [("name", JStr (str "x")); ("license", JNum (str "5"));
                            ("repository", JArr []);
                            ("keywords", JArr [JStr (str "a"); JNum (str "1")])])
              eq_refl (renders_string (str "x")) (or_introl eq_refl))
    as (r & Hr & Hreq & Hlic & Hrepo & Hkw & _).
  exists r. split; [exact Hr|].
  split; [|split; [|split; [|split]]].
  - apply (Hreq (str "version")); [cbn; tauto | vm_compute; reflexivity].
  - apply (Hreq (str "description")); [cbn; tauto | vm_compute; reflexivity].
  - apply Hlic. split; [vm_compute; reflexivity | vm_compute; discriminate].
  - apply Hrepo. split; [vm_compute; reflexivity | vm_compute; discriminate].
  - apply Hkw. split; vm_compute; reflexivity.
Defined.

(** C9 as stated fails: a license of [0] or [false] is wrongly typed and
    goes unreported, and so does an [authors] field of any type, the check
    being made on a field named [author]. *)
Lemma validateManifest_collects_all_counterexample :
  validateManifest
    (manifest_of [("name", JStr (str "x")); ("version", JStr (str "1.0.0"));
                  ("description", JStr (str "d")); ("license", JNum (str "0"));
                  ("repository", JBool false); ("keywords", JNum (str "0"))])
  = Return {| isValid := true; errors := [] |}
  /\ validateManifest
       (manifest_of [("name", JStr (str "x")); ("version", JStr (str "1.0.0"));
                     ("description", JStr (str "d")); ("authors", JNum (str "5"))])
     = Return {| isValid := true; errors := [] |}.
Proof. split; by vm_compute. Qed.

End ManifestFacts.

(** ** Trimming and splitting *)

Section TrimFacts.
Import Js Predicates.

Lemma trim_start_blanks w s : blanks w -> trim_start (w ++ s) = trim_start s.
Proof.
  unfold blanks. induction w as [|c w IH]; [done|]. cbn.
  intros H. apply andb_true_iff in H as [-> H]. by apply IH.
Qed.

Lemma trim_start_head c s : is_space c = false -> trim_start (c :: s) = c :: s.
Proof. intros H. cbn. by rewrite H. Qed.

Lemma trim_start_cases s :
  trim_start s = []
  \/ exists c t, trim_start s = c :: t /\ is_space c = false.
Proof.
  induction s as [|c s IH]; [by left|]. cbn.
  destruct (is_space c) eqn:Hc; [done|]. right. by exists c, s.
Qed.

Lemma trim_end_app a s : trim_end s <> [] -> trim_end (a ++ s) = a ++ trim_end s.
Proof.
  intros Hne. induction a as [|c a IH]; [done|]. cbn. rewrite IH.
  destruct (a ++ trim_end s) eqn:E; [|done].
  apply app_eq_nil in E as [_ E]. done.
Qed.

Lemma trim_end_idem s : trim_end (trim_end s) = trim_end s.
Proof.
  induction s as [|c s IH]; [done|]. cbn.
  destruct (trim_end s) as [|d t] eqn:E.
  - destruct (is_space c) eqn:Hc; [done|]. cbn. by rewrite Hc.
  - cbn [trim_end]. cbn [trim_end] in IH. by rewrite IH.
Qed.

Lemma trim_end_head c s :
  is_space c = false -> exists t, trim_end (c :: s) = c :: t.
Proof.
  intros Hc. cbn. destruct (trim_end s); [rewrite Hc|]; by eexists.
Qed.

Lemma trim_idem s : trim (trim s) = trim s.
Proof.
  unfold trim. destruct (trim_start_cases s) as [->|(c & t & -> & Hc)]; [done|].
  destruct (trim_end_head c t Hc) as [t' E]. rewrite E.
  rewrite trim_start_head by done. rewrite <- E. apply trim_end_idem.
Qed.

Lemma trim_blanks_app w s : blanks w -> trim (w ++ s) = trim s.
Proof. intros Hw. unfold trim. by rewrite trim_start_blanks. Qed.

Lemma trim_start_nil s : trim_start s = [] -> blanks s.
Proof.
  unfold blanks. induction s as [|c s IH]; [done|]. cbn.
  destruct (is_space c); [exact IH | done].
Qed.

Lemma trim_end_blanks w : blanks w -> trim_end w = [].
Proof.
  unfold blanks. induction w as [|c w IH]; [done|]. cbn.
  intros H. apply andb_true_iff in H as [Hc H]. by rewrite IH, Hc.
Qed.

Lemma trim_end_blanks_app a w : blanks w -> trim_end (a ++ w) = trim_end a.
Proof.
  intros Hw. induction a as [|c a IH]; [by apply trim_end_blanks|].
  cbn. by rewrite IH.
Qed.

Lemma trim_nil s : trim s = [] -> blanks s.
Proof.
  unfold trim. destruct (trim_start_cases s) as [H|(c & t & H & Hc)].
  - intros _. by apply trim_start_nil.
  - rewrite H. destruct (trim_end_head c t Hc) as [t' ->]. done.
Qed.

Lemma forallb_trim_start p s :
  forallb p s = true -> forallb p (trim_start s) = true.
Proof.
  induction s as [|c s IH]; [done|]. cbn. intros H.
  apply andb_true_iff in H as [Hc H]. destruct (is_space c); [by apply IH|].
  cbn. by rewrite Hc, H.
Qed.

Lemma forallb_trim_end p s :
  forallb p s = true -> forallb p (trim_end s) = true.
Proof.
  induction s as [|c s IH]; [done|]. cbn. intros H.
  apply andb_true_iff in H as [Hc H]. specialize (IH H).
  destruct (trim_end s) as [|d t].
  - destruct (is_space c); [done|]. cbn. by rewrite Hc.
  - cbn [forallb]. cbn [forallb] in IH. by rewrite Hc, IH.
Qed.

Lemma one_line_trim s : one_line s -> one_line (trim s).
Proof. intros H. by apply forallb_trim_end, forallb_trim_start. Qed.

Lemma clean_trim s : one_line s -> clean (trim s).
Proof. intros H. split; [by apply one_line_trim | apply trim_idem]. Qed.

Lemma length_trim_start s : length (trim_start s) <= length s.
Proof.
  induction s as [|c s IH]; [done|]. cbn. destruct (is_space c); cbn; lia.
Qed.

Lemma length_trim_end s : length (trim_end s) <= length s.
Proof.
  induction s as [|c s IH]; [done|]. cbn.
  destruct (trim_end s); [destruct (is_space c)|]; cbn in *; lia.
Qed.

(** A string that trimming leaves alone is left alone by either side of
    the trimming. *)
Lemma trimmed_sides s :
  trim s = s -> trim_start s = s /\ trim_end s = s.
Proof.
  unfold trim. intros H.
  assert (Hlen : length (trim_start s) = length s).
  { pose proof (length_trim_end (trim_start s)) as H1.
    pose proof (length_trim_start s) as H2. rewrite H in H1. lia. }
  assert (Hstart : trim_start s = s).
  { destruct s as [|c s]; [done|]. cbn in *. destruct (is_space c); [|done].
    pose proof (length_trim_start s). lia. }
  split; [done|]. by rewrite Hstart in H.
Qed.

Lemma trimmed_head s :
  trim s = s -> s <> [] -> exists c t, s = c :: t /\ is_space c = false.
Proof.
  intros H Hne. apply trimmed_sides in H as [Hs _].
  destruct s as [|c t]; [done|]. exists c, t. split; [done|].
  cbn in Hs. destruct (is_space c); [|done].
  pose proof (length_trim_start t) as Hl. rewrite Hs in Hl. cbn in Hl. lia.
Qed.

(** The tail of a trimmed line, unless empty, holds more than blanks. *)
Lemma trim_suffix_nonempty a cap :
  trim (a ++ cap) = a ++ cap -> cap <> [] -> trim cap <> [].
Proof.
  intros Hline Hne Hnil. apply trim_nil in Hnil.
  apply trimmed_sides in Hline as [_ Hend].
  rewrite trim_end_blanks_app in Hend by done.
  pose proof (length_trim_end a) as Hlen. rewrite Hend, length_app in Hlen.
  destruct cap; [done|]. cbn in Hlen. lia.
Qed.

(** Trimming an indented line that ends in a trimmed value strips the
    indentation only. *)
Lemma trim_indented w body s :
  blanks w -> trim s = s -> s <> [] ->
  (exists c t, body ++ s = c :: t /\ is_space c = false) ->
  trim (w ++ body ++ s) = body ++ s.
Proof.
  intros Hw Hs Hne (c & t & E & Hc). rewrite trim_blanks_app by done.
  unfold trim. rewrite E, trim_start_head by done. rewrite <- E.
  apply trimmed_sides in Hs as [_ Hend].
  rewrite trim_end_app; rewrite Hend; done.
Qed.

(** [split("\n")] on a line followed by a line feed. *)
Lemma split_lines_nonempty s : split_lines s <> [].
Proof.
  induction s as [|c s IH]; [done|]. cbn.
  destruct (char_eqb c LF); [done|]. by destruct (split_lines s).
Qed.

Lemma one_line_not_LF c : negb (is_line_terminator c) = true -> char_eqb c LF = false.
Proof.
  destruct c as [[] [] [] [] [] [] [] []]; vm_compute; intros H;
    first [reflexivity | discriminate H].
Qed.

Lemma split_lines_line l tail :
  one_line l -> split_lines (l ++ LF :: tail) = l :: split_lines tail.
Proof.
  unfold one_line. induction l as [|c l IH]; [done|]. cbn [app forallb split_lines].
  intros H. apply andb_true_iff in H as [Hc H].
  rewrite (one_line_not_LF c Hc), IH by done. done.
Qed.

Lemma one_line_app a b : one_line a -> one_line b -> one_line (a ++ b).
Proof. unfold one_line. intros Ha Hb. by rewrite forallb_app, Ha, Hb. Qed.

End TrimFacts.

(** ** validateGitmodules *)

Section GitmodulesPatterns.
Import Js Regex Validation Predicates.

Lemma in_run_plus_dot b s x :
  In x (run (RPlus dot) b s) <->
  exists w, w <> [] /\ one_line w /\ s = w ++ rest x
            /\ consumed x = w /\ groups x = [].
Proof. unfold dot, one_line. apply in_run_plus_set. Qed.

Lemma in_run_star_ws b s x :
  In x (run (RStar ws) b s) <->
  exists w, blanks w /\ s = w ++ rest x /\ consumed x = w /\ groups x = [].
Proof. unfold ws, blanks. apply in_run_star_set. Qed.

(** The ways [/^\[submodule "(.+)"\]$/] matches a line: the line is the
    header around a non-empty one-line name, which is the group. *)
Lemma in_run_header line x :
  In x (run (RSeq (lit header_prefix)
              (RSeq (RGroup (RPlus dot)) (RSeq (lit header_suffix) REnd)))
            true line) <->
  exists n, n <> [] /\ one_line n
            /\ line = header_prefix ++ n ++ header_suffix
            /\ x = Candidate line [] [Some n].
Proof.
  rewrite in_run_seq. split.
  - intros (a1 & y1 & Ha1 & Hy1 & ->).
    apply in_run_lit in Ha1 as (s1 & Hs1 & ->). cbn [rest consumed groups] in *.
    apply in_run_seq in Hy1 as (a2 & y2 & Ha2 & Hy2 & ->).
    apply in_run_group in Ha2 as (g & Hg & ->). cbn [rest consumed groups] in *.
    apply in_run_plus_dot in Hg as (n & Hne & Hn & Hs2 & Hcn & Hgn).
    apply in_run_seq in Hy2 as (a3 & y3 & Ha3 & Hy3 & ->).
    apply in_run_lit in Ha3 as (s3 & Hs3 & ->). cbn [rest consumed groups] in *.
    apply in_run_end in Hy3 as [-> ->]. cbn [rest consumed groups].
    rewrite Hcn, Hgn. exists n. rewrite app_nil_r in *.
    rewrite Hs3 in Hs2. rewrite Hs2 in Hs1. rewrite Hs1. done.
  - intros (n & Hne & Hn & -> & ->).
    exists (Candidate header_prefix (n ++ header_suffix) []).
    exists (Candidate (n ++ header_suffix) [] [Some n]).
    split; [apply in_run_lit; by eexists|]. split; [|done].
    cbn [rest consumed]. apply in_run_seq.
    exists (Candidate n header_suffix [Some n]), (Candidate header_suffix [] []).
    split; [|split].
    + apply in_run_group. exists (Candidate n header_suffix []). split; [|done].
      apply in_run_plus_dot. by exists n.
    + cbn [rest consumed]. apply in_run_seq.
      exists (Candidate header_suffix [] []), (Candidate [] [] []).
      split; [apply in_run_lit; exists []; by rewrite app_nil_r|].
      split; [by apply in_run_end|]. by rewrite app_nil_r.
    + done.
Qed.

Lemma SUBMODULE_HEADER_eq :
  SUBMODULE_HEADER =
  RSeq RBegin (RSeq (lit header_prefix)
    (RSeq (RGroup (RPlus dot)) (RSeq (lit header_suffix) REnd))).
Proof. reflexivity. Qed.

(** What a match of the header pattern looks like, and when there is one. *)
Lemma exec_header_some line m :
  exec SUBMODULE_HEADER line = Some m ->
  exists n, n <> [] /\ one_line n
            /\ line = header_prefix ++ n ++ header_suffix
            /\ m = Candidate line [] [Some n].
Proof.
  rewrite SUBMODULE_HEADER_eq. intros H.
  apply exec_anchored_in in H. by apply in_run_header.
Qed.

Lemma exec_header_intro n :
  n <> [] -> one_line n ->
  exec SUBMODULE_HEADER (header_prefix ++ n ++ header_suffix)
  = Some (Candidate (header_prefix ++ n ++ header_suffix) [] [Some n]).
Proof.
  intros Hne Hn.
  assert (Hin : In (Candidate (header_prefix ++ n ++ header_suffix) [] [Some n])
                   (run (RSeq (lit header_prefix)
                           (RSeq (RGroup (RPlus dot)) (RSeq (lit header_suffix) REnd)))
                        true (header_prefix ++ n ++ header_suffix))).
  { apply in_run_header. by exists n. }
  rewrite SUBMODULE_HEADER_eq.
  destruct (exec_anchored_some _ _ _ Hin) as [y Hy]. rewrite Hy. f_equal.
  apply exec_anchored_in, in_run_header in Hy as (n' & _ & _ & Heq & ->).
  apply app_inv_head, app_inv_tail in Heq. by subst.
Qed.

(** The ways [/^key\s*=\s*(.+)$/] matches a line. *)
Lemma in_run_property key line x :
  In x (run (RSeq (lit key)
              (RSeq (RStar ws) (RSeq (RChr "=")
                 (RSeq (RStar ws) (RSeq (RGroup (RPlus dot)) REnd)))))
            true line) <->
  exists w1 w2 cap,
    blanks w1 /\ blanks w2 /\ cap <> [] /\ one_line cap
    /\ line = key ++ w1 ++ str "=" ++ w2 ++ cap
    /\ x = Candidate line [] [Some cap].
Proof.
  rewrite in_run_seq. split.
  - intros (a1 & y1 & Ha1 & Hy1 & ->).
    apply in_run_lit in Ha1 as (s1 & Hs1 & ->). cbn [rest consumed groups] in *.
    apply in_run_seq in Hy1 as (a2 & y2 & Ha2 & Hy2 & ->).
    apply in_run_star_ws in Ha2 as (w1 & Hw1 & Hs2 & Hc2 & Hg2).
    apply in_run_seq in Hy2 as (a3 & y3 & Ha3 & Hy3 & ->).
    apply in_run_chr in Ha3 as (s3 & Hs3 & ->). cbn [rest consumed groups] in *.
    apply in_run_seq in Hy3 as (a4 & y4 & Ha4 & Hy4 & ->).
    apply in_run_star_ws in Ha4 as (w2 & Hw2 & Hs4 & Hc4 & Hg4).
    apply in_run_seq in Hy4 as (a5 & y5 & Ha5 & Hy5 & ->).
    apply in_run_group in Ha5 as (g & Hg & ->). cbn [rest consumed groups] in *.
    apply in_run_plus_dot in Hg as (cap & Hne & Hcap & Hs5 & Hc5 & Hg5).
    apply in_run_end in Hy5 as [Hend ->]. cbn [rest consumed groups].
    rewrite Hend, app_nil_r in Hs5.
    exists w1, w2, cap. repeat (split; [done|]).
    rewrite Hc2, Hg2, Hc4, Hg4, Hc5, Hg5, !app_nil_r.
    rewrite Hs5 in Hs4. rewrite Hs4 in Hs3. rewrite Hs3 in Hs2.
    rewrite Hs2 in Hs1. rewrite Hs1. done.
  - intros (w1 & w2 & cap & Hw1 & Hw2 & Hne & Hcap & -> & ->).
    exists (Candidate key (w1 ++ str "=" ++ w2 ++ cap) []).
    exists (Candidate (w1 ++ str "=" ++ w2 ++ cap) [] [Some cap]).
    split; [apply in_run_lit; by eexists|]. split; [|done].
    cbn [rest consumed]. apply in_run_seq.
    exists (Candidate w1 (str "=" ++ w2 ++ cap) []).
    exists (Candidate (str "=" ++ w2 ++ cap) [] [Some cap]).
    split; [apply in_run_star_ws; by exists w1|]. split; [|done].
    cbn [rest consumed]. apply in_run_seq.
    exists (Candidate (str "=") (w2 ++ cap) []).
    exists (Candidate (w2 ++ cap) [] [Some cap]).
    split; [apply in_run_chr; by eexists|]. split; [|done].
    cbn [rest consumed]. apply in_run_seq.
    exists (Candidate w2 cap []), (Candidate cap [] [Some cap]).
    split; [apply in_run_star_ws; by exists w2|]. split; [|done].
    cbn [rest consumed]. apply in_run_seq.
    exists (Candidate cap [] [Some cap]), (Candidate [] [] []).
    split; [|split; [by apply in_run_end | by rewrite app_nil_r]].
    apply in_run_group. exists (Candidate cap [] []). split; [|done].
    apply in_run_plus_dot. exists cap. by rewrite app_nil_r.
Qed.

Lemma property_pattern_eq key :
  property_pattern key =
  RSeq RBegin (RSeq (lit key)
    (RSeq (RStar ws) (RSeq (RChr "=")
       (RSeq (RStar ws) (RSeq (RGroup (RPlus dot)) REnd))))).
Proof. reflexivity. Qed.

Lemma exec_property_some key line m :
  exec (property_pattern key) line = Some m ->
  exists w1 w2 cap,
    blanks w1 /\ blanks w2 /\ cap <> [] /\ one_line cap
    /\ line = key ++ w1 ++ str "=" ++ w2 ++ cap
    /\ m = Candidate line [] [Some cap].
Proof.
  rewrite property_pattern_eq. intros H.
  apply exec_anchored_in in H. by apply in_run_property.
Qed.

Lemma exec_property_cap key line m :
  exec (property_pattern key) line = Some m ->
  exists cap before,
    cap <> [] /\ one_line cap /\ line = before ++ cap
    /\ m = Candidate line [] [Some cap].
Proof.
  intros H. apply exec_property_some in H
    as (w1 & w2 & cap & _ & _ & Hne & Hcap & -> & ->).
  exists cap, (key ++ w1 ++ str "=" ++ w2). by rewrite <- !app_assoc.
Qed.

Lemma exec_property_intro key w1 w2 cap :
  blanks w1 -> blanks w2 -> cap <> [] -> one_line cap ->
  exists m, exec (property_pattern key) (key ++ w1 ++ str "=" ++ w2 ++ cap) = Some m.
Proof.
  intros Hw1 Hw2 Hne Hcap. rewrite property_pattern_eq.
  eapply exec_anchored_some. apply in_run_property.
  exists w1, w2, cap. done.
Qed.


(** The strings [/^(https?:\/\/|git@|ssh:\/\/)/] accepts. *)
Lemma test_URL_SCHEME u :
  test URL_SCHEME u = true <-> uses_scheme accepted_schemes u.
Proof.
  change URL_SCHEME with
    (RSeq RBegin
       (RGroup (RAlt (RSeq (lit (str "http")) (RSeq (ROpt (RChr "s")) (lit (str "://"))))
                     (RAlt (lit (str "git@")) (lit (str "ssh://")))))).
  rewrite test_anchored. unfold uses_scheme, accepted_schemes, begins_with.
  rewrite !Exists_cons, Exists_nil. split.
  - intros (x & Hx). apply in_run_group in Hx as (y & Hy & _).
    apply in_run_alt in Hy as [(z & Hz & _)|(z & Hz & _)].
    + apply in_run_seq in Hz as (a1 & y1 & Ha1 & Hy1 & _).
      apply in_run_lit in Ha1 as (s1 & -> & ->). cbn [rest] in Hy1.
      apply in_run_seq in Hy1 as (a2 & y2 & Ha2 & Hy2 & _).
      apply in_run_opt in Ha2 as [Ha2| ->].
      * apply in_run_chr in Ha2 as (s2 & -> & ->). cbn [rest] in Hy2.
        apply in_run_lit in Hy2 as (s3 & -> & _). right. left. by exists s3.
      * cbn [rest] in Hy2.
        apply in_run_lit in Hy2 as (s3 & -> & _). left. by exists s3.
    + apply in_run_alt in Hz as [(a & Ha & _)|(a & Ha & _)];
        apply in_run_lit in Ha as (s1 & -> & _).
      * right. right. left. by exists s1.
      * right. right. right. left. by exists s1.
  - intros [(t & ->)|[(t & ->)|[(t & ->)|[(t & ->)|[]]]]];
      eexists; apply in_run_group; eexists; (split; [|done]); apply in_run_alt.
    + left. eexists. split; [|done]. apply in_run_seq.
      exists (Candidate (str "http") (str "://" ++ t) []). eexists.
      split; [apply in_run_lit; by eexists|]. split; [|done].
      cbn [rest consumed]. apply in_run_seq.
      exists (Candidate [] (str "://" ++ t) (unset 0)), (Candidate (str "://") t []).
      split; [apply in_run_opt; by right|]. split; [|done].
      apply in_run_lit. by eexists.
    + left. eexists. split; [|done]. apply in_run_seq.
      exists (Candidate (str "http") (str "s://" ++ t) []). eexists.
      split; [apply in_run_lit; by eexists|]. split; [|done].
      cbn [rest consumed]. apply in_run_seq.
      exists (Candidate (str "s") (str "://" ++ t) []), (Candidate (str "://") t []).
      split; [apply in_run_opt; left; apply in_run_chr; by eexists|].
      split; [|done]. apply in_run_lit. by eexists.
    + right. eexists. split; [|done]. apply in_run_alt. left.
      eexists. split; [|done]. apply in_run_lit. by eexists.
    + right. eexists. split; [|done]. apply in_run_alt. right.
      eexists. split; [|done]. apply in_run_lit. by eexists.
Qed.

Lemma is_some_exec r s : is_some (exec r s) = test r s.
Proof. reflexivity. Qed.

End GitmodulesPatterns.

(** Case analysis of one iteration of the scanning loop. *)
Ltac scan_cases st line :=
  unfold Validation.scan_line;
  let Hh := fresh "Hh" in
  let Hp := fresh "Hp" in
  let Hu := fresh "Hu" in
  let Hc := fresh "Hc" in
  destruct (Regex.exec Validation.SUBMODULE_HEADER line) as [?m|] eqn:Hh;
    [apply exec_header_some in Hh as (?n & ?Hne & ?Hone & ?Hline & ->)
    |destruct (Regex.exec Validation.PATH_PROPERTY line) as [?m|] eqn:Hp;
       [apply exec_property_cap in Hp as (?cap & ?before & ? & ? & ? & ->)|];
     (destruct (Regex.exec Validation.URL_PROPERTY line) as [?m|] eqn:Hu;
       [apply exec_property_cap in Hu as (?cap & ?before & ? & ? & ? & ->)|]);
     destruct (Validation.currentSubmodule st) as [?current|] eqn:Hc;
     destruct (Js.starts_with (str "[") line) eqn:?Hb;
     destruct (Js.starts_with (str "#") line) eqn:?Hhash];
  cbn [Validation.group1 Regex.group Regex.groups nth_error default Js.bind
       negb andb Validation.is_some].

Section GitmodulesScan.
Import Js Regex Validation Predicates.

(** A line an assignment pattern matches opens with the key, so a line
    that opens with a bracket is no assignment. *)
Lemma exec_property_first_char key c0 k line m :
  key = c0 :: k ->
  exec (property_pattern key) line = Some m ->
  exists tail, line = c0 :: tail.
Proof.
  intros -> H. apply exec_property_some in H as (w1 & w2 & cap & _ & _ & _ & _ & -> & _).
  by eexists.
Qed.

Lemma starts_with_bracket_no_property line :
  starts_with (str "[") line = true ->
  exec PATH_PROPERTY line = None /\ exec URL_PROPERTY line = None.
Proof.
  intros Hb. split.
  - destruct (exec PATH_PROPERTY line) as [m|] eqn:Hm; [|done].
    apply (exec_property_first_char _ "p" (str "ath")) in Hm as [tail ->]; [|done].
    by vm_compute in Hb.
  - destruct (exec URL_PROPERTY line) as [m|] eqn:Hm; [|done].
    apply (exec_property_first_char _ "u" (str "rl")) in Hm as [tail ->]; [|done].
    by vm_compute in Hb.
Qed.

(** The scanning loop never throws: a match always carries its group. *)
Lemma scan_line_returns i line st : exists st', scan_line i line st = Return st'.
Proof. scan_cases st line; by eexists. Qed.

Lemma scan_line_errors i line st st' :
  scan_line i line st = Return st' ->
  exists new, scan_errors st' = scan_errors st ++ new.
Proof.
  scan_cases st line; intros [= <-]; cbn [scan_errors];
    first [by exists []; rewrite app_nil_r | by eexists].
Qed.

Lemma scan_line_current i line st st' :
  scan_line i line st = Return st' ->
  is_some (currentSubmodule st) = true ->
  is_some (currentSubmodule st') = true.
Proof.
  scan_cases st line; intros [= <-]; cbn [currentSubmodule is_some];
    try done; by rewrite ?Hc.
Qed.

Lemma scan_line_header i line st st' :
  scan_line i line st = Return st' ->
  test SUBMODULE_HEADER line = true ->
  is_some (currentSubmodule st') = true.
Proof.
  unfold test. scan_cases st line; intros [= <-]; cbn [currentSubmodule is_some];
    done.
Qed.

(** A bracketed line that is no submodule header is reported, wherever it
    stands. *)
Lemma scan_line_bracket i line st st' :
  scan_line i line st = Return st' ->
  starts_with (str "[") line = true ->
  test SUBMODULE_HEADER line = false ->
  In (header_message i line) (scan_errors st').
Proof.
  intros Hscan Hb Hh. destruct (starts_with_bracket_no_property line Hb) as [Hp Hu].
  revert Hscan Hh. unfold test, scan_line. rewrite Hp, Hu, Hb.
  destruct (exec SUBMODULE_HEADER line); [done|]. cbn.
  destruct (currentSubmodule st); intros [= <-] _; cbn; apply in_app_iff; right; by left.
Qed.

(** Inside a section, a line that is neither header, assignment, comment
    nor bracketed is reported. *)
Lemma scan_line_property i line st st' :
  scan_line i line st = Return st' ->
  is_some (currentSubmodule st) = true ->
  test SUBMODULE_HEADER line = false ->
  test PATH_PROPERTY line = false ->
  test URL_PROPERTY line = false ->
  starts_with (str "[") line = false ->
  starts_with (str "#") line = false ->
  In (property_message i line) (scan_errors st').
Proof.
  unfold test, scan_line. intros Hscan Hcur Hh Hp Hu Hb Hhash. revert Hscan.
  destruct (exec SUBMODULE_HEADER line); [done|].
  destruct (exec PATH_PROPERTY line); [done|].
  destruct (exec URL_PROPERTY line); [done|].
  destruct (currentSubmodule st); [|done]. rewrite Hb, Hhash. cbn.
  intros [= <-]. cbn. apply in_app_iff. right. by left.
Qed.

(** Outside any section, a line that is not bracketed changes nothing. *)
Lemma scan_line_top_level i line st :
  currentSubmodule st = None ->
  test SUBMODULE_HEADER line = false ->
  starts_with (str "[") line = false ->
  scan_line i line st = Return st.
Proof.
  unfold test, scan_line. intros Hcur Hh Hb.
  destruct (exec SUBMODULE_HEADER line); [done|].
  rewrite Hcur, Hb. cbn. rewrite !andb_false_r.
  by destruct (exec PATH_PROPERTY line), (exec URL_PROPERTY line).
Qed.

Lemma scan_lines_returns lines : forall i st,
  exists st', scan_lines i lines st = Return st'.
Proof.
  induction lines as [|line lines IH]; intros i st; cbn [scan_lines].
  - by eexists.
  - destruct (scan_line_returns i line st) as [st1 ->]. cbn [bind]. apply IH.
Qed.

Lemma scan_lines_app l1 l2 : forall i st,
  scan_lines i (l1 ++ l2) st =
  let! st1 := scan_lines i l1 st in scan_lines (i + length l1) l2 st1.
Proof.
  induction l1 as [|line l1 IH]; intros i st; cbn [scan_lines app length].
  - cbn. by rewrite Nat.add_0_r.
  - destruct (scan_line i line st) as [st1|e]; cbn [bind]; [|done].
    rewrite IH. by replace (i + 1 + length l1) with (i + S (length l1)) by lia.
Qed.

Lemma scan_lines_errors lines : forall i st st',
  scan_lines i lines st = Return st' ->
  exists new, scan_errors st' = scan_errors st ++ new.
Proof.
  induction lines as [|line lines IH]; intros i st st'; cbn [scan_lines].
  - intros [= <-]. exists []. by rewrite app_nil_r.
  - destruct (scan_line i line st) as [st1|e] eqn:H1; cbn [bind]; [|done].
    intros H2. apply scan_line_errors in H1 as [new1 E1].
    apply IH in H2 as [new2 E2]. exists (new1 ++ new2).
    by rewrite E2, E1, app_assoc.
Qed.

Lemma scan_lines_current lines : forall i st st',
  scan_lines i lines st = Return st' ->
  is_some (currentSubmodule st) = true ->
  is_some (currentSubmodule st') = true.
Proof.
  induction lines as [|line lines IH]; intros i st st'; cbn [scan_lines].
  - by intros [= <-].
  - destruct (scan_line i line st) as [st1|e] eqn:H1; cbn [bind]; [|done].
    intros H2 Hc. eapply IH; [done|]. by eapply scan_line_current.
Qed.

(** Once a header has been read the loop is inside a section for good. *)
Lemma scan_lines_header lines : forall i st st',
  scan_lines i lines st = Return st' ->
  Exists (fun line => test SUBMODULE_HEADER line = true) lines ->
  is_some (currentSubmodule st') = true.
Proof.
  induction lines as [|line lines IH]; intros i st st'; cbn [scan_lines].
  - intros _ H. by apply Exists_nil in H.
  - destruct (scan_line i line st) as [st1|e] eqn:H1; cbn [bind]; [|done].
    intros H2 Hex. apply Exists_cons in Hex as [Hh|Hex].
    + eapply scan_lines_current; [done|]. by eapply scan_line_header.
    + by eapply IH.
Qed.

End GitmodulesScan.

Section GitmodulesParsed.
Import Js Regex Validation Predicates.

Lemma collected_cons st :
  collected st =
  scanned st ++ match currentSubmodule st with Some c => [c] | None => [] end.
Proof. unfold collected. destruct (currentSubmodule st); [done | by rewrite app_nil_r]. Qed.

(** What one iteration does to the variables of the loop. *)
Lemma scan_line_shape i line st st' :
  scan_line i line st = Return st' ->
  (exists n, n <> [] /\ one_line n
             /\ st' = {| currentSubmodule :=
                           Some {| name := n; lineNumber := i + 1;
                                   path := None; url := None |};
                         scanned := collected st;
                         scan_errors := scan_errors st |})
  \/ (exists current cap before,
        currentSubmodule st = Some current /\ one_line cap
        /\ cap <> [] /\ line = before ++ cap
        /\ st' = {| currentSubmodule :=
                      Some {| name := name current; lineNumber := lineNumber current;
                              path := Some (trim cap); url := url current |};
                    scanned := scanned st;
                    scan_errors := scan_errors st |})
  \/ (exists current cap before,
        currentSubmodule st = Some current /\ one_line cap
        /\ cap <> [] /\ line = before ++ cap
        /\ st' = {| currentSubmodule :=
                      Some {| name := name current; lineNumber := lineNumber current;
                              path := path current; url := Some (trim cap) |};
                    scanned := scanned st;
                    scan_errors := scan_errors st |})
  \/ (currentSubmodule st' = currentSubmodule st /\ scanned st' = scanned st).
Proof.
  scan_cases st line; intros [= <-];
    first [ by (left; eexists; split; [|split; [|reflexivity]]; eassumption)
          | by (right; left; do 3 eexists; split_and!;
                [reflexivity|idtac|idtac|idtac|reflexivity]; eassumption)
          | by (right; right; left; do 3 eexists; split_and!;
                [reflexivity|idtac|idtac|idtac|reflexivity]; eassumption)
          | by (right; right; right) ].
Qed.

(** Each iteration keeps every collected submodule well formed. *)
Lemma scan_line_parsed i line st st' :
  scan_line i line st = Return st' ->
  Forall parsed_entry (collected st) ->
  Forall parsed_entry (collected st').
Proof.
  intros Hscan Hall.
  apply scan_line_shape in Hscan
    as [(n & Hne & Hn & ->)|[(c & cap & a & Hc & Hcap & _ & _ & ->)
       |[(c & cap & a & Hc & Hcap & _ & _ & ->)|[Hcur Hscanned]]]].
  - unfold collected at 1. cbn [currentSubmodule scanned].
    apply Forall_app. split; [done|]. apply Forall_singleton.
    unfold parsed_entry. cbn [name path url]. done.
  - revert Hall. unfold collected. rewrite Hc. cbn [currentSubmodule scanned].
    rewrite !Forall_app, !Forall_singleton. intros [Hs (Hn1 & Hn2 & Hp & Hu)].
    split; [done|]. unfold parsed_entry. cbn [name path url].
    split; [done|]. split; [done|]. split; [|done].
    intros v [= <-]. by apply clean_trim.
  - revert Hall. unfold collected. rewrite Hc. cbn [currentSubmodule scanned].
    rewrite !Forall_app, !Forall_singleton. intros [Hs (Hn1 & Hn2 & Hp & Hu)].
    split; [done|]. unfold parsed_entry. cbn [name path url].
    split; [done|]. split; [done|]. split; [done|].
    intros v [= <-]. by apply clean_trim.
  - unfold collected in *. by rewrite Hcur, Hscanned.
Qed.

Lemma scan_lines_parsed lines : forall i st st',
  scan_lines i lines st = Return st' ->
  Forall parsed_entry (collected st) ->
  Forall parsed_entry (collected st').
Proof.
  induction lines as [|line lines IH]; intros i st st'; cbn [scan_lines].
  - by intros [= <-].
  - destruct (scan_line i line st) as [st1|] eqn:H1; cbn [bind]; [|done].
    intros H2 Hall. eapply IH; [done|]. by eapply scan_line_parsed.
Qed.

(** On trimmed lines, no value the loop stores is empty. *)
Lemma scan_line_filled i line st st' :
  trim line = line ->
  scan_line i line st = Return st' ->
  Forall filled_entry (collected st) ->
  Forall filled_entry (collected st').
Proof.
  intros Hline Hscan Hall.
  apply scan_line_shape in Hscan
    as [(n & Hne & Hn & ->)|[(c & cap & a & Hc & _ & Hcap & Heq & ->)
       |[(c & cap & a & Hc & _ & Hcap & Heq & ->)|[Hcur Hscanned]]]].
  - unfold collected at 1. cbn [currentSubmodule scanned].
    apply Forall_app. split; [done|]. apply Forall_singleton. by split.
  - revert Hall. unfold collected. rewrite Hc. cbn [currentSubmodule scanned].
    rewrite !Forall_app, !Forall_singleton. intros [Hs [Hp Hu]].
    split; [done|]. split; [|done]. cbn. intros [= Hnil].
    rewrite Heq in Hline. by apply (trim_suffix_nonempty a cap).
  - revert Hall. unfold collected. rewrite Hc. cbn [currentSubmodule scanned].
    rewrite !Forall_app, !Forall_singleton. intros [Hs [Hp Hu]].
    split; [done|]. split; [done|]. cbn. intros [= Hnil].
    rewrite Heq in Hline. by apply (trim_suffix_nonempty a cap).
  - unfold collected in *. by rewrite Hcur, Hscanned.
Qed.

Lemma scan_lines_filled lines : forall i st st',
  Forall (fun line => trim line = line) lines ->
  scan_lines i lines st = Return st' ->
  Forall filled_entry (collected st) ->
  Forall filled_entry (collected st').
Proof.
  induction lines as [|line lines IH]; intros i st st' Hlines; cbn [scan_lines].
  - by intros [= <-].
  - apply Forall_cons in Hlines as [Hline Hlines].
    destruct (scan_line i line st) as [st1|] eqn:H1; cbn [bind]; [|done].
    intros H2 Hall. eapply IH; [done..|]. by eapply scan_line_filled.
Qed.

Lemma lines_of_trimmed text : Forall (fun line => trim line = line) (lines_of text).
Proof.
  apply List.Forall_forall. intros line Hin. unfold lines_of in Hin.
  apply List.filter_In in Hin as [Hin _].
  apply in_map_iff in Hin as (raw & <- & _). apply trim_idem.
Qed.

End GitmodulesParsed.

Section GitmodulesFacts.
Import Js Regex Validation Predicates.

Lemma push_if_app cond message (a b : list jsstring) :
  push_if cond message (a ++ b) = a ++ push_if cond message b.
Proof. unfold push_if. destruct cond; [by rewrite app_assoc | done]. Qed.

Lemma check_submodule_app errs sm :
  check_submodule errs sm = errs ++ check_submodule [] sm.
Proof.
  unfold check_submodule.
  rewrite <- !push_if_app. by rewrite app_nil_r.
Qed.

Lemma fold_check_submodule sms : forall errs,
  fold_left check_submodule sms errs
  = errs ++ flat_map (check_submodule []) sms.
Proof.
  induction sms as [|sm sms IH]; intros errs; cbn [fold_left flat_map].
  - by rewrite app_nil_r.
  - rewrite IH, (check_submodule_app errs sm). by rewrite app_assoc.
Qed.

(** The shape of every result: the scanning loop ends in some state, and
    the result is built from it. *)
Lemma validateGitmodules_text text :
  exists st,
    scan_lines 0 (lines_of text) initial_state = Return st
    /\ validateGitmodules (JStr text) =
       Return
         {| base :=
              {| isValid :=
                   Nat.eqb (length (scan_errors st
                                    ++ flat_map (check_submodule []) (collected st))) 0;
                 errors := scan_errors st
                           ++ flat_map (check_submodule []) (collected st) |};
            submodules := collected st |}.
Proof.
  destruct (scan_lines_returns (lines_of text) 0 initial_state) as [st Hst].
  exists st. split; [done|]. unfold validateGitmodules.
  change {| currentSubmodule := None; scanned := []; scan_errors := [] |}
    with initial_state.
  rewrite Hst. cbn [bind]. fold (collected st).
  by rewrite fold_check_submodule.
Qed.

(** validateGitmodules never throws. *)
Lemma validateGitmodules_returns input :
  exists r, validateGitmodules input = Return r.
Proof.
  destruct input; try (by eexists).
  destruct (validateGitmodules_text s) as (st & _ & ->). by eexists.
Qed.

Lemma validateGitmodules_inv input r :
  validateGitmodules input = Return r ->
  (exists text st,
     input = JStr text
     /\ scan_lines 0 (lines_of text) initial_state = Return st
     /\ submodules r = collected st
     /\ errors r = scan_errors st ++ flat_map (check_submodule []) (submodules r)
     /\ isValid r = Nat.eqb (length (errors r)) 0)
  \/ (submodules r = [] /\ isValid r = false).
Proof.
  destruct input; try (intros [= <-]; right; by cbn).
  destruct (validateGitmodules_text s) as (st & Hst & ->).
  intros [= <-]. left. by exists s, st.
Qed.

Lemma isValid_false_of_error input r e :
  validateGitmodules input = Return r ->
  In e (errors r) -> isValid r = false.
Proof.
  intros Hr He. apply validateGitmodules_inv in Hr as [(text & st & _ & _ & _ & _ & ->)|[_ ?]];
    [|done].
  destruct (errors r); [done | by cbn].
Qed.

Lemma in_check_submodule input r sm e :
  validateGitmodules input = Return r ->
  In sm (submodules r) ->
  In e (check_submodule [] sm) ->
  In e (errors r) /\ isValid r = false.
Proof.
  intros Hr Hsm He.
  assert (In e (errors r)) as Hin.
  { apply validateGitmodules_inv in Hr as [(text & st & _ & _ & _ & -> & _)|[Hnil _]].
    - apply in_app_iff. right. apply in_flat_map. by exists sm.
    - by rewrite Hnil in Hsm. }
  split; [done|]. by eapply isValid_false_of_error.
Qed.

Lemma in_check_submodule_iff sm e :
  In e (check_submodule [] sm) <->
  (present (path sm) = false /\ e = missing_path_message (name sm))
  \/ (present (url sm) = false /\ e = missing_url_message (name sm))
  \/ (url_rejected sm = true
      /\ e = invalid_url_message (name sm) (default [] (url sm))).
Proof.
  unfold check_submodule. rewrite !in_push_if. cbn [In].
  rewrite !negb_true_iff. tauto.
Qed.

Lemma url_rejected_iff sm u :
  url sm = Some u -> u <> [] ->
  url_rejected sm = false <-> uses_scheme accepted_schemes u.
Proof.
  intros Hu Hne. unfold url_rejected. rewrite Hu, is_some_exec.
  rewrite <- test_URL_SCHEME. destruct u; [done|]. cbn [present andb].
  by rewrite negb_false_iff.
Qed.

Lemma valid_no_errors input r :
  validateGitmodules input = Return r -> isValid r = true -> errors r = [].
Proof.
  intros Hr Hv.
  apply validateGitmodules_inv in Hr as [(text & st & _ & _ & _ & _ & Hval)|[_ ?]];
    [|congruence].
  rewrite Hv in Hval. symmetry in Hval. apply Nat.eqb_eq in Hval.
  by apply length_zero_iff_nil.
Qed.

(** No submodule of a result has an empty path or url. *)
Lemma stored_values_nonempty input r sm :
  validateGitmodules input = Return r ->
  In sm (submodules r) -> filled_entry sm.
Proof.
  intros Hr Hsm.
  apply validateGitmodules_inv in Hr as [(text & st & _ & Hst & Hsub & _)|[Hnil _]].
  - rewrite Hsub in Hsm.
    assert (Hall : Forall filled_entry (collected st)).
    { apply (scan_lines_filled _ _ _ _ (lines_of_trimmed text) Hst). constructor. }
    rewrite List.Forall_forall in Hall. by apply Hall.
  - by rewrite Hnil in Hsm.
Qed.

(** A submodule whose url fails the format check is reported by name. *)
Lemma rejected_url_reported input r sm u :
  validateGitmodules input = Return r ->
  In sm (submodules r) -> url sm = Some u -> u <> [] ->
  ~ uses_scheme accepted_schemes u ->
  In (invalid_url_message (name sm) u) (errors r) /\ isValid r = false.
Proof.
  intros Hr Hsm Hu Hne Hno. eapply in_check_submodule; [done..|].
  apply in_check_submodule_iff. right. right. rewrite Hu. split; [|done].
  apply not_false_iff_true. intros Hrej. apply Hno.
  by apply (url_rejected_iff sm u).
Qed.

(** A valid result holds only urls of an accepted scheme. *)
Lemma valid_urls_accepted input r :
  validateGitmodules input = Return r -> isValid r = true ->
  forall sm, In sm (submodules r) ->
             exists u, url sm = Some u /\ uses_scheme accepted_schemes u.
Proof.
  intros Hr Hvalid sm Hsm.
  pose proof (valid_no_errors _ _ Hr Hvalid) as Hnil.
  assert (Hnone : forall e, ~ In e (check_submodule [] sm)).
  { intros e He. destruct (in_check_submodule _ _ _ _ Hr Hsm He) as [Hin _].
    by rewrite Hnil in Hin. }
  destruct (url sm) as [u|] eqn:Hu.
  + exists u. split; [done|]. destruct u as [|c u].
    { exfalso. apply (Hnone (missing_url_message (name sm))).
      apply in_check_submodule_iff. right. left. by rewrite Hu. }
    apply (url_rejected_iff sm (c :: u)); [done..|].
    apply not_true_iff_false. intros Hrej.
    apply (Hnone (invalid_url_message (name sm) (default [] (url sm)))).
    apply in_check_submodule_iff. right. right. done.
  + exfalso. apply (Hnone (missing_url_message (name sm))).
    apply in_check_submodule_iff. right. left. by rewrite Hu.
Qed.

Lemma lines_of_eq text : lines_of text = nonblank_lines (split_lines text).
Proof. reflexivity. Qed.

Lemma nonblank_lines_app a b :
  nonblank_lines (a ++ b) = nonblank_lines a ++ nonblank_lines b.
Proof. unfold nonblank_lines. by rewrite map_app, List.filter_app. Qed.

Lemma nonblank_lines_cons raw raws :
  trim raw <> [] ->
  nonblank_lines (raw :: raws) = trim raw :: nonblank_lines raws.
Proof.
  intros Hne. unfold nonblank_lines. cbn [map List.filter].
  by destruct (trim raw).
Qed.

Lemma nonblank_lines_length raws :
  Forall (fun raw => trim raw <> []) raws ->
  length (nonblank_lines raws) = length raws.
Proof.
  induction 1 as [|raw raws Hraw _ IH]; [done|].
  rewrite nonblank_lines_cons by done. cbn. by rewrite IH.
Qed.

Lemma test_header_nil : test SUBMODULE_HEADER [] = false.
Proof. by vm_compute. Qed.

Lemma nonblank_lines_header raws :
  Exists (fun raw => test SUBMODULE_HEADER (trim raw) = true) raws ->
  Exists (fun line => test SUBMODULE_HEADER line = true) (nonblank_lines raws).
Proof.
  induction 1 as [raw raws Hraw|raw raws _ IH].
  - rewrite nonblank_lines_cons; [by left|].
    intros Hnil. rewrite Hnil, test_header_nil in Hraw. done.
  - unfold nonblank_lines in *. cbn [map List.filter].
    destruct (0 <? length (trim raw)); [by right | done].
Qed.

(** The iteration that reads a given non-blank line of the text, and what
    becomes of the errors it leaves. *)
Lemma scan_reaches text r before raw after :
  validateGitmodules (JStr text) = Return r ->
  split_lines text = before ++ raw :: after ->
  trim raw <> [] ->
  exists st1 st2,
    scan_lines 0 (nonblank_lines before) initial_state = Return st1
    /\ scan_line (length (nonblank_lines before)) (trim raw) st1 = Return st2
    /\ (forall e, In e (scan_errors st2) -> In e (errors r)).
Proof.
  intros Hr Hsplit Hne.
  destruct (validateGitmodules_text text) as (st & Hst & Hres).
  rewrite Hres in Hr. injection Hr as <-. cbn [errors base].
  rewrite lines_of_eq, Hsplit, nonblank_lines_app, nonblank_lines_cons in Hst by done.
  rewrite scan_lines_app in Hst.
  destruct (scan_lines 0 (nonblank_lines before) initial_state) as [st1|] eqn:H1;
    [|done].
  cbn [bind scan_lines] in Hst.
  destruct (scan_line (0 + length (nonblank_lines before)) (trim raw) st1)
    as [st2|] eqn:H2; [|done].
  cbn [bind] in Hst. exists st1, st2. split; [done|]. split; [done|].
  intros e He. apply scan_lines_errors in Hst as [new ->].
  rewrite !in_app_iff. auto.
Qed.

Lemma test_header_bracket line :
  test SUBMODULE_HEADER line = true -> starts_with (str "[") line = true.
Proof.
  unfold test. destruct (exec SUBMODULE_HEADER line) as [m|] eqn:Hm; [|done].
  apply exec_header_some in Hm as (n & _ & _ & -> & _). done.
Qed.

Lemma scan_lines_top_level lines : forall i,
  Forall (fun line => starts_with (str "[") line = false) lines ->
  scan_lines i lines initial_state = Return initial_state.
Proof.
  induction lines as [|line lines IH]; intros i Hall; [done|].
  apply Forall_cons in Hall as [Hline Hall]. cbn [scan_lines].
  rewrite scan_line_top_level; [by apply IH|  done | | done].
  apply not_true_iff_false. intros Hh. apply test_header_bracket in Hh. congruence.
Qed.

(** C7, as the code has it: a non-blank line that opens with a bracket and
    is no submodule header is reported wherever it stands, and a line
    inside a section that is neither header, assignment, comment nor
    bracketed is reported too, each with a line number that is its 1-based
    number in the text when no blank line comes before it; lines outside any
    section are otherwise let through: there the loop leaves its variables
    as they are, so a text without a bracketed line is valid. *)
Theorem validateGitmodules_reports_lines :
  (forall text r before raw after,
     validateGitmodules (JStr text) = Return r ->
     split_lines text = before ++ raw :: after ->
     trim raw <> [] ->
     (starts_with (str "[") (trim raw) = true ->
      test SUBMODULE_HEADER (trim raw) = false ->
      exists i, In (header_message i (trim raw)) (errors r)
                /\ (Forall (fun l => trim l <> []) before -> i = length before))
     /\ (Exists (fun l => test SUBMODULE_HEADER (trim l) = true) before ->
         unrecognized (trim raw) ->
         exists i, In (property_message i (trim raw)) (errors r)
                   /\ (Forall (fun l => trim l <> []) before -> i = length before)))
  /\ (forall i line st,
        currentSubmodule st = None ->
        starts_with (str "[") line = false ->
        scan_line i line st = Return st)
  /\ (forall text,
        Forall (fun l => starts_with (str "[") (trim l) = false) (split_lines text) ->
        validateGitmodules (JStr text)
        = Return {| base := {| isValid := true; errors := [] |}; submodules := [] |}).
Proof.
  split.
  - intros text r before raw after Hr Hsplit Hne.
    destruct (scan_reaches _ _ _ _ _ Hr Hsplit Hne) as (st1 & st2 & H1 & H2 & Hsub).
    split.
    + intros Hb Hh. exists (length (nonblank_lines before)).
      split; [|apply nonblank_lines_length].
      apply Hsub. by eapply scan_line_bracket.
    + intros Hsec (Hh & Hp & Hu & Hb & Hhash).
      exists (length (nonblank_lines before)).
      split; [|apply nonblank_lines_length].
      apply Hsub. eapply scan_line_property; [done| |done..].
      eapply scan_lines_header; [done|]. by apply nonblank_lines_header.
  - split.
    { intros i line st Hcur Hb. apply scan_line_top_level; [done| |done].
      apply not_true_iff_false. intros Hh. apply test_header_bracket in Hh.
      congruence. }
    intros text Hall.
    destruct (validateGitmodules_text text) as (st & Hst & ->).
    rewrite scan_lines_top_level in Hst; [by injection Hst as <-|].
    rewrite lines_of_eq. unfold nonblank_lines.
    apply List.Forall_forall. intros line Hin.
    apply List.filter_In in Hin as [Hin _]. apply in_map_iff in Hin as (l & <- & Hl).
    rewrite List.Forall_forall in Hall. by apply Hall.
Qed.

Lemma validateGitmodules_reports_lines_witness :
  (exists i,
     In (property_message i (str "foo"))
        (errors {| isValid := false;
                   errors := [property_message 1 (str "foo");
                              missing_path_message (str "x");
                              missing_url_message (str "x")] |})
     /\ (Forall (fun l => trim l <> [])
                [header_prefix ++ str "x" ++ header_suffix] -> i = 1))
  /\ validateGitmodules (JStr (str "path = x"))
     = Return {| base := {| isValid := true; errors := [] |}; submodules := [] |}.
Proof.
  split.
  - apply (proj1 validateGitmodules_reports_lines
             (header_prefix ++ str "x" ++ header_suffix ++ [LF] ++ str "  foo")
             {| base := {| isValid := false;
                           errors := [property_message 1 (str "foo");
                                      missing_path_message (str "x");
                                      missing_url_message (str "x")] |};
                submodules := [{| name := str "x"; lineNumber := 1;
                                  path := None; url := None |}] |}
             [header_prefix ++ str "x" ++ header_suffix] (str "  foo") []).
    + vm_compute. reflexivity.
    + vm_compute. reflexivity.
    + vm_compute. discriminate.
    + left. vm_compute. reflexivity.
    + repeat split; vm_compute; reflexivity.
  - apply (proj2 (proj2 validateGitmodules_reports_lines) (str "path = x")).
    repeat constructor.
Defined.

(** C7 as stated fails: outside a section the unrecognized line [foo] is
    not reported at all; and after a blank line the number reported is not
    the line number in the text. *)
Lemma validateGitmodules_reports_lines_counterexample :
  (unrecognized (str "foo")
   /\ validateGitmodules (JStr (str "foo"))
      = Return {| base := {| isValid := true; errors := [] |}; submodules := [] |})
  /\ (split_lines ([LF] ++ str "[bad]") = [[]; str "[bad]"]
      /\ validateGitmodules (JStr ([LF] ++ str "[bad]"))
         = Return {| base := {| isValid := false;
                                errors := [str "Invalid section header at line 1: [bad]"] |};
                     submodules := [] |}).
Proof.
  split; split; by vm_compute.
Qed.

End GitmodulesFacts.

(** ** The canonical sorter *)

Section SortFacts.
Import Js CanonicalSorter Predicates.

Lemma byte_leb_refl a : byte_leb a a = true.
Proof.
  induction a as [|c a IH]; [done|]. cbn [byte_leb]. by rewrite Nat.ltb_irrefl.
Qed.

Lemma byte_leb_total a : forall b, byte_leb a b = false -> byte_leb b a = true.
Proof.
  induction a as [|x a IH]; intros [|y b]; cbn [byte_leb]; try done.
  destruct (code x <? code y) eqn:Hxy; [done|].
  destruct (code y <? code x) eqn:Hyx; [done|]. apply IH.
Qed.

Context {A : Type} (key : A -> jsstring).

Lemma insert_by_HdRel x y l :
  key_le key y x -> HdRel (key_le key) y l -> HdRel (key_le key) y (insert_by key x l).
Proof.
  intros Hyx Hl. destruct l as [|z l]; cbn.
  - by constructor.
  - destruct (byte_leb (key x) (key z)); constructor; [done|].
    by inversion Hl.
Qed.

Lemma insert_by_Sorted x l :
  Sorted (key_le key) l -> Sorted (key_le key) (insert_by key x l).
Proof.
  induction 1 as [|y l Hl IH Hy]; cbn.
  - by repeat constructor.
  - destruct (byte_leb (key x) (key y)) eqn:Hxy.
    + constructor; [by constructor|]. by constructor.
    + constructor; [done|]. apply insert_by_HdRel; [|done].
      by apply byte_leb_total.
Qed.

Lemma sort_by_Sorted l : Sorted (key_le key) (sort_by key l).
Proof.
  induction l as [|x l IH]; cbn; [constructor|]. by apply insert_by_Sorted.
Qed.

(** Sorting leaves a sorted list as it is. *)
Lemma sort_by_of_Sorted l : Sorted (key_le key) l -> sort_by key l = l.
Proof.
  induction 1 as [|x l Hl IH Hx]; [done|]. cbn. fold (sort_by key l).
  rewrite IH. destruct Hx as [|y l Hxy]; [done|]. cbn.
  unfold key_le in Hxy. by rewrite Hxy.
Qed.

Lemma sort_by_idem l : sort_by key (sort_by key l) = sort_by key l.
Proof. apply sort_by_of_Sorted, sort_by_Sorted. Qed.

Lemma insert_by_Permutation x l : Permutation (insert_by key x l) (x :: l).
Proof.
  induction l as [|y l IH]; [done|]. cbn.
  destruct (byte_leb (key x) (key y)); [done|].
  rewrite IH. apply perm_swap.
Qed.

Lemma sort_by_Permutation l : Permutation (sort_by key l) l.
Proof.
  induction l as [|x l IH]; [done|]. cbn. fold (sort_by key l).
  rewrite insert_by_Permutation. by constructor.
Qed.

End SortFacts.

Section RegistrySort.
Import Js Validation Predicates CanonicalSorter.

Lemma find_none_Permutation {A} (f : A -> bool) (l l' : list A) :
  Permutation l l' -> List.find f l = None -> List.find f l' = None.
Proof.
  intros Hperm Hnone.
  destruct (List.find f l') as [x|] eqn:Hfind; [|done].
  apply find_some in Hfind as [Hin Hf].
  rewrite (find_none _ _ Hnone x) in Hf; [done|].
  apply list_elem_of_In. rewrite Hperm. by apply list_elem_of_In.
Qed.

(** What a registry is when its validation succeeds. *)
Lemma validateRegistry_ok registry :
  validateRegistry registry = Ok tt <->
  exists entries,
    registry = JObj entries
    /\ List.find (fun e => negb (Regex.test EXTENSION_ID_PATTERN e.1)) entries = None
    /\ List.find
         (fun e => missing_or_not TString (get e.2 (str "version"))
                   || missing_or_not TString (get e.2 (str "source")))
         entries = None.
Proof.
  unfold validateRegistry. split.
  - destruct registry as [| | | | | |entries]; try done.
    destruct (List.find _ entries) eqn:Hids; [done|].
    destruct (List.find _ entries) eqn:Hentries in |- *; [done|].
    intros _. by exists entries.
  - intros (entries & -> & -> & ->). done.
Qed.

Lemma validateRegistry_sorted entries :
  validateRegistry (JObj entries) = Ok tt ->
  validateRegistry (JObj (sort_by fst entries)) = Ok tt.
Proof.
  rewrite !validateRegistry_ok.
  intros (entries' & [= <-] & Hids & Hentries).
  exists (sort_by fst entries). split; [done|].
  pose proof (sort_by_Permutation fst entries) as Hperm. symmetry in Hperm.
  split; by eapply find_none_Permutation.
Qed.

Lemma sortExtensionsToml_inv registry sorted :
  sortExtensionsToml registry = Ok sorted ->
  exists entries,
    registry = JObj entries
    /\ validateRegistry registry = Ok tt
    /\ sorted = JObj (sort_by fst entries).
Proof.
  unfold sortExtensionsToml.
  destruct (validateRegistry registry) as [[]|e] eqn:Hv; [|done].
  pose proof (proj1 (validateRegistry_ok registry) Hv) as (entries & -> & _).
  intros [= <-]. by exists entries.
Qed.

Lemma sortExtensionsToml_idem registry sorted :
  sortExtensionsToml registry = Ok sorted ->
  sortExtensionsToml sorted = Ok sorted.
Proof.
  intros (entries & -> & Hv & ->)%sortExtensionsToml_inv.
  unfold sortExtensionsToml. rewrite (validateRegistry_sorted entries Hv).
  by rewrite sort_by_idem.
Qed.

End RegistrySort.

Section CanonicalOrder.
Import Js Validation Predicates CanonicalSorter.

Lemma code_inj a b : code a = code b -> a = b.
Proof.
  unfold code. intros H.
  rewrite <- (ascii_nat_embedding a), <- (ascii_nat_embedding b). by rewrite H.
Qed.

Lemma byte_leb_antisym a : forall b,
  byte_leb a b = true -> byte_leb b a = true -> a = b.
Proof.
  induction a as [|x a IH]; intros [|y b]; cbn [byte_leb]; try done.
  destruct (code x <? code y) eqn:Hxy, (code y <? code x) eqn:Hyx; try done.
  - apply Nat.ltb_lt in Hxy, Hyx. lia.
  - intros H1 H2. apply Nat.ltb_ge in Hxy, Hyx.
    rewrite (code_inj x y) by lia. f_equal. by apply IH.
Qed.

Lemma byte_leb_trans a : forall b c,
  byte_leb a b = true -> byte_leb b c = true -> byte_leb a c = true.
Proof.
  induction a as [|x a IH]; intros [|y b] [|z c]; cbn [byte_leb]; try done.
  destruct (code x <? code y) eqn:Hxy, (code y <? code x) eqn:Hyx;
    destruct (code y <? code z) eqn:Hyz, (code z <? code y) eqn:Hzy;
    destruct (code x <? code z) eqn:Hxz, (code z <? code x) eqn:Hzx;
    try done;
    repeat match goal with
      | H : (_ <? _) = true |- _ => apply Nat.ltb_lt in H
      | H : (_ <? _) = false |- _ => apply Nat.ltb_ge in H
      end; try lia.
  apply IH.
Qed.

(** The comparison is the lexicographic one. *)
Lemma byte_leb_lex a : forall b, byte_leb a b = true <-> lex_le a b.
Proof.
  induction a as [|x a IH]; intros b.
  - split; [|done]. intros _. left. by exists b.
  - destruct b as [|y b]; cbn [byte_leb].
    + split; [done|]. intros [[tail Htail]|(common & x' & y' & a' & b' & _ & Hb & _)].
      * done.
      * by destruct common.
    + destruct (code x <? code y) eqn:Hxy.
      { split; [|done]. intros _. right. exists [], x, y, a, b.
        apply Nat.ltb_lt in Hxy. done. }
      destruct (code y <? code x) eqn:Hyx.
      { split; [done|]. apply Nat.ltb_lt in Hyx. apply Nat.ltb_ge in Hxy.
        intros [[tail [= -> _]]|(common & x' & y' & a' & b' & Ha & Hb & Hlt)].
        - lia.
        - destruct common as [|c common]; cbn in Ha, Hb.
          + injection Ha as -> _. injection Hb as -> _. lia.
          + injection Ha as -> _. injection Hb as -> _. lia. }
      apply Nat.ltb_ge in Hxy, Hyx.
      assert (x = y) as -> by (apply code_inj; lia).
      rewrite IH. split.
      * intros [[tail ->]|(common & x' & y' & a' & b' & -> & -> & Hlt)].
        -- left. by exists tail.
        -- right. by exists (y :: common), x', y', a', b'.
      * intros [[tail [= ->]]|(common & x' & y' & a' & b' & Ha & Hb & Hlt)].
        -- left. by exists tail.
        -- destruct common as [|c common]; cbn in Ha, Hb.
           ++ injection Ha as -> _. injection Hb as -> _. lia.
           ++ injection Ha as _ ->. injection Hb as _ ->.
              right. by exists common, x', y', a', b'.
Qed.

End CanonicalOrder.

Section GitmodulesComplete.
Import Js Regex Validation Predicates.

(** The submodules of a valid result are complete. *)
Lemma valid_complete text r :
  validateGitmodules (JStr text) = Return r ->
  isValid r = true ->
  Forall complete_entry (submodules r).
Proof.
  intros Hr Hvalid. pose proof (valid_no_errors _ _ Hr Hvalid) as Hnil.
  assert (Hparsed : Forall parsed_entry (submodules r)).
  { destruct (validateGitmodules_inv _ _ Hr)
      as [(t & st & _ & Hst & -> & _)|[-> _]]; [|constructor].
    by apply (scan_lines_parsed _ _ _ _ Hst). }
  apply List.Forall_forall. intros sm Hsm.
  rewrite List.Forall_forall in Hparsed. specialize (Hparsed sm Hsm).
  assert (Hnone : forall e, ~ In e (check_submodule [] sm)).
  { intros e He. destruct (in_check_submodule _ _ _ _ Hr Hsm He) as [Hin _].
    by rewrite Hnil in Hin. }
  split; [done|]. split.
  - destruct (path sm) as [[|c p]|] eqn:Hp.
    + exfalso. apply (Hnone (missing_path_message (name sm))).
      apply in_check_submodule_iff. left. by rewrite Hp.
    + by exists (c :: p).
    + exfalso. apply (Hnone (missing_path_message (name sm))).
      apply in_check_submodule_iff. left. by rewrite Hp.
  - destruct (valid_urls_accepted _ _ Hr Hvalid sm Hsm) as (u & Hu & Hscheme).
    exists u. split; [done|]. split; [|done]. intros ->.
    apply (Hnone (missing_url_message (name sm))).
    apply in_check_submodule_iff. right. left. by rewrite Hu.
Qed.

End GitmodulesComplete.

Section GitmodulesSerialized.
Import Js Regex Validation Predicates.

Lemma trim_fixed c body s :
  is_space c = false -> trim_end s = s -> s <> [] ->
  trim (c :: body ++ s) = c :: body ++ s.
Proof.
  intros Hc Hs Hne. unfold trim. rewrite trim_start_head by done.
  change (c :: body ++ s) with ((c :: body) ++ s).
  rewrite trim_end_app; rewrite Hs; done.
Qed.

Lemma header_line_eq n :
  header_prefix ++ n ++ header_suffix
  = "["%char :: (str "submodule " ++ DQUOTE :: n ++ [DQUOTE]) ++ str "]".
Proof.
  unfold header_prefix, header_suffix.
  change (str "[submodule ") with ("["%char :: str "submodule ").
  cbn [app]. rewrite <- !app_assoc. cbn [app]. rewrite <- ?app_assoc.
  cbn [app]. reflexivity.
Qed.

Lemma trim_header_line n :
  trim (header_prefix ++ n ++ header_suffix) = header_prefix ++ n ++ header_suffix.
Proof. rewrite header_line_eq. apply trim_fixed; by vm_compute. Qed.

Lemma one_line_header n : one_line n -> one_line (header_prefix ++ n ++ header_suffix).
Proof. intros Hn. repeat apply one_line_app; done. Qed.

Lemma trim_indented_value c k p :
  is_space c = false -> clean p -> p <> [] ->
  trim (str "  " ++ c :: k ++ p) = c :: k ++ p.
Proof.
  intros Hc [_ Hp] Hne. rewrite trim_blanks_app by done.
  destruct (trimmed_sides p Hp) as [_ Hend]. by apply trim_fixed.
Qed.

Lemma exec_header_none line :
  starts_with (str "[") line = false -> exec SUBMODULE_HEADER line = None.
Proof.
  intros Hb. pose proof (test_header_bracket line) as H. unfold test in H.
  destruct (exec SUBMODULE_HEADER line); [|done]. rewrite H in Hb; done.
Qed.

Lemma starts_with_app k tail : starts_with k (k ++ tail) = true.
Proof.
  induction k as [|c k IH]; [done|]. cbn. unfold char_eqb.
  by rewrite Ascii.eqb_refl.
Qed.

Lemma exec_property_none key line :
  starts_with key line = false -> exec (property_pattern key) line = None.
Proof.
  intros Hk. destruct (exec (property_pattern key) line) as [m|] eqn:Hm; [|done].
  apply exec_property_some in Hm as (w1 & w2 & cap & _ & _ & _ & _ & -> & _).
  by rewrite starts_with_app in Hk.
Qed.

(** Blanks, then the equals sign: the sign is found in one place only. *)
Lemma blanks_split w : forall w' r r',
  blanks w -> blanks w' ->
  w ++ "="%char :: r = w' ++ "="%char :: r' -> w = w' /\ r = r'.
Proof.
  unfold blanks. induction w as [|c w IH]; intros [|c' w'] r r' Hw Hw' Heq;
    cbn in *.
  - by injection Heq as ->.
  - injection Heq as <- _. by apply andb_true_iff in Hw' as [? _].
  - injection Heq as -> _. by apply andb_true_iff in Hw as [? _].
  - injection Heq as -> Heq.
    apply andb_true_iff in Hw as [_ Hw]. apply andb_true_iff in Hw' as [_ Hw'].
    destruct (IH w' r r' Hw Hw' Heq) as [-> ->]. done.
Qed.

(** Reading back [key = value]: the group, once trimmed, is the value. *)
Lemma exec_property_value key p :
  clean p -> p <> [] ->
  exists m cap,
    exec (property_pattern key) (key ++ str " = " ++ p) = Some m
    /\ group1 m = Return cap /\ trim cap = p.
Proof.
  intros [Hone Htrim] Hne.
  destruct (exec_property_intro key (str " ") (str " ") p) as [m Hm]; try done.
  change (key ++ str " " ++ str "=" ++ str " " ++ p)
    with (key ++ str " = " ++ p) in Hm.
  exists m. pose proof Hm as Hshape.
  apply exec_property_some in Hshape
    as (w1 & w2 & cap & Hw1 & Hw2 & Hcne & Hcap & Heq & ->).
  exists cap. split; [done|]. split; [done|].
  apply app_inv_head in Heq.
  change (str " = " ++ p) with (str " " ++ "="%char :: str " " ++ p) in Heq.
  change (w1 ++ str "=" ++ w2 ++ cap) with (w1 ++ "="%char :: w2 ++ cap) in Heq.
  apply blanks_split in Heq as [_ Heq]; [|done..].
  rewrite <- (trim_blanks_app w2 cap Hw2), <- Heq.
  by rewrite (trim_blanks_app (str " ") p).
Qed.

Lemma scan_header_line i n st :
  n <> [] -> one_line n ->
  scan_line i (header_prefix ++ n ++ header_suffix) st
  = Return {| currentSubmodule :=
                Some {| name := n; lineNumber := i + 1; path := None; url := None |};
              scanned := collected st;
              scan_errors := scan_errors st |}.
Proof.
  intros Hne Hn. unfold scan_line. by rewrite exec_header_intro.
Qed.

Lemma scan_path_line i p st current :
  clean p -> p <> [] -> currentSubmodule st = Some current ->
  scan_line i (str "path = " ++ p) st
  = Return {| currentSubmodule :=
                Some {| name := name current; lineNumber := lineNumber current;
                        path := Some p; url := url current |};
              scanned := scanned st;
              scan_errors := scan_errors st |}.
Proof.
  intros Hp Hne Hc.
  destruct (exec_property_value (str "path") p Hp Hne) as (m & cap & Hm & Hg & Ht).
  change (str "path" ++ str " = " ++ p) with (str "path = " ++ p) in Hm.
  unfold scan_line. rewrite exec_header_none by done.
  unfold PATH_PROPERTY, URL_PROPERTY.
  rewrite Hm, (exec_property_none (str "url")), Hc, Hg by done.
  cbn [bind]. by rewrite Ht.
Qed.

Lemma scan_url_line i u st current :
  clean u -> u <> [] -> currentSubmodule st = Some current ->
  scan_line i (str "url = " ++ u) st
  = Return {| currentSubmodule :=
                Some {| name := name current; lineNumber := lineNumber current;
                        path := path current; url := Some u |};
              scanned := scanned st;
              scan_errors := scan_errors st |}.
Proof.
  intros Hu Hne Hc.
  destruct (exec_property_value (str "url") u Hu Hne) as (m & cap & Hm & Hg & Ht).
  change (str "url" ++ str " = " ++ u) with (str "url = " ++ u) in Hm.
  unfold scan_line. rewrite exec_header_none by done.
  unfold PATH_PROPERTY, URL_PROPERTY.
  rewrite Hm, (exec_property_none (str "path")), Hc, Hg by done.
  cbn [bind]. by rewrite Ht.
Qed.

(** Scanning the three lines of a complete entry collects the entry. *)
Lemma scan_entry sm i st :
  complete_entry sm ->
  exists sm',
    same_entry sm sm'
    /\ scan_lines i (entry_lines sm) st
       = Return {| currentSubmodule := Some sm';
                   scanned := collected st;
                   scan_errors := scan_errors st |}.
Proof.
  intros ((Hn1 & Hn2 & Hcp & Hcu) & (p & Hp & Hpne) & (u & Hu & Hune & _)).
  specialize (Hcp p Hp). specialize (Hcu u Hu).
  exists {| name := name sm; lineNumber := i + 1; path := Some p; url := Some u |}.
  split; [by repeat split|].
  unfold entry_lines. rewrite Hp, Hu.
  change (default [] (Some p)) with p. change (default [] (Some u)) with u.
  cbn [scan_lines].
  rewrite scan_header_line by done. cbn [bind].
  erewrite scan_path_line by (done || reflexivity). cbn [bind].
  erewrite scan_url_line by (done || reflexivity). cbn [bind].
  reflexivity.
Qed.

Lemma scan_entries sms :
  Forall complete_entry sms ->
  forall i st,
  exists st' sms',
    scan_lines i (flat_map entry_lines sms) st = Return st'
    /\ scan_errors st' = scan_errors st
    /\ collected st' = collected st ++ sms'
    /\ Forall2 same_entry sms sms'.
Proof.
  induction 1 as [|sm sms Hsm _ IH]; intros i st.
  - exists st, []. by rewrite app_nil_r.
  - cbn [flat_map]. rewrite scan_lines_app.
    destruct (scan_entry sm i st Hsm) as (sm' & Hsame & ->). cbn [bind].
    destruct (IH (i + length (entry_lines sm))
                 {| currentSubmodule := Some sm'; scanned := collected st;
                    scan_errors := scan_errors st |})
      as (st' & sms' & -> & Herr & Hcol & Hall).
    exists st', (sm' :: sms'). split; [done|]. split; [done|].
    split; [|by constructor].
    rewrite Hcol. unfold collected at 1. cbn [currentSubmodule scanned].
    by rewrite <- app_assoc.
Qed.

Lemma check_complete sm : complete_entry sm -> check_submodule [] sm = [].
Proof.
  intros (_ & (p & Hp & Hpne) & (u & Hu & Hune & Hscheme)).
  unfold check_submodule. rewrite Hp, Hu.
  destruct p as [|c p]; [done|]. destruct u as [|d u]; [done|].
  cbn [present negb push_if].
  by rewrite (proj2 (url_rejected_iff sm (d :: u) Hu Hune) Hscheme).
Qed.

Lemma same_entry_complete a b :
  same_entry a b -> complete_entry a -> complete_entry b.
Proof.
  intros (Hn & Hp & Hu). unfold complete_entry, parsed_entry.
  by rewrite Hn, Hp, Hu.
Qed.

End GitmodulesSerialized.

(** * Further properties *)

(** ** The selection loops *)

Section SelectionOrder.
Import Js Types Cli Predicates.

Lemma filter_sublist_impl {A} (P Q : A -> Prop)
    `{!∀ x, Decision (P x)} `{!∀ x, Decision (Q x)} (l : list A) :
  (forall x, x ∈ l -> P x -> Q x) -> filter P l `sublist_of` filter Q l.
Proof.
  induction l as [|a l IH]; intros Himp; [done|].
  assert (Hl : forall x, x ∈ l -> P x -> Q x).
  { intros x Hx. apply Himp. by apply list_elem_of_further. }
  rewrite !filter_cons. destruct (decide (P a)) as [Hp|Hp].
  - rewrite decide_True by (apply Himp; [apply list_elem_of_here | done]).
    apply sublist_skip. by apply IH.
  - destruct (decide (Q a)); [apply sublist_cons|]; by apply IH.
Qed.

Lemma filter_all {A} (P : A -> Prop) `{!∀ x, Decision (P x)} (l : list A) :
  filter P l = l <-> Forall P l.
Proof.
  induction l as [|a l IH]; [done|]. rewrite filter_cons. split.
  - destruct (decide (P a)) as [Hp|Hp].
    + intros [= Hf]. constructor; [done | by apply IH].
    + intros Hf. assert (Hlen : length (filter P l) = length (a :: l)) by by rewrite Hf.
      pose proof (length_filter P l) as Hle. cbn in Hlen. lia.
  - inversion 1 as [|? ? Hp Hl]; subst. rewrite decide_True by done.
    f_equal. by apply IH.
Qed.

Lemma filter_length_all {A} (P : A -> Prop) `{!∀ x, Decision (P x)} (l : list A) :
  length (filter P l) = length l -> Forall P l.
Proof.
  induction l as [|a l IH]; [done|]. rewrite filter_cons.
  pose proof (length_filter P l) as Hle.
  destruct (decide (P a)) as [Hp|Hp]; cbn; intros Hlen.
  - constructor; [done|]. apply IH. lia.
  - lia.
Qed.

Lemma filter_none {A} (P : A -> Prop) `{!∀ x, Decision (P x)} (l : list A) :
  filter P l = [] <-> Forall (fun x => ~ P x) l.
Proof.
  induction l as [|a l IH]; [done|]. rewrite filter_cons. split.
  - destruct (decide (P a)); [done|]. intros Hf. constructor; [done | by apply IH].
  - inversion 1 as [|? ? Hp Hl]; subst. rewrite decide_False by done. by apply IH.
Qed.

Lemma fmap_fst_nil {A B} (l : list (A * B)) : l.*1 = [] <-> l = [].
Proof. by destruct l. Qed.

(** With nothing published, every id is selected. *)
Lemma unpublished_none_published index (toml : ExtensionsToml) :
  (forall extensionId, published_versions index extensionId = ∅) ->
  (unpublishedExtensionIds index toml).2 = toml.*1.
Proof.
  intros Hnone. rewrite unpublished_eq. f_equal. apply filter_all.
  apply Forall_forall. intros e _. rewrite Hnone. apply has_empty.
Qed.

Lemma unpublished_logged index (toml : ExtensionsToml) :
  (unpublishedExtensionIds index toml).1
  = str "Extensions needing to be published: "
    ++ join (str ", ") (unpublishedExtensionIds index toml).2.
Proof. reflexivity. Qed.

Lemma has_mono (versions versions' : gset jsstring) v :
  versions ⊆ versions' -> has versions v = true -> has versions' v = true.
Proof.
  intros Hsub (s & -> & Hin)%has_inv. apply has_string. by apply Hsub.
Qed.

(** X1: the ids unpublishedExtensionIds returns are a subsequence of the
    ids of the registry, in registry order; and publishing more never adds
    to them: with an index that holds every version of another, the result
    is a subsequence of the result for that other. *)
Theorem unpublishedExtensionIds_antitone
    (index index' : gmap jsstring (gset jsstring)) (toml : ExtensionsToml) :
  (forall extensionId,
     published_versions index extensionId ⊆ published_versions index' extensionId) ->
  (unpublishedExtensionIds index' toml).2
    `sublist_of` (unpublishedExtensionIds index toml).2
  /\ (unpublishedExtensionIds index toml).2 `sublist_of` toml.*1.
Proof.
  intros Hsub. rewrite !unpublished_eq. split.
  - apply fmap_sublist, filter_sublist_impl. intros e _ Hnew.
    apply not_true_iff_false. intros Hold. apply not_true_iff_false in Hnew.
    apply Hnew. by apply (has_mono _ _ _ (Hsub e.1)).
  - apply fmap_sublist, sublist_filter.
Qed.

Lemma unpublishedExtensionIds_antitone_witness :
  (unpublishedExtensionIds
     {[ str "a" := {[ str "v1.0.0"; str "v1.1.0" ]}; str "b" := {[ str "v2.0.0" ]} ]}
     [entry "a" "v1.1.0"; entry "b" "v2.0.0"; entry "c" "v3.0.0"]).2
    `sublist_of`
  (unpublishedExtensionIds
     {[ str "a" := {[ str "v1.0.0" ]} ]}
     [entry "a" "v1.1.0"; entry "b" "v2.0.0"; entry "c" "v3.0.0"]).2.
Proof.
  apply (unpublishedExtensionIds_antitone
           {[ str "a" := {[ str "v1.0.0" ]} ]}
           {[ str "a" := {[ str "v1.0.0"; str "v1.1.0" ]};
              str "b" := {[ str "v2.0.0" ]} ]}).
  intros extensionId. unfold published_versions.
  destruct (decide (extensionId = str "a")) as [->|Hne].
  - apply (bool_decide_unpack _). vm_compute. reflexivity.
  - rewrite (lookup_singleton_ne (M := gmap jsstring)) by done. cbn [default].
    apply empty_subseteq.
Defined.

(** X2: with an empty index, which is what the index is when the
    credentials are not configured, unpublishedExtensionIds returns every id
    of the registry; and its result is empty exactly when the version of
    every entry is a string that the index holds for the id of the entry. *)
Theorem unpublishedExtensionIds_all_or_nothing :
  (forall toml : ExtensionsToml, (unpublishedExtensionIds ∅ toml).2 = toml.*1)
  /\ (forall index (toml : ExtensionsToml),
        (unpublishedExtensionIds index toml).2 = [] <->
        forall extensionId info,
          (extensionId, info) ∈ toml ->
          exists s, version info = JStr s
                    /\ s ∈ published_versions index extensionId).
Proof.
  split.
  - intros toml. apply unpublished_none_published. intros extensionId.
    unfold published_versions. by rewrite lookup_empty.
  - intros index toml. rewrite unpublished_eq, fmap_fst_nil, filter_none.
    rewrite Forall_forall. split.
    + intros H k info Hin. specialize (H (k, info) Hin). cbn in H.
      apply has_inv. by apply not_false_iff_true.
    + intros H [k info] Hin. cbn. apply not_false_iff_true, has_inv.
      by apply H.
Qed.

Lemma lookup_extension_Some k info (toml : ExtensionsToml) :
  lookup_extension k toml = Some info -> (k, info) ∈ toml.
Proof.
  induction toml as [|[k' info'] toml IH]; cbn; [done|].
  unfold string_eqb. case_bool_decide as Hk.
  - intros [= ->]. subst. apply list_elem_of_here.
  - intros H. apply list_elem_of_further. by apply IH.
Qed.

Lemma lookup_extension_NoDup k info (toml : ExtensionsToml) :
  NoDup toml.*1 -> (k, info) ∈ toml -> lookup_extension k toml = Some info.
Proof.
  induction toml as [|[k' info'] toml IH]; cbn; intros Hnd Hin.
  - by apply elem_of_nil in Hin.
  - apply NoDup_cons in Hnd as [Hk' Hnd]. unfold string_eqb.
    apply elem_of_cons in Hin as [[= -> ->]|Hin].
    + by rewrite bool_decide_eq_true_2.
    + case_bool_decide as Hk; [|by apply IH]. subst. exfalso. apply Hk'.
      by apply (list_elem_of_fmap_2 fst _ (k, info)).
Qed.

(** X3: changedExtensionIds returns nothing exactly when, for every entry
    of the registry, the version of the entry is strictly equal to the
    version the reference records under its id, [undefined] if it records
    none.  Against an empty reference it returns the ids of the entries
    that have a version, so the id of an entry without one is left out, and
    every id when each entry has a version. *)
Theorem changedExtensionIds_all_or_nothing :
  (forall main toml : ExtensionsToml,
     (changedExtensionIds main toml).2 = [] <->
     forall extensionId info,
       (extensionId, info) ∈ toml ->
       strict_equals (version_in main extensionId) (version info) = true)
  /\ (forall toml : ExtensionsToml,
        (changedExtensionIds [] toml).2
        = (filter (λ e, versioned e.2 = true) toml).*1)
  /\ (forall toml : ExtensionsToml,
        (changedExtensionIds [] toml).2 = toml.*1 <->
        forall extensionId info,
          (extensionId, info) ∈ toml -> version info <> JUndefined)
  /\ (changedExtensionIds [] [versionless "fresh"; entry "other" "v1.0.0"]).2
     = [str "other"].
Proof.
  assert (Hempty : forall toml : ExtensionsToml,
    (changedExtensionIds [] toml).2
    = (filter (λ e, versioned e.2 = true) toml).*1).
  { intros toml. rewrite changed_eq. f_equal. apply list_filter_iff.
    intros [k info]. cbn. unfold versioned. by destruct (version info). }
  split; [|split; [done|split]].
  - intros main toml. rewrite changed_eq, fmap_fst_nil, filter_none.
    rewrite Forall_forall. split.
    + intros H k info Hin. specialize (H (k, info) Hin). cbn in H.
      by apply not_false_iff_true.
    + intros H [k info] Hin. cbn. apply not_false_iff_true. by apply H.
  - intros toml. rewrite Hempty. split.
    + intros Heq k info Hin.
      assert (Hall : Forall (λ e, versioned e.2 = true) toml).
      { apply (filter_length_all (λ e : jsstring * ExtensionInfo, versioned e.2 = true)).
        apply (f_equal length) in Heq. by rewrite !length_fmap in Heq. }
      rewrite Forall_forall in Hall. specialize (Hall (k, info) Hin).
      cbn [snd] in Hall. unfold versioned in Hall. intros Hundef.
      by rewrite Hundef in Hall.
    + intros Hall. f_equal. apply filter_all. apply Forall_forall.
      intros [k info] Hin. cbn. specialize (Hall k info Hin).
      unfold versioned. by destruct (version info).
  - by vm_compute.
Qed.

(** X4: changedExtensionIds reads nothing but ids and versions.  A registry
    that has, entry for entry, the ids and versions of the reference (ids
    pairwise distinct) has no changed id, whatever became of the submodule
    and path of its entries; in particular no id of a registry is changed
    from that registry.  Versions are the same when they are strictly
    equal. *)
Theorem changedExtensionIds_version_only (main toml : ExtensionsToml) :
  NoDup main.*1 ->
  Forall2 same_version main toml ->
  (changedExtensionIds main toml).2 = []
  /\ (changedExtensionIds main main).2 = [].
Proof.
  intros Hnd Hsame.
  assert (Hgen : forall other : ExtensionsToml,
    Forall2 same_version main other -> (changedExtensionIds main other).2 = []).
  { intros other Hother. rewrite changed_eq, fmap_fst_nil, filter_none.
    rewrite Forall_forall. intros [k info] Hin. apply not_false_iff_true. cbn.
    apply list_elem_of_lookup in Hin as [i Hi].
    destruct (Forall2_lookup_r _ _ _ _ _ Hother Hi) as ([k0 info0] & H0 & Hk & Hv).
    cbn in Hk, Hv. subst k0. unfold version_in.
    rewrite (lookup_extension_NoDup k info0 main Hnd); [done|].
    by apply list_elem_of_lookup_2 in H0. }
  split; [by apply Hgen|]. apply Hgen.
  apply Forall2_same_length_lookup_2; [done|].
  intros i x y Hx Hy. rewrite Hx in Hy. injection Hy as ->.
  split; [done|].
  destruct (Forall2_lookup_l _ _ _ _ _ Hsame Hx) as (z & _ & _ & Hv).
  by apply strict_equals_left in Hv.
Qed.

Lemma changedExtensionIds_version_only_witness :
  (changedExtensionIds
     [entry "a" "v1.0.0"; entry "b" "v2.0.0"]
     [(str "a", {| id := JStr (str "a"); version := JStr (str "v1.0.0");
                   submodule := JStr (str "extensions/a");
                   Types.path := JStr (str "sub") |});
      entry "b" "v2.0.0"]).2 = [].
Proof.
  apply (changedExtensionIds_version_only
           [entry "a" "v1.0.0"; entry "b" "v2.0.0"]).
  - apply (bool_decide_unpack _). vm_compute. reflexivity.
  - repeat constructor.
Defined.

End SelectionOrder.

(** ** The index of published versions *)

Section ObjectKeys.
Import Js Regex Validation Types Cli Predicates.

Lemma OBJECT_KEY_eq :
  OBJECT_KEY =
  RSeq RBegin
    (RSeq (RGroup (RPlus (RSet word_char)))
       (RSeq (RChr "/")
          (RSeq (RGroup (RPlus (RSet not_slash)))
             (RSeq (RChr "/") (RSeq (RPlus (RSet not_slash)) REnd))))).
Proof. reflexivity. Qed.

(** The ways [/^(\w+)\/([^\/]+)\/[^\/]+$/] matches a key. *)
Lemma in_run_object_key key x :
  In x (run (RSeq (RGroup (RPlus (RSet word_char)))
              (RSeq (RChr "/")
                 (RSeq (RGroup (RPlus (RSet not_slash)))
                    (RSeq (RChr "/") (RSeq (RPlus (RSet not_slash)) REnd)))))
            true key) <->
  exists extensionId v,
    names_version extensionId v key
    /\ x = Candidate key [] [Some extensionId; Some v].
Proof.
  rewrite in_run_seq. split.
  - intros (a1 & y1 & Ha1 & Hy1 & ->).
    apply in_run_group in Ha1 as (g1 & Hg1 & ->). cbn [rest consumed groups] in *.
    apply in_run_plus_set in Hg1 as (w1 & Hne1 & Hw1 & Hs1 & Hc1 & Hgr1).
    apply in_run_seq in Hy1 as (a2 & y2 & Ha2 & Hy2 & ->).
    apply in_run_chr in Ha2 as (s2 & Hs2 & ->). cbn [rest consumed groups] in *.
    apply in_run_seq in Hy2 as (a3 & y3 & Ha3 & Hy3 & ->).
    apply in_run_group in Ha3 as (g3 & Hg3 & ->). cbn [rest consumed groups] in *.
    apply in_run_plus_set in Hg3 as (w3 & Hne3 & Hw3 & Hs3 & Hc3 & Hgr3).
    apply in_run_seq in Hy3 as (a4 & y4 & Ha4 & Hy4 & ->).
    apply in_run_chr in Ha4 as (s4 & Hs4 & ->). cbn [rest consumed groups] in *.
    apply in_run_seq in Hy4 as (a5 & y5 & Ha5 & Hy5 & ->).
    apply in_run_plus_set in Ha5 as (w5 & Hne5 & Hw5 & Hs5 & Hc5 & Hgr5).
    apply in_run_end in Hy5 as [Hend ->]. cbn [rest consumed groups].
    rewrite Hend, app_nil_r in Hs5.
    rewrite Hc1, Hgr1, Hc3, Hgr3, Hc5, Hgr5, !app_nil_r.
    rewrite Hs5 in Hs4. rewrite Hs4 in Hs3. rewrite Hs3 in Hs2.
    rewrite Hs2 in Hs1.
    exists w1, w3. split; [exists w5; by rewrite Hs1|]. cbn [app]. by rewrite Hs1.
  - intros (w1 & w3 & (w5 & -> & Hne1 & Hw1 & Hne3 & Hw3 & Hne5 & Hw5) & ->).
    exists (Candidate w1 (str "/" ++ w3 ++ str "/" ++ w5) [Some w1]).
    exists (Candidate (str "/" ++ w3 ++ str "/" ++ w5) [] [Some w3]).
    split; [|split; [|done]].
    { apply in_run_group. exists (Candidate w1 (str "/" ++ w3 ++ str "/" ++ w5) []).
      split; [|done]. apply in_run_plus_set. by exists w1. }
    cbn [rest consumed]. apply in_run_seq.
    exists (Candidate (str "/") (w3 ++ str "/" ++ w5) []).
    exists (Candidate (w3 ++ str "/" ++ w5) [] [Some w3]).
    split; [apply in_run_chr; by eexists|]. split; [|done].
    cbn [rest consumed]. apply in_run_seq.
    exists (Candidate w3 (str "/" ++ w5) [Some w3]).
    exists (Candidate (str "/" ++ w5) [] []).
    split; [|split; [|done]].
    { apply in_run_group. exists (Candidate w3 (str "/" ++ w5) []).
      split; [|done]. apply in_run_plus_set. by exists w3. }
    cbn [rest consumed]. apply in_run_seq.
    exists (Candidate (str "/") w5 []), (Candidate w5 [] []).
    split; [apply in_run_chr; by eexists|]. split; [|done].
    cbn [rest consumed]. apply in_run_seq.
    exists (Candidate w5 [] []), (Candidate [] [] []).
    split; [|split; [by apply in_run_end | by rewrite app_nil_r]].
    apply in_run_plus_set. exists w5. by rewrite app_nil_r.
Qed.

Lemma word_char_not_slash c : word_char c = true -> not_slash c = true.
Proof.
  destruct c as [[] [] [] [] [] [] [] []]; vm_compute; intros H;
    first [reflexivity | discriminate H].
Qed.

(** A string is cut at its first slash in one way only. *)
Lemma first_slash_unique a : forall a' r r',
  forallb not_slash a = true -> forallb not_slash a' = true ->
  a ++ "/"%char :: r = a' ++ "/"%char :: r' -> a = a' /\ r = r'.
Proof.
  induction a as [|c a IH]; intros [|c' a'] r r' Ha Ha' Heq; cbn in *.
  - by injection Heq as ->.
  - injection Heq as <- _. apply andb_true_iff in Ha' as [Hc _]. done.
  - injection Heq as -> _. apply andb_true_iff in Ha as [Hc _]. done.
  - injection Heq as -> Heq.
    apply andb_true_iff in Ha as [_ Ha]. apply andb_true_iff in Ha' as [_ Ha'].
    destruct (IH a' r r' Ha Ha' Heq) as [-> ->]. done.
Qed.

Lemma forallb_word_not_slash w :
  forallb word_char w = true -> forallb not_slash w = true.
Proof.
  rewrite !forallb_forall. intros H c Hc. by apply word_char_not_slash, H.
Qed.

(** A key names at most one id and version. *)
Lemma names_version_unique id v id' v' key :
  names_version id v key -> names_version id' v' key -> id = id' /\ v = v'.
Proof.
  intros (f & -> & _ & Hid & _ & Hv & _) (f' & Heq & _ & Hid' & _ & Hv' & _).
  apply forallb_word_not_slash in Hid, Hid'.
  apply (first_slash_unique _ _ _ _ Hid Hid') in Heq as [-> Heq].
  apply (first_slash_unique _ _ _ _ Hv Hv') in Heq as [-> _]. done.
Qed.

Lemma exec_object_key_some key m :
  exec OBJECT_KEY key = Some m <->
  exists extensionId v,
    names_version extensionId v key
    /\ m = Candidate key [] [Some extensionId; Some v].
Proof.
  rewrite OBJECT_KEY_eq. split.
  - intros H. by apply exec_anchored_in, in_run_object_key in H.
  - intros (id & v & Hkey & ->).
    assert (Hin : In (Candidate key [] [Some id; Some v])
                     (run (RSeq (RGroup (RPlus (RSet word_char)))
                             (RSeq (RChr "/")
                                (RSeq (RGroup (RPlus (RSet not_slash)))
                                   (RSeq (RChr "/")
                                      (RSeq (RPlus (RSet not_slash)) REnd)))))
                          true key)).
    { apply in_run_object_key. by exists id, v. }
    destruct (exec_anchored_some _ _ _ Hin) as [y Hy]. rewrite Hy. f_equal.
    apply exec_anchored_in, in_run_object_key in Hy as (id' & v' & Hkey' & ->).
    destruct (names_version_unique _ _ _ _ _ Hkey Hkey') as [-> ->]. done.
Qed.

Lemma exec_object_key_none key :
  exec OBJECT_KEY key = None <->
  forall extensionId v, ~ names_version extensionId v key.
Proof.
  split.
  - intros Hnone id v Hkey.
    assert (exec OBJECT_KEY key = Some (Candidate key [] [Some id; Some v])) as Hsome.
    { apply exec_object_key_some. by exists id, v. }
    congruence.
  - intros Hno. destruct (exec OBJECT_KEY key) as [m|] eqn:Hm; [|done].
    apply exec_object_key_some in Hm as (id & v & Hkey & _).
    by destruct (Hno id v).
Qed.

Lemma slashes_app a b : slashes (a ++ b) = slashes a + slashes b.
Proof. unfold slashes. by rewrite List.filter_app, length_app. Qed.

Lemma slashes_none w : forallb not_slash w = true -> slashes w = 0.
Proof.
  unfold slashes. induction w as [|c w IH]; [done|]. cbn.
  intros [Hc Hw]%andb_true_iff. unfold not_slash in Hc.
  apply negb_true_iff in Hc. rewrite Hc. by apply IH.
Qed.

Lemma names_version_slashes id v key : names_version id v key -> slashes key = 2.
Proof.
  intros (f & -> & _ & Hid & _ & Hv & _ & Hf).
  apply forallb_word_not_slash in Hid.
  rewrite !slashes_app, (slashes_none id), (slashes_none v), (slashes_none f) by done.
  reflexivity.
Qed.

(** X5: the keys [/^(\w+)\/([^\/]+)\/[^\/]+$/] matches are those of the
    shape id/version/file, three non-empty segments without a slash, the
    first of letters, digits and underscores only; the groups of the match
    are that id and that version, which the key determines; and a key
    matches only if it has exactly two slashes. *)
Theorem OBJECT_KEY_shape (key : jsstring) :
  (forall m,
     exec OBJECT_KEY key = Some m <->
     exists extensionId v,
       names_version extensionId v key
       /\ m = Candidate key [] [Some extensionId; Some v])
  /\ (forall extensionId v extensionId' v',
        names_version extensionId v key -> names_version extensionId' v' key ->
        extensionId = extensionId' /\ v = v')
  /\ (test OBJECT_KEY key = true -> slashes key = 2).
Proof.
  split; [apply exec_object_key_some|].
  split; [intros a v a' v'; apply names_version_unique|].
  unfold test. destruct (exec OBJECT_KEY key) as [m|] eqn:Hm; [|done].
  intros _. apply exec_object_key_some in Hm as (id & v & Hkey & _).
  by apply names_version_slashes in Hkey.
Qed.

Lemma OBJECT_KEY_shape_witness :
  slashes (str "base16/0.1.0/archive.tar.gz") = 2.
Proof.
  apply (OBJECT_KEY_shape (str "base16/0.1.0/archive.tar.gz")).
  vm_compute. reflexivity.
Defined.

End ObjectKeys.

Section PublishedIndex.
Import Js Regex Validation Types Cli Predicates.

Lemma published_versions_insert (index : gmap jsstring (gset jsstring)) k s k' :
  published_versions (<[k := s]> index) k'
  = if decide (k = k') then s else published_versions index k'.
Proof.
  unfold published_versions. destruct (decide (k = k')) as [->|Hne].
  - by rewrite lookup_insert_eq.
  - by rewrite lookup_insert_ne.
Qed.

Lemma names_version_nonempty extensionId v : ~ names_version extensionId v [].
Proof. intros (f & Heq & Hne & _). by destruct extensionId. Qed.

(** One object adds the version its key names, and nothing else. *)
Lemma record_object_spec index object :
  exists index',
    record_object index object = Return index'
    /\ forall extensionId v,
         v ∈ published_versions index' extensionId <->
         v ∈ published_versions index extensionId
         \/ names_version extensionId v (Key object).
Proof.
  unfold record_object. destruct (Key object) as [|c key] eqn:Hkey.
  { exists index. split; [done|]. intros k v. split; [by left|].
    intros [H|H]; [done|]. by apply names_version_nonempty in H. }
  cbn [present negb]. rewrite <- Hkey.
  destruct (exec OBJECT_KEY (Key object)) as [m|] eqn:Hm.
  - apply exec_object_key_some in Hm as (k0 & v0 & Hnames & ->).
    cbn [captured group groups nth_error default bind].
    eexists. split; [reflexivity|]. intros k v.
    assert (Hiff : names_version k v (Key object) <-> k0 = k /\ v = v0).
    { split.
      - intros H. destruct (names_version_unique _ _ _ _ _ Hnames H). by subst.
      - by intros [<- ->]. }
    rewrite Hiff.
    destruct (index !! k0) as [s|] eqn:Hk0; cbn [is_some negb].
    + rewrite Hk0, published_versions_insert.
      destruct (decide (k0 = k)) as [<-|Hne].
      * unfold published_versions. rewrite Hk0. cbn [default].
        rewrite elem_of_union, elem_of_singleton. intuition.
      * tauto.
    + rewrite lookup_insert_eq, published_versions_insert.
      destruct (decide (k0 = k)) as [<-|Hne].
      * unfold published_versions. rewrite Hk0. cbn [default].
        rewrite elem_of_union, elem_of_singleton. intuition.
      * rewrite published_versions_insert, decide_False by done. tauto.
  - exists index. split; [done|]. intros k v. split; [by left|].
    intros [H|H]; [done|]. rewrite exec_object_key_none in Hm. by apply Hm in H.
Qed.

Lemma record_objects_spec bucketList : forall index,
  exists index',
    record_objects index bucketList = Return index'
    /\ forall extensionId v,
         v ∈ published_versions index' extensionId <->
         v ∈ published_versions index extensionId
         \/ exists object, In object bucketList
                           /\ names_version extensionId v (Key object).
Proof.
  induction bucketList as [|object bucketList IH]; intros index; cbn [record_objects].
  - exists index. split; [done|]. intros k v. split; [by left|].
    by intros [H|(o & [] & _)].
  - destruct (record_object_spec index object) as (index1 & -> & H1). cbn [bind].
    destruct (IH index1) as (index' & -> & H'). exists index'. split; [done|].
    intros k v. rewrite H', H1. split.
    + intros [[H|H]|(o & Hin & H)]; [by left | right..].
      * exists object. split; [by left | done].
      * exists o. split; [by right | done].
    + intros [H|(o & [<-|Hin] & H)]; [by left; left | by left; right |].
      right. by exists o.
Qed.

Lemma published_versions_empty extensionId : published_versions ∅ extensionId = ∅.
Proof. unfold published_versions. by rewrite lookup_empty. Qed.

Lemma record_objects_empty bucketList :
  exists index,
    record_objects ∅ bucketList = Return index
    /\ forall extensionId v,
         v ∈ published_versions index extensionId <->
         exists object, In object bucketList
                        /\ names_version extensionId v (Key object).
Proof.
  destruct (record_objects_spec bucketList ∅) as (index & Hrun & Hspec).
  exists index. split; [done|]. intros k v. rewrite Hspec, published_versions_empty.
  split; [intros [H|H]; [by apply elem_of_empty in H | done] | by right].
Qed.

(** X6: building the index never fails, whatever the bucket lists; and the
    index holds version [v] under [extensionId] exactly when some listed
    object has a key of the shape [extensionId/v/file]. *)
Theorem record_objects_index (bucketList : list S3Object) :
  exists index,
    record_objects ∅ bucketList = Return index
    /\ forall extensionId v,
         v ∈ published_versions index extensionId <->
         exists object, In object bucketList
                        /\ names_version extensionId v (Key object).
Proof. apply record_objects_empty. Qed.

End PublishedIndex.

Section Listing.
Import Js Regex Validation Types Cli Predicates.
Context {W : Type} (listObjectsV2 : ListObjectsV2 W).

(** One turn of the listing loop. *)
Lemma list_bucket_step fuel s3 bucket token bucketList w :
  list_bucket listObjectsV2 (S fuel) s3 bucket token bucketList w =
  match listObjectsV2 s3 {| Bucket := bucket; ContinuationToken := token |} w with
  | (Throw e, w') => Some (Throw e, w')
  | (Return response, w') =>
      if present (NextContinuationToken response)
      then list_bucket listObjectsV2 fuel s3 bucket (NextContinuationToken response)
             (bucketList ++ objects_of response) w'
      else Some (Return (bucketList ++ objects_of response), w')
  end.
Proof.
  cbn [list_bucket].
  destruct (listObjectsV2 s3 _ w) as [[response|e] w']; [|done].
  assert (Hlist : match Contents response with
                  | Some listed =>
                      bucketList
                      ++ map (fun obj => {| Key := key_or_empty (listed_Key obj);
                                            LastModified := listed_LastModified obj |})
                             listed
                  | None => bucketList
                  end = bucketList ++ objects_of response).
  { unfold objects_of. destruct (Contents response); [done | by rewrite app_nil_r]. }
  rewrite Hlist.
  destruct (present (NextContinuationToken response)) eqn:Htoken; [by rewrite Htoken|].
  done.
Qed.

(** A listing fails only with the failure of one of its requests. *)
Lemma list_bucket_throws fuel : forall s3 bucket token bucketList w e w',
  list_bucket listObjectsV2 fuel s3 bucket token bucketList w = Some (Throw e, w') ->
  exists request w0,
    Bucket request = bucket /\ listObjectsV2 s3 request w0 = (Throw e, w').
Proof.
  induction fuel as [|fuel IH]; intros s3 bucket token bucketList w e w'; [done|].
  rewrite list_bucket_step.
  destruct (listObjectsV2 s3 _ w) as [[response|e0] w0] eqn:Hsend.
  - destruct (present (NextContinuationToken response)); [apply IH | done].
  - intros [= -> ->]. eexists _, w. split; [|exact Hsend]. done.
Qed.

(** More fuel does not change the outcome of a listing that ended. *)
Lemma list_bucket_fuel fuel : forall fuel' s3 bucket token bucketList w r,
  fuel <= fuel' ->
  list_bucket listObjectsV2 fuel s3 bucket token bucketList w = Some r ->
  list_bucket listObjectsV2 fuel' s3 bucket token bucketList w = Some r.
Proof.
  induction fuel as [|fuel IH]; intros [|fuel'] s3 bucket token bucketList w r Hle;
    [done | done | lia |].
  rewrite !list_bucket_step.
  destruct (listObjectsV2 s3 _ w) as [[response|e0] w0]; [|done].
  destruct (present (NextContinuationToken response)); [|done].
  apply IH. lia.
Qed.

End Listing.

Section Pagination.
Import Js Regex Validation Types Cli Predicates.

(** Against a store that serves [pages], each with a continuation token,
    and then a page without one, the loop asks once for each page and
    collects the objects of all of them in order. *)
Lemma list_bucket_scripted pages : forall fuel last more s3 bucket token bucketList log,
  Forall (fun page => present (NextContinuationToken page) = true) pages ->
  present (NextContinuationToken last) = false ->
  length pages < fuel ->
  list_bucket scripted fuel s3 bucket token bucketList (pages ++ last :: more, log)
  = Some (Return (bucketList ++ flat_map objects_of (pages ++ [last])),
          (more, log ++ requests bucket token pages)).
Proof.
  induction pages as [|page pages IH];
    intros [|fuel] last more s3 bucket token bucketList log Hpages Hlast Hfuel;
    cbn [length] in Hfuel; try lia.
  - rewrite list_bucket_step. cbn [scripted app fst snd]. rewrite Hlast.
    cbn [flat_map]. by rewrite app_nil_r.
  - inversion Hpages as [|? ? Hpage Hrest]; subst.
    rewrite list_bucket_step. cbn [scripted app fst snd]. rewrite Hpage.
    rewrite (IH fuel) by (done || lia). cbn [flat_map app].
    unfold requests. cbn [map]. by rewrite <- !app_assoc.
Qed.

Lemma configured_true env :
  configured env = true ->
  negb (present (S3_ACCESS_KEY env)) || negb (present (S3_SECRET_KEY env))
  || negb (present (S3_BUCKET env)) = false.
Proof.
  unfold configured. intros [[-> ->]%andb_true_iff ->]%andb_true_iff. done.
Qed.

Lemma configured_false env :
  configured env = false ->
  negb (present (S3_ACCESS_KEY env)) || negb (present (S3_SECRET_KEY env))
  || negb (present (S3_BUCKET env)) = true.
Proof.
  unfold configured.
  destruct (present (S3_ACCESS_KEY env)), (present (S3_SECRET_KEY env)),
    (present (S3_BUCKET env)); done.
Qed.

(** X7: getPublishedVersionsByExtensionId pages through the whole listing.
    Against a store that serves pages with a continuation token and then
    one without (none, or the empty string), it sends one request per page,
    the first without a token and each later one with the token of the
    page before, all for the bucket of the environment; and the index it
    returns holds version [v] under [extensionId] exactly when an object of
    one of those pages has a key of the shape [extensionId/v/file]. *)
Theorem getPublishedVersionsByExtensionId_pages
    (env : ProcessEnv) (pages : list ListObjectsV2Output)
    (last : ListObjectsV2Output) (more : list ListObjectsV2Output)
    (log : list ListObjectsV2Request) (fuel : nat) :
  configured env = true ->
  Forall (fun page => present (NextContinuationToken page) = true) pages ->
  present (NextContinuationToken last) = false ->
  length pages < fuel ->
  exists index,
    getPublishedVersionsByExtensionId scripted fuel env (pages ++ last :: more, log)
    = Some (Return ([], index),
            (more, log ++ requests (default [] (S3_BUCKET env)) None pages))
    /\ forall extensionId v,
         v ∈ published_versions index extensionId <->
         exists object,
           In object (flat_map objects_of (pages ++ [last]))
           /\ names_version extensionId v (Key object).
Proof.
  intros Henv Hpages Hlast Hfuel. unfold getPublishedVersionsByExtensionId.
  rewrite (configured_true env Henv).
  rewrite (list_bucket_scripted pages fuel last more) by done. cbn [app].
  destruct (record_objects_empty (flat_map objects_of (pages ++ [last])))
    as (index & -> & Hindex).
  by exists index.
Qed.

Lemma getPublishedVersionsByExtensionId_pages_witness :
  let env := {| S3_ACCESS_KEY := Some (str "k"); S3_SECRET_KEY := Some (str "s");
                S3_BUCKET := Some (str "b"); SHOULD_PUBLISH := None;
                S3_ENDPOINT := None; S3_REGION := None |} in
  let page1 := {| Contents := Some [{| listed_Key := Some (str "a/1.0.0/x");
                                       listed_LastModified := None |}];
                  NextContinuationToken := Some (str "t1") |} in
  let page2 := {| Contents := Some [{| listed_Key := Some (str "b/2.0.0/y");
                                       listed_LastModified := None |}];
                  NextContinuationToken := Some [] |} in
  exists index,
    getPublishedVersionsByExtensionId scripted 2 env ([page1; page2], [])
    = Some (Return ([], index),
            ([], [{| Bucket := str "b"; ContinuationToken := None |};
                  {| Bucket := str "b"; ContinuationToken := Some (str "t1") |}])).
Proof.
  cbv zeta.
  destruct (getPublishedVersionsByExtensionId_pages
              {| S3_ACCESS_KEY := Some (str "k"); S3_SECRET_KEY := Some (str "s");
                 S3_BUCKET := Some (str "b"); SHOULD_PUBLISH := None;
                 S3_ENDPOINT := None; S3_REGION := None |}
              [{| Contents := Some [{| listed_Key := Some (str "a/1.0.0/x");
                                       listed_LastModified := None |}];
                  NextContinuationToken := Some (str "t1") |}]
              {| Contents := Some [{| listed_Key := Some (str "b/2.0.0/y");
                                      listed_LastModified := None |}];
                 NextContinuationToken := Some [] |}
              [] [] 2) as (index & Hrun & _).
  - vm_compute. reflexivity.
  - repeat constructor.
  - vm_compute. reflexivity.
  - cbn. lia.
  - exists index. exact Hrun.
Defined.

End Pagination.

Section Unconfigured.
Import Js Regex Validation Types Cli Predicates.
Context {W : Type} (listObjectsV2 : ListObjectsV2 W).

(** X8: when one of S3_ACCESS_KEY, S3_SECRET_KEY and S3_BUCKET is unset or
    empty, getPublishedVersionsByExtensionId warns and returns an empty
    index without a request to the store, and unpublishedExtensionIds
    then returns every id of the registry, in registry order, whatever the
    store holds. *)
Theorem unpublishedExtensionIds_without_credentials
    (fuel : nat) (env : ProcessEnv) (toml : ExtensionsToml) (w : W) :
  configured env = false ->
  getPublishedVersionsByExtensionId listObjectsV2 fuel env w
  = Some (Return ([credentials_warning], ∅), w)
  /\ unpublishedExtensionIds_from listObjectsV2 fuel env toml w
     = Some (Return ([credentials_warning;
                      str "Extensions needing to be published: "
                      ++ join (str ", ") toml.*1],
                     toml.*1), w).
Proof.
  intros Henv.
  assert (Hindex : getPublishedVersionsByExtensionId listObjectsV2 fuel env w
                   = Some (Return ([credentials_warning], ∅), w)).
  { unfold getPublishedVersionsByExtensionId. by rewrite (configured_false env Henv). }
  split; [done|]. unfold unpublishedExtensionIds_from. rewrite Hindex.
  pose proof (unpublished_logged ∅ toml) as Hlog.
  pose proof (unpublished_none_published ∅ toml published_versions_empty) as Hall.
  destruct (unpublishedExtensionIds ∅ toml) as [logged result].
  cbn [fst snd] in Hlog, Hall. by rewrite Hlog, Hall.
Qed.

(** X9: a failure of getPublishedVersionsByExtensionId is the failure of a
    listing request, for building the index never fails; and when the first
    request fails, unpublishedExtensionIds fails with it instead of
    selecting anything. *)
Theorem getPublishedVersionsByExtensionId_failure :
  (forall fuel env w e w',
     getPublishedVersionsByExtensionId listObjectsV2 fuel env w = Some (Throw e, w') ->
     configured env = true
     /\ exists s3 request w0, listObjectsV2 s3 request w0 = (Throw e, w'))
  /\ (forall fuel env toml w e w',
        configured env = true ->
        (forall s3,
           listObjectsV2 s3 {| Bucket := default [] (S3_BUCKET env);
                               ContinuationToken := None |} w = (Throw e, w')) ->
        unpublishedExtensionIds_from listObjectsV2 (S fuel) env toml w
        = Some (Throw e, w')).
Proof.
  split.
  - intros fuel env w e w'. unfold getPublishedVersionsByExtensionId.
    destruct (configured env) eqn:Henv.
    + rewrite (configured_true env Henv). intros H. split; [done|].
      destruct (list_bucket listObjectsV2 fuel _ _ None [] w)
        as [[[bucketList|e0] w0]|] eqn:Hlist; [| |done].
      * destruct (record_objects_empty bucketList) as (index & Hindex & _).
        rewrite Hindex in H. done.
      * injection H as -> ->.
        apply list_bucket_throws in Hlist as (request & w1 & _ & Hsend).
        by eexists _, request, w1.
    + by rewrite (configured_false env Henv).
  - intros fuel env toml w e w' Henv Hsend.
    unfold unpublishedExtensionIds_from, getPublishedVersionsByExtensionId.
    rewrite (configured_true env Henv), list_bucket_step, Hsend. done.
Qed.

End Unconfigured.

Section UnconfiguredWitnesses.
Import Js Regex Validation Types Cli Predicates.

Lemma unpublishedExtensionIds_without_credentials_witness :
  unpublishedExtensionIds_from scripted 0
    {| S3_ACCESS_KEY := Some (str "k"); S3_SECRET_KEY := Some [];
       S3_BUCKET := Some (str "b"); SHOULD_PUBLISH := Some (str "true");
       S3_ENDPOINT := None; S3_REGION := None |}
    [entry "a" "v1.0.0"; entry "b" "v2.0.0"] ([], [])
  = Some (Return ([credentials_warning;
                   str "Extensions needing to be published: a, b"],
                  [str "a"; str "b"]), ([], [])).
Proof.
  apply (unpublishedExtensionIds_without_credentials scripted 0
           {| S3_ACCESS_KEY := Some (str "k"); S3_SECRET_KEY := Some [];
              S3_BUCKET := Some (str "b"); SHOULD_PUBLISH := Some (str "true");
              S3_ENDPOINT := None; S3_REGION := None |}
           [entry "a" "v1.0.0"; entry "b" "v2.0.0"] ([], [])).
  vm_compute. reflexivity.
Defined.

Lemma getPublishedVersionsByExtensionId_failure_witness :
  unpublishedExtensionIds_from scripted 1
    {| S3_ACCESS_KEY := Some (str "k"); S3_SECRET_KEY := Some (str "s");
       S3_BUCKET := Some (str "b"); SHOULD_PUBLISH := None;
       S3_ENDPOINT := None; S3_REGION := None |}
    [entry "a" "v1.0.0"] ([], [])
  = Some (Throw (str "no response"),
          ([], [{| Bucket := str "b"; ContinuationToken := None |}])).
Proof.
  apply (proj2 (getPublishedVersionsByExtensionId_failure scripted) 0
           {| S3_ACCESS_KEY := Some (str "k"); S3_SECRET_KEY := Some (str "s");
              S3_BUCKET := Some (str "b"); SHOULD_PUBLISH := None;
              S3_ENDPOINT := None; S3_REGION := None |}).
  - vm_compute. reflexivity.
  - intros s3. vm_compute. reflexivity.
Defined.

End UnconfiguredWitnesses.

(** ** Uploaded packages and the index *)

Section Uploads.
Import Js Regex Validation Types Cli Predicates.

Lemma upload_key_slashes s3Options extensionId extensionVersion filename :
  3 <= slashes (upload_key s3Options extensionId extensionVersion filename).
Proof.
  unfold upload_key. rewrite !slashes_app.
  change (slashes (str "/")) with 1. lia.
Qed.

Lemma upload_key_unmatched s3Options extensionId extensionVersion filename :
  exec OBJECT_KEY (upload_key s3Options extensionId extensionVersion filename) = None.
Proof.
  apply exec_object_key_none. intros k v Hnames.
  apply names_version_slashes in Hnames.
  pose proof (upload_key_slashes s3Options extensionId extensionVersion filename).
  lia.
Qed.

Lemma in_upload_commands extensionId extensionVersion shouldPublish s3Options
    entries command :
  In command (upload_commands extensionId extensionVersion shouldPublish s3Options
                entries) ->
  exists filename contents,
    In (filename, contents) entries
    /\ shouldPublish = true /\ is_some (s3Client s3Options) = true
    /\ put_Bucket command = options_S3_BUCKET s3Options
    /\ put_Key command = upload_key s3Options extensionId extensionVersion filename
    /\ Body command = contents.
Proof.
  unfold upload_commands.
  destruct (shouldPublish && is_some (s3Client s3Options)) eqn:Hcond; [|done].
  apply andb_true_iff in Hcond as [-> ->].
  intros ([filename contents] & <- & Hin)%in_map_iff. by exists filename, contents.
Qed.

Lemma uploaded_unmatched key : uploaded key -> exec OBJECT_KEY key = None.
Proof.
  intros (extensionId & extensionVersion & shouldPublish & s3Options & entries
          & command & Hin & ->).
  apply in_upload_commands in Hin as (filename & _ & _ & _ & _ & _ & -> & _).
  apply upload_key_unmatched.
Qed.

Lemma record_objects_unmatched bucketList :
  Forall (fun object => exec OBJECT_KEY (Key object) = None) bucketList ->
  exists index,
    record_objects ∅ bucketList = Return index
    /\ forall extensionId, published_versions index extensionId = ∅.
Proof.
  intros Hall. destruct (record_objects_empty bucketList) as (index & Hrun & Hindex).
  exists index. split; [done|]. intros k. apply elem_of_equiv_empty_L. intros v Hv.
  apply Hindex in Hv as (object & Hin & Hnames).
  rewrite List.Forall_forall in Hall. specialize (Hall object Hin).
  rewrite exec_object_key_none in Hall. by apply Hall in Hnames.
Qed.

(** X10: the index does not see what packageExtension uploads.  The key of
    every command it sends, [prefix/id/version/file], has three slashes or
    more, and the pattern of the index matches keys with two; so when the
    store lists nothing but such keys, unpublishedExtensionIds returns
    every id of the registry again. *)
Theorem uploads_not_indexed :
  (forall s3Options extensionId extensionVersion filename,
     test OBJECT_KEY (upload_key s3Options extensionId extensionVersion filename)
     = false)
  /\ (forall env pages last more log fuel (toml : ExtensionsToml),
        configured env = true ->
        Forall (fun page => present (NextContinuationToken page) = true) pages ->
        present (NextContinuationToken last) = false ->
        length pages < fuel ->
        Forall (fun object => uploaded (Key object))
               (flat_map objects_of (pages ++ [last])) ->
        unpublishedExtensionIds_from scripted fuel env toml (pages ++ last :: more, log)
        = Some (Return ([str "Extensions needing to be published: "
                         ++ join (str ", ") toml.*1],
                        toml.*1),
                (more, log ++ requests (default [] (S3_BUCKET env)) None pages))).
Proof.
  split.
  - intros. unfold test. by rewrite upload_key_unmatched.
  - intros env pages last more log fuel toml Henv Hpages Hlast Hfuel Hkeys.
    unfold unpublishedExtensionIds_from, getPublishedVersionsByExtensionId.
    rewrite (configured_true env Henv).
    rewrite (list_bucket_scripted pages fuel last more) by done. cbn [app].
    destruct (record_objects_unmatched (flat_map objects_of (pages ++ [last])))
      as (index & -> & Hnone).
    { eapply List.Forall_impl; [|exact Hkeys]. intros object. apply uploaded_unmatched. }
    cbn [bind].
    pose proof (unpublished_logged index toml) as Hlog.
    pose proof (unpublished_none_published index toml Hnone) as Hall.
    destruct (unpublishedExtensionIds index toml) as [logged result].
    cbn [fst snd] in Hlog, Hall. by rewrite Hlog, Hall.
Qed.

Lemma uploads_not_indexed_witness :
  let env := {| S3_ACCESS_KEY := Some (str "k"); S3_SECRET_KEY := Some (str "s");
                S3_BUCKET := Some (str "b"); SHOULD_PUBLISH := Some (str "true");
                S3_ENDPOINT := None; S3_REGION := None |} in
  let listing :=
    {| Contents :=
         Some [{| listed_Key := Some (str "extensions/base16/0.1.0/archive.tar.gz");
                  listed_LastModified := None |}];
       NextContinuationToken := None |} in
  unpublishedExtensionIds_from scripted 1 env [entry "base16" "0.1.0"] ([listing], [])
  = Some (Return ([str "Extensions needing to be published: base16"],
                  [str "base16"]),
          ([], [{| Bucket := str "b"; ContinuationToken := None |}])).
Proof.
  cbv zeta.
  apply (proj2 uploads_not_indexed
           {| S3_ACCESS_KEY := Some (str "k"); S3_SECRET_KEY := Some (str "s");
              S3_BUCKET := Some (str "b"); SHOULD_PUBLISH := Some (str "true");
              S3_ENDPOINT := None; S3_REGION := None |}
           []
           {| Contents :=
                Some [{| listed_Key :=
                           Some (str "extensions/base16/0.1.0/archive.tar.gz");
                         listed_LastModified := None |}];
              NextContinuationToken := None |}
           [] [] 1 [entry "base16" "0.1.0"]).
  - vm_compute. reflexivity.
  - constructor.
  - vm_compute. reflexivity.
  - cbn. lia.
  - constructor; [|constructor].
    exists (str "base16"), (str "0.1.0"), true,
      {| s3Client := Some {| forcePathStyle := Some false; endpoint := None;
                             region := None; accessKeyId := str "k";
                             secretAccessKey := str "s" |};
         options_S3_BUCKET := str "b"; EXTENSIONS_PREFIX := str "extensions" |},
      [(str "archive.tar.gz", str "contents")].
    eexists. split; [left; reflexivity|]. vm_compute. reflexivity.
Defined.

(** X11: an id with a character that is not a letter, a digit or an
    underscore, a hyphen for one, is never found published.  Whatever the
    bucket lists, the index built from it has no version for such an id, and
    unpublishedExtensionIds returns it for every registry that has it. *)
Theorem unpublishedExtensionIds_non_word_id (bucketList : list S3Object) :
  exists index,
    record_objects ∅ bucketList = Return index
    /\ (forall extensionId,
          forallb word_char extensionId = false ->
          published_versions index extensionId = ∅)
    /\ (forall (toml : ExtensionsToml) extensionId info,
          (extensionId, info) ∈ toml ->
          In "-"%char extensionId ->
          extensionId ∈ (unpublishedExtensionIds index toml).2).
Proof.
  destruct (record_objects_empty bucketList) as (index & Hrun & Hindex).
  exists index. split; [done|].
  assert (Hnone : forall k, forallb word_char k = false ->
                            published_versions index k = ∅).
  { intros k Hk. apply elem_of_equiv_empty_L. intros v Hv.
    apply Hindex in Hv as (object & _ & (f & _ & _ & Hword & _)). congruence. }
  split; [done|]. intros toml k info Hin Hhyphen. rewrite unpublished_eq.
  apply (list_elem_of_fmap_2 fst _ (k, info)). apply list_elem_of_filter.
  split; [|done]. cbn [fst snd]. rewrite Hnone; [apply has_empty|].
  apply not_true_is_false. intros Hall. rewrite forallb_forall in Hall.
  by specialize (Hall _ Hhyphen).
Qed.

Lemma unpublishedExtensionIds_non_word_id_witness :
  exists index,
    record_objects ∅ [{| Key := str "my-extension/1.0.0/archive.tar.gz";
                         LastModified := None |}] = Return index
    /\ str "my-extension" ∈ (unpublishedExtensionIds index
                               [entry "my-extension" "1.0.0"]).2.
Proof.
  destruct (unpublishedExtensionIds_non_word_id
              [{| Key := str "my-extension/1.0.0/archive.tar.gz";
                  LastModified := None |}]) as (index & Hrun & _ & Hsel).
  exists index. split; [exact Hrun|].
  apply (Hsel [entry "my-extension" "1.0.0"] (str "my-extension")
              (entry "my-extension" "1.0.0").2).
  - apply list_elem_of_here.
  - vm_compute. tauto.
Defined.

End Uploads.

(** ** validateExtensionsToml: what it accepts and what it reports *)

Section ExtensionsTomlMore.
Import Js Regex Validation Predicates.

Lemma missing_or_not_object v : missing_or_not TObject v = false <-> object_like v.
Proof.
  unfold missing_or_not, object_like.
  destruct v as [| |b|r|s|items|props]; cbn; try (split; [done | intros []]); try done.
  - destruct b; split; (done || intros []).
  - rewrite orb_true_r. split; [done | intros []].
  - rewrite orb_true_r. split; [done | intros []].
Qed.

Lemma missing_or_not_string v :
  missing_or_not TString v = false <-> nonempty_string v.
Proof.
  unfold missing_or_not, nonempty_string.
  destruct v as [| |b|r|s|items|props]; cbn;
    try (split; [done | by intros (s0 & [=] & _)]).
  - destruct b; split; (done || by intros (s0 & [=] & _)).
  - rewrite orb_true_r. split; [done | by intros (s0 & [=] & _)].
  - rewrite orb_false_r, negb_false_iff, negb_true_iff. unfold string_eqb.
    rewrite bool_decide_eq_false. split.
    + intros Hs. by exists s.
    + by intros (s0 & [= <-] & Hs).
Qed.

Lemma entry_ok_described section extensionId :
  entry_ok section extensionId <->
  is_extension_id extensionId /\ described section extensionId.
Proof.
  unfold entry_ok, described, is_extension_id.
  rewrite test_extension_id_pattern, missing_or_not_object, !missing_or_not_string.
  tauto.
Qed.

(** X12: validateExtensionsToml returns exactly for an object (or array)
    whose every key is an extension id, whose [extensions] property is an
    object (or array), and in which every key of that section is an
    extension id that holds an object with a non-empty string for
    [version] and for [source]. *)
Theorem validateExtensionsToml_accepts (v : value) :
  validateExtensionsToml v = Return tt <->
  object_like v
  /\ (forall key, In key (keys v) -> is_extension_id key)
  /\ object_like (get v (str "extensions"))
  /\ (forall extensionId,
        In extensionId (keys (get v (str "extensions"))) ->
        is_extension_id extensionId
        /\ described (get v (str "extensions")) extensionId).
Proof.
  rewrite validateExtensionsToml_ok, !missing_or_not_object, !List.Forall_forall.
  split.
  - intros (Hv & Hkeys & Hsec & Hentries). split; [done|]. split.
    + intros key Hin. by apply test_extension_id_pattern, Hkeys.
    + split; [done|]. intros k Hin. by apply entry_ok_described, Hentries.
  - intros (Hv & Hkeys & Hsec & Hentries). split; [done|]. split.
    + intros key Hin. by apply test_extension_id_pattern, Hkeys.
    + split; [done|]. intros k Hin. by apply entry_ok_described, Hentries.
Qed.

Lemma check_extensions_app section before : forall rest,
  Forall (entry_ok section) before ->
  check_extensions section (before ++ rest) = check_extensions section rest.
Proof.
  induction before as [|k before IH]; intros rest Hok; [done|].
  inversion Hok as [|? ? (E1 & E2 & E3 & E4) Hrest]; subst.
  cbn [app check_extensions]. rewrite E1, E2, E3, E4. cbn [negb]. by apply IH.
Qed.

Lemma validateExtensionsToml_section v :
  object_like v ->
  (forall key, In key (keys v) -> is_extension_id key) ->
  object_like (get v (str "extensions")) ->
  validateExtensionsToml v
  = check_extensions (get v (str "extensions")) (keys (get v (str "extensions"))).
Proof.
  intros Hv Hkeys Hsec. unfold validateExtensionsToml.
  apply missing_or_not_object in Hv, Hsec. rewrite Hv, check_top_level_ids_eq.
  assert (Hnone : first_invalid_id (keys v) = None).
  { apply first_invalid_id_none, List.Forall_forall. intros key Hin.
    by apply test_extension_id_pattern, Hkeys. }
  rewrite Hnone. cbn [bind]. by rewrite Hsec.
Qed.

(** X13: validateExtensionsToml stops at the first entry of the section
    that fails, and at the first check that entry fails: its id, then the
    entry being an object, then its version, then its source.  The entries
    after it have no say, and a later failure of the same entry is not
    reported. *)
Theorem validateExtensionsToml_first_failure
    (v : value) (before after : list jsstring) (extensionId : jsstring) :
  object_like v ->
  (forall key, In key (keys v) -> is_extension_id key) ->
  object_like (get v (str "extensions")) ->
  keys (get v (str "extensions")) = before ++ extensionId :: after ->
  (forall earlier, In earlier before ->
     is_extension_id earlier /\ described (get v (str "extensions")) earlier) ->
  let section := get v (str "extensions") in
  let extension := get section extensionId in
  (~ is_extension_id extensionId ->
   validateExtensionsToml v = Throw (invalid_id_message extensionId))
  /\ (is_extension_id extensionId -> ~ object_like extension ->
      validateExtensionsToml v = Throw (not_object_message extensionId))
  /\ (is_extension_id extensionId -> object_like extension ->
      ~ nonempty_string (get extension (str "version")) ->
      validateExtensionsToml v = Throw (bad_version_message extensionId))
  /\ (is_extension_id extensionId -> object_like extension ->
      nonempty_string (get extension (str "version")) ->
      ~ nonempty_string (get extension (str "source")) ->
      validateExtensionsToml v = Throw (bad_source_message extensionId)).
Proof.
  intros Hv Hkeys Hsec Hsplit Hbefore section extension.
  rewrite (validateExtensionsToml_section v Hv Hkeys Hsec), Hsplit.
  rewrite check_extensions_app.
  2:{ apply List.Forall_forall. intros k Hin. by apply entry_ok_described, Hbefore. }
  cbn [check_extensions]. fold section. fold extension. unfold is_extension_id.
  rewrite <- test_extension_id_pattern, <- missing_or_not_object,
    <- !missing_or_not_string.
  destruct (test EXTENSION_ID_PATTERN extensionId);
    destruct (missing_or_not TObject extension);
    destruct (missing_or_not TString (get extension (str "version")));
    destruct (missing_or_not TString (get extension (str "source")));
    cbn [negb]; split_and!; intros; first [reflexivity | congruence].
Qed.

Lemma validateExtensionsToml_first_failure_witness :
  validateExtensionsToml
    (JObj [(str "extensions",
            JObj [(str "a", JObj [(str "version", JStr (str "1.0.0"));
                                  (str "source", JStr (str "x"))]);
                  (str "b", JObj []);
                  (str "C", JNull)])])
  = Throw (bad_version_message (str "b")).
Proof.
  apply (validateExtensionsToml_first_failure
           (JObj [(str "extensions",
                   JObj [(str "a", JObj [(str "version", JStr (str "1.0.0"));
                                         (str "source", JStr (str "x"))]);
                         (str "b", JObj []);
                         (str "C", JNull)])])
           [str "a"] [str "C"] (str "b")).
  - exact I.
  - intros key [<-|[]]. vm_compute. split; [discriminate | reflexivity].
  - exact I.
  - reflexivity.
  - intros earlier [<-|[]]. split.
    + vm_compute. split; [discriminate | reflexivity].
    + split; [exact I|]. split; eexists; (split; [vm_compute; reflexivity | discriminate]).
  - vm_compute. split; [discriminate | reflexivity].
  - exact I.
  - intros (s & Hs & _). vm_compute in Hs. discriminate Hs.
Defined.

Lemma validateExtensionsToml_accepts_witness :
  validateExtensionsToml
    (JObj [(str "extensions",
            JObj [(str "base16", JObj [(str "version", JStr (str "0.1.0"));
                                       (str "source", JStr (str "extensions/base16"))])])])
  = Return tt.
Proof.
  apply validateExtensionsToml_accepts. split; [exact I|]. split.
  - intros key [<-|[]]. vm_compute. split; [discriminate | reflexivity].
  - split; [exact I|]. intros extensionId [<-|[]]. split.
    + vm_compute. split; [discriminate | reflexivity].
    + split; [exact I|].
      split; eexists; (split; [vm_compute; reflexivity | discriminate]).
Defined.

End ExtensionsTomlMore.

(** ** validateManifest: what it accepts and what it can say *)

(** Two different string constants are told apart by evaluation. *)
Ltac distinct_messages :=
  repeat match goal with
    | |- context [?a = ?b :> jsstring] =>
        lazymatch a with
        | b => fail
        | _ => let H := fresh in
               assert (H : (a = b) <-> False)
                 by (split; [by vm_compute | done]);
               rewrite H; clear H
        end
    end.

Section ManifestMore.
Import Js Regex Validation Predicates.

Lemma push_if_nil cond message errs :
  push_if cond message errs = [] <-> cond = false /\ errs = [].
Proof.
  unfold push_if. destruct cond.
  - split; [by destruct errs | by intros [? _]].
  - split; [done | by intros [_ ?]].
Qed.

Lemma not_wrongly_typed v :
  truthy v && negb (type_tag_eqb (typeof v) TString) = false <-> ~ wrongly_typed v.
Proof. by rewrite wrongly_typed_iff, not_true_iff_false. Qed.

Lemma not_not_string_array v :
  truthy v && negb (is_string_array v) = false <-> ~ not_string_array v.
Proof. by rewrite not_string_array_iff, not_true_iff_false. Qed.

(** A required field that also has a format: the two checks together pass
    exactly for a string of that format. *)
Lemma required_and_formatted pattern v (P : jsstring -> Prop) :
  (forall s, test pattern s = true <-> P s) ->
  ~ P [] ->
  missing_or_not TString v = false
  /\ truthy v && negb (test pattern (rendered v)) = false
  <-> exists s, v = JStr s /\ P s.
Proof.
  intros Hpattern Hnil. rewrite missing_or_not_string. unfold rendered. split.
  - intros [(s & -> & Hs) Hformat]. exists s. split; [done|].
    cbn [truthy to_string] in Hformat. unfold string_eqb in Hformat.
    rewrite bool_decide_eq_false_2 in Hformat by done. cbn [negb andb] in Hformat.
    apply Hpattern. by apply negb_false_iff.
  - intros (s & -> & Hs). assert (Hne : s <> []) by (by intros ->).
    split; [by exists s|]. cbn [truthy to_string]. apply Hpattern in Hs.
    rewrite Hs. by rewrite andb_false_r.
Qed.

(** The manifests no check complains about. *)
Lemma manifest_errors_nil manifest :
  manifest_errors manifest = [] <->
  (exists s, get manifest (str "name") = JStr s /\ is_extension_id s)
  /\ (exists s, get manifest (str "version") = JStr s /\ is_version s)
  /\ nonempty_string (get manifest (str "description"))
  /\ ~ wrongly_typed (get manifest (str "author"))
  /\ ~ wrongly_typed (get manifest (str "license"))
  /\ ~ wrongly_typed (get manifest (str "repository"))
  /\ ~ not_string_array (get manifest (str "keywords")).
Proof.
  unfold manifest_errors. rewrite !push_if_nil.
  rewrite <- (required_and_formatted EXTENSION_ID_PATTERN _ is_extension_id
                test_extension_id_pattern) by (by intros [? _]).
  rewrite <- (required_and_formatted versionRegex _ is_version test_versionRegex).
  2:{ rewrite <- test_versionRegex, test_versionRegex_nil. done. }
  rewrite <- missing_or_not_string, <- !not_wrongly_typed, <- not_not_string_array.
  tauto.
Qed.

(** X14: validateManifest finds a manifest valid exactly when it is an
    object whose name is an extension id, whose version has the format
    major.minor.patch with an optional pre-release part, whose description
    is a non-empty string, whose author, license and repository are each a
    string or falsy, and whose keywords are an array of strings or falsy;
    the result then has no errors.  Otherwise it returns an invalid result
    or throws. *)
Theorem validateManifest_accepts (manifest : value) :
  ((exists r, validateManifest manifest = Return r /\ isValid r = true) <->
   object_like manifest
   /\ (exists s, get manifest (str "name") = JStr s /\ is_extension_id s)
   /\ (exists s, get manifest (str "version") = JStr s /\ is_version s)
   /\ nonempty_string (get manifest (str "description"))
   /\ ~ wrongly_typed (get manifest (str "author"))
   /\ ~ wrongly_typed (get manifest (str "license"))
   /\ ~ wrongly_typed (get manifest (str "repository"))
   /\ ~ not_string_array (get manifest (str "keywords")))
  /\ (forall r, validateManifest manifest = Return r -> isValid r = true ->
                r = {| isValid := true; errors := [] |}).
Proof.
  assert (Hvalid : forall r,
    validateManifest manifest = Return r -> isValid r = true ->
    missing_or_not TObject manifest = false
    /\ manifest_errors manifest = []
    /\ r = {| isValid := true; errors := [] |}).
  { intros r Hr Hv.
    pose proof (proj1 (validateManifest_isValid manifest r Hr) Hv) as Hnil.
    apply validateManifest_inv in Hr as [[_ ->]|(Hobj & _ & _ & ->)]; [done|].
    cbn [errors] in Hnil. by rewrite Hnil. }
  split.
  - split.
    + intros (r & Hr & Hv). destruct (Hvalid r Hr Hv) as (Hobj & Hnil & _).
      split; [by apply missing_or_not_object|]. by apply manifest_errors_nil.
    + intros (Hobj & Hrest). apply missing_or_not_object in Hobj.
      pose proof (proj2 (manifest_errors_nil manifest) Hrest) as Hnil.
      destruct Hrest as ((n & Hn & _) & (v & Hv & _) & _).
      eexists. split.
      * apply validateManifest_returns; [done | |].
        -- rewrite Hn. apply renders_string.
        -- rewrite Hv. apply renders_string.
      * cbn [isValid]. by rewrite Hnil.
  - intros r Hr Hv. by destruct (Hvalid r Hr Hv) as (_ & _ & ->).
Qed.

Lemma validateManifest_accepts_witness :
  exists r,
    validateManifest
      (manifest_of [("name", JStr (str "my-extension"));
                    ("version", JStr (str "1.0.0-beta.1"));
                    ("description", JStr (str "d"));
                    ("keywords", JArr [JStr (str "theme")])])
    = Return r
    /\ isValid r = true.
Proof.
  apply (proj1 (validateManifest_accepts _)). split; [exact I|].
  split; [eexists; split; [vm_compute; reflexivity|]|].
  { vm_compute. split; [discriminate | reflexivity]. }
  split; [eexists; split; [vm_compute; reflexivity|]|].
  { exists (str "1"), (str "0"), (str "0"), (str "-beta.1").
    split; [reflexivity|]. split; [vm_compute; split; [discriminate | reflexivity]|].
    split; [vm_compute; split; [discriminate | reflexivity]|].
    split; [vm_compute; split; [discriminate | reflexivity]|].
    right. exists (str "beta.1"). split; [reflexivity|].
    split; [discriminate | reflexivity]. }
  split; [eexists; split; [vm_compute; reflexivity | discriminate]|].
  split; [intros [Ht _]; vm_compute in Ht; discriminate Ht|].
  split; [intros [Ht _]; vm_compute in Ht; discriminate Ht|].
  split; [intros [Ht _]; vm_compute in Ht; discriminate Ht|].
  intros [_ Ha]. vm_compute in Ha. discriminate Ha.
Defined.

Lemma push_if_sublist cond message errs (all : list jsstring) :
  errs `sublist_of` all -> push_if cond message errs `sublist_of` all ++ [message].
Proof.
  intros Hsub. unfold push_if. destruct cond.
  - by apply sublist_app.
  - by apply sublist_inserts_r.
Qed.

Lemma manifest_messages_NoDup : NoDup manifest_messages.
Proof. apply (bool_decide_unpack _). vm_compute. reflexivity. Qed.

Lemma manifest_errors_sublist manifest :
  manifest_errors manifest `sublist_of` manifest_messages.
Proof.
  unfold manifest_errors.
  change manifest_messages with
    ((((((((([] ++ [required_message (str "name")])
            ++ [required_message (str "version")])
           ++ [required_message (str "description")])
          ++ [name_message])
         ++ [version_message])
        ++ [str "Author must be a string"])
       ++ [str "License must be a string"])
      ++ [str "Repository must be a string"])
     ++ [str "Keywords must be an array of strings"]).
  repeat apply push_if_sublist. done.
Qed.

(** X15: validateManifest reports each problem once and in a fixed order.
    Of an object it returns a result unless the conversion of the name or
    of the version to a string throws, which makes it throw that
    [TypeError]; the errors of the result are a subsequence of the nine
    messages in the order of the checks, without repetition, and the result
    is valid exactly when there are none.  Anything that is not an object
    gets the one message saying so. *)
Theorem validateManifest_messages (manifest : value) :
  (object_like manifest ->
   (renders (get manifest (str "name")) /\ renders (get manifest (str "version"))
    /\ exists r,
         validateManifest manifest = Return r
         /\ errors r `sublist_of` manifest_messages
         /\ NoDup (errors r)
         /\ length (errors r) <= 9
         /\ (isValid r = true <-> errors r = []))
   \/ ((~ renders (get manifest (str "name"))
        \/ ~ renders (get manifest (str "version")))
       /\ validateManifest manifest
          = Throw (str "Cannot convert object to primitive value")))
  /\ (~ object_like manifest ->
      validateManifest manifest
      = Return {| isValid := false; errors := [str "Manifest must be an object"] |}).
Proof.
  split.
  - intros Hobj. apply missing_or_not_object in Hobj.
    destruct (validateManifest_object manifest Hobj)
      as [(Hname & Hversion & Hr)|[Hnot Hthrow]]; [left | by right].
    split; [done|]. split; [done|]. eexists. split; [exact Hr|]. cbn [errors].
    pose proof (manifest_errors_sublist manifest) as Hsub.
    split; [done|]. split; [|split].
    + exact (sublist_NoDup _ _ manifest_messages_NoDup Hsub).
    + apply sublist_length in Hsub. exact Hsub.
    + apply (validateManifest_isValid manifest _ Hr).
  - intros Hnot. unfold validateManifest.
    destruct (missing_or_not TObject manifest) eqn:Hobj; [done|].
    by apply missing_or_not_object in Hobj.
Qed.

Lemma validateManifest_messages_witness :
  (renders (JStr (str "Bad Name")) /\ renders JUndefined
   /\ exists r,
        validateManifest (manifest_of [("name", JStr (str "Bad Name"))]) = Return r
        /\ errors r `sublist_of` manifest_messages
        /\ NoDup (errors r)
        /\ length (errors r) <= 9
        /\ (isValid r = true <-> errors r = []))
  \/ ((~ renders (JStr (str "Bad Name")) \/ ~ renders JUndefined)
      /\ validateManifest (manifest_of [("name", JStr (str "Bad Name"))])
         = Throw (str "Cannot convert object to primitive value")).
Proof.
  apply (proj1 (validateManifest_messages
                  (manifest_of [("name", JStr (str "Bad Name"))]))).
  exact I.
Defined.

Lemma in_name_message manifest :
  In name_message (manifest_errors manifest) <->
  truthy (get manifest (str "name"))
  && negb (test EXTENSION_ID_PATTERN (rendered (get manifest (str "name")))) = true.
Proof.
  unfold manifest_errors.
  rewrite !in_push_if. cbn [In]. distinct_messages. tauto.
Qed.

(** X16: the two complaints about the name, on an object whose name and
    version convert to a string.  The format message is there exactly when
    the name is truthy and the string it converts to is not an extension
    id; so for a name that is a string, an empty one is reported as missing
    only, one that is not an extension id as malformed only, and an
    extension id not at all.  When the name is truthy and its conversion
    throws, validateManifest throws and reports nothing. *)
Theorem validateManifest_name_format (manifest : value) :
  object_like manifest ->
  (renders (get manifest (str "name")) ->
   renders (get manifest (str "version")) ->
   exists r,
     validateManifest manifest = Return r
     /\ (In (str "Manifest name must contain only lowercase letters, numbers, and hyphens")
            (errors r) <->
         exists s, truthy (get manifest (str "name")) = true
                   /\ to_string (get manifest (str "name")) = Return s
                   /\ ~ is_extension_id s)
     /\ (forall s,
           get manifest (str "name") = JStr s ->
           (In (str "Missing or invalid required field: name") (errors r)
            <-> s = [])
           /\ (In (str "Manifest name must contain only lowercase letters, numbers, and hyphens")
                  (errors r)
               <-> s <> [] /\ ~ is_extension_id s)))
  /\ (forall e,
        truthy (get manifest (str "name")) = true ->
        to_string (get manifest (str "name")) = Throw e ->
        validateManifest manifest = Throw e).
Proof.
  intros Hobj. apply missing_or_not_object in Hobj. split.
  2:{ intros e Htruthy Hthrow. apply validateManifest_throws; [done | by left]. }
  intros Hrenders Hversion. eexists.
  split; [by apply validateManifest_returns|]. cbn [errors].
  change (str "Manifest name must contain only lowercase letters, numbers, and hyphens")
    with name_message.
  change (str "Missing or invalid required field: name")
    with (required_message (str "name")).
  assert (Hname : In name_message (manifest_errors manifest) <->
                  exists s, truthy (get manifest (str "name")) = true
                            /\ to_string (get manifest (str "name")) = Return s
                            /\ ~ is_extension_id s).
  { rewrite (in_name_message manifest), andb_true_iff, negb_true_iff.
    unfold is_extension_id, rendered. split.
    - intros [Htruthy Htest]. destruct Hrenders as [Hf|[s Hs]]; [congruence|].
      exists s. rewrite Hs in Htest. split; [done|]. split; [done|].
      rewrite <- test_extension_id_pattern. unfold is_extension_id. congruence.
    - intros (s & Htruthy & Hs & Hnot). split; [done|]. rewrite Hs.
      apply not_true_iff_false. intros Htest. apply Hnot.
      by apply test_extension_id_pattern. }
  split; [done|]. intros s Hs. split.
  - rewrite (in_required_message manifest (str "name")) by (by left).
    rewrite Hs, <- not_false_iff_true, missing_or_not_string. split.
    + intros Hnot. destruct s; [done|]. destruct Hnot. by eexists.
    + intros -> (s0 & [= <-] & Hne). done.
  - rewrite Hname, Hs. cbn [truthy to_string]. unfold string_eqb. split.
    + intros (s' & Htruthy & [= <-] & Hnot). split; [|done].
      apply negb_true_iff, bool_decide_eq_false in Htruthy. done.
    + intros [Hne Hnot]. exists s. split; [|done].
      by apply negb_true_iff, bool_decide_eq_false.
Qed.

Lemma validateManifest_name_format_witness :
  exists r,
    validateManifest (manifest_of [("name", JStr (str "Bad Name"))]) = Return r
    /\ In (str "Manifest name must contain only lowercase letters, numbers, and hyphens")
          (errors r).
Proof.
  destruct (proj1 (validateManifest_name_format
                     (manifest_of [("name", JStr (str "Bad Name"))]) I)
              (renders_string (str "Bad Name")) (or_introl eq_refl))
    as (r & Hr & _ & Hstring).
  exists r. split; [exact Hr|].
  apply (proj2 (Hstring (str "Bad Name") eq_refl)).
  split; [discriminate|]. intros [_ Hall]. vm_compute in Hall. discriminate Hall.
Defined.

End ManifestMore.

(** ** validateGitmodules: what it reads from the lines *)

Section GitmodulesSections.
Import Js Regex Validation Predicates.

Lemma header_name_some line n :
  header_name line = Some n <->
  n <> [] /\ one_line n /\ line = header_prefix ++ n ++ header_suffix.
Proof.
  unfold header_name. split.
  - destruct (exec SUBMODULE_HEADER line) as [m|] eqn:Hm; [|done].
    apply exec_header_some in Hm as (n' & Hne & Hone & Hline & ->).
    cbn. by intros [= <-].
  - intros (Hne & Hone & ->). by rewrite exec_header_intro.
Qed.

Lemma header_name_test line : is_some (header_name line) = test SUBMODULE_HEADER line.
Proof.
  unfold header_name, test.
  destruct (exec SUBMODULE_HEADER line) as [m|] eqn:Hm; [|done].
  by apply exec_header_some in Hm as (n' & _ & _ & _ & ->).
Qed.

Lemma assigned_some key line v :
  assigned key line = Some v <->
  exists w1 w2 cap,
    blanks w1 /\ blanks w2 /\ cap <> [] /\ one_line cap
    /\ line = key ++ w1 ++ str "=" ++ w2 ++ cap /\ v = trim cap.
Proof.
  unfold assigned. split.
  - destruct (exec (property_pattern key) line) as [m|] eqn:Hm; [|done].
    apply exec_property_some in Hm
      as (w1 & w2 & cap & Hw1 & Hw2 & Hne & Hone & Hline & ->).
    cbn. intros [= <-]. by exists w1, w2, cap.
  - intros (w1 & w2 & cap & Hw1 & Hw2 & Hne & Hone & -> & ->).
    destruct (exec_property_intro key w1 w2 cap Hw1 Hw2 Hne Hone) as [m Hm].
    rewrite Hm.
    apply exec_property_some in Hm
      as (w1' & w2' & cap' & Hw1' & Hw2' & _ & _ & Hline & ->).
    cbn. f_equal. apply app_inv_head in Hline.
    apply (blanks_split w1 w1') in Hline as [_ Hline]; [|done..].
    rewrite <- (trim_blanks_app w2 cap), <- (trim_blanks_app w2' cap') by done.
    by rewrite Hline.
Qed.

Lemma assigned_none key line :
  exec (property_pattern key) line = None -> assigned key line = None.
Proof. unfold assigned. by intros ->. Qed.

(** No line is an assignment to both keys, nor a header and an
    assignment. *)
Lemma assigned_path_not_url line m :
  exec PATH_PROPERTY line = Some m -> exec URL_PROPERTY line = None.
Proof.
  intros Hp. apply (exec_property_first_char _ "p" (str "ath")) in Hp as [tail ->];
    [|done].
  by apply exec_property_none.
Qed.

(** What one iteration does to the submodules, read off the line. *)
Lemma scan_line_step i line st st' :
  scan_line i line st = Return st' ->
  match header_name line with
  | Some n =>
      currentSubmodule st'
      = Some {| name := n; lineNumber := i + 1; path := None; url := None |}
      /\ scanned st' = collected st
  | None =>
      scanned st' = scanned st
      /\ currentSubmodule st'
         = (fun c => {| name := name c; lineNumber := lineNumber c;
                        path := match assigned (str "path") line with
                                | Some p => Some p
                                | None => path c
                                end;
                        url := match assigned (str "url") line with
                               | Some u => Some u
                               | None => url c
                               end |}) <$> currentSubmodule st
  end.
Proof.
  unfold scan_line, header_name, assigned.
  change (property_pattern (str "path")) with PATH_PROPERTY.
  change (property_pattern (str "url")) with URL_PROPERTY.
  destruct (exec SUBMODULE_HEADER line) as [m|] eqn:Hh.
  { apply exec_header_some in Hh as (n & Hne & Hone & Hline & ->).
    cbn [group1 group groups nth_error default bind]. by intros [= <-]. }
  destruct (exec PATH_PROPERTY line) as [mp|] eqn:Hp.
  - rewrite (assigned_path_not_url line mp Hp).
    apply exec_property_cap in Hp as (cap & before & _ & _ & _ & ->).
    cbn [group1 group groups nth_error default bind fmap option_fmap option_map].
    destruct (currentSubmodule st) as [c|] eqn:Hc.
    + by intros [= <-].
    + destruct (starts_with (str "[") line); cbn [andb negb is_some];
        [by intros [= <-]|].
      rewrite !andb_false_r. by intros [= <-].
  - destruct (exec URL_PROPERTY line) as [mu|] eqn:Hu.
    + apply exec_property_cap in Hu as (cap & before & _ & _ & _ & ->).
      cbn [group1 group groups nth_error default bind fmap option_fmap option_map].
      destruct (currentSubmodule st) as [c|] eqn:Hc.
      * by intros [= <-].
      * destruct (starts_with (str "[") line); cbn [andb negb is_some];
          [by intros [= <-]|].
        rewrite !andb_false_r. by intros [= <-].
    + cbn [is_some negb andb fmap option_fmap option_map].
      destruct (currentSubmodule st) as [c|] eqn:Hc;
        destruct (starts_with (str "[") line);
        destruct (starts_with (str "#") line);
        cbn [andb negb is_some]; intros [= <-];
        cbn [scanned currentSubmodule]; rewrite ?Hc; cbn; split; try done;
        by destruct c.
Qed.

Lemma fill_nil sm : fill sm [] = sm.
Proof. by destruct sm. Qed.

Lemma last_assigned_cons key line block :
  last_assigned key (line :: block) =
  match last_assigned key block with
  | Some v => Some v
  | None => assigned key line
  end.
Proof.
  unfold last_assigned. cbn [omap list_omap].
  destruct (assigned key line) as [v|]; [by rewrite last_cons|].
  by destruct (last (omap (assigned key) block)).
Qed.

Lemma fill_cons sm line block :
  fill sm (line :: block) =
  fill {| name := name sm; lineNumber := lineNumber sm;
          path := match assigned (str "path") line with
                  | Some p => Some p
                  | None => path sm
                  end;
          url := match assigned (str "url") line with
                 | Some u => Some u
                 | None => url sm
                 end |} block.
Proof.
  unfold fill. rewrite !last_assigned_cons. cbn [name lineNumber path url].
  by destruct (last_assigned (str "path") block), (last_assigned (str "url") block).
Qed.

(** The scanning loop computes the sections of the lines: what it has
    collected in the end is what it had, its current submodule with the
    rest of its section on top, and the sections still to come. *)
Lemma scan_lines_sections lines : forall i st st',
  scan_lines i lines st = Return st' ->
  collected st' =
  scanned st
  ++ match currentSubmodule st with
     | Some c => [fill c (section_lines lines)]
     | None => []
     end
  ++ sections i lines.
Proof.
  induction lines as [|line lines IH]; intros i st st'; cbn [scan_lines].
  - intros [= <-]. cbn [section_lines sections]. rewrite app_nil_r.
    unfold collected. destruct (currentSubmodule st) as [c|];
      [by rewrite fill_nil | by rewrite app_nil_r].
  - destruct (scan_line_returns i line st) as [st1 Hst1]. rewrite Hst1. cbn [bind].
    intros Hrest. apply IH in Hrest. rewrite Hrest.
    apply scan_line_step in Hst1. cbn [section_lines sections].
    destruct (header_name line) as [n|] eqn:Hn; cbn [is_some].
    + destruct Hst1 as [-> ->]. rewrite collected_cons, <- !app_assoc.
      cbn [app]. destruct (currentSubmodule st) as [c|]; by rewrite ?fill_nil.
    + destruct Hst1 as [-> ->].
      destruct (currentSubmodule st) as [c|]; cbn [fmap option_fmap option_map];
        [|done].
      by rewrite fill_cons.
Qed.

(** X17: the submodules validateGitmodules returns are the sections of the
    non-blank lines: one for each header line, in order, named by the
    header and numbered by its position among the non-blank lines, with the
    value of the last [path] and of the last [url] assignment between that
    header and the next, trimmed; assignments before the first header are
    dropped.  A header is a line [[submodule "name"]] with a non-empty name,
    and an assignment a line [key = value], with any white space around
    the equals sign and a non-empty value. *)
Theorem validateGitmodules_sections :
  (forall text r,
     validateGitmodules (JStr text) = Return r ->
     submodules r = sections 0 (lines_of text))
  /\ (forall line n,
        header_name line = Some n <->
        n <> [] /\ one_line n /\ line = header_prefix ++ n ++ header_suffix)
  /\ (forall key line v,
        assigned key line = Some v <->
        exists w1 w2 cap,
          blanks w1 /\ blanks w2 /\ cap <> [] /\ one_line cap
          /\ line = key ++ w1 ++ str "=" ++ w2 ++ cap /\ v = trim cap).
Proof.
  split; [|split; [apply header_name_some | apply assigned_some]].
  intros text r Hr.
  destruct (validateGitmodules_text text) as (st & Hscan & Hrun).
  rewrite Hrun in Hr. injection Hr as <-. cbn [submodules].
  by rewrite (scan_lines_sections _ _ _ _ Hscan).
Qed.

Lemma validateGitmodules_sections_witness :
  submodules
    {| base := {| isValid := true; errors := [] |};
       submodules :=
         [{| name := str "a"; lineNumber := 2; path := Some (str "y");
             url := Some (str "git@h:a") |}] |}
  = sections 0 (lines_of (str "path = dropped" ++ [LF] ++ [LF]
                          ++ header_prefix ++ str "a" ++ header_suffix ++ [LF]
                          ++ str "path = x" ++ [LF]
                          ++ str "  url=git@h:a  " ++ [LF]
                          ++ str "path   =   y")).
Proof.
  apply (proj1 validateGitmodules_sections).
  vm_compute. reflexivity.
Defined.

End GitmodulesSections.

(** ** validateGitmodules: where its errors come from *)

Section GitmodulesErrors.
Import Js Regex Validation Predicates.

Lemma test_of_exec_none r s : exec r s = None -> test r s = false.
Proof. unfold test. by intros ->. Qed.

(** An error one iteration adds is justified by its line. *)
Lemma scan_line_sound i line st st' e :
  scan_line i line st = Return st' ->
  In e (scan_errors st') ->
  In e (scan_errors st)
  \/ (e = header_message i line /\ bad_header line)
  \/ (e = property_message i line /\ unrecognized line
      /\ is_some (currentSubmodule st) = true).
Proof.
  unfold scan_line, bad_header, unrecognized.
  destruct (exec SUBMODULE_HEADER line) as [m|] eqn:Hh.
  { apply exec_header_some in Hh as (n & Hne & Hone & Hline & ->).
    cbn [group1 group groups nth_error default bind]. intros [= <-]. by left. }
  apply test_of_exec_none in Hh.
  destruct (exec PATH_PROPERTY line) as [mp|] eqn:Hp;
    [apply exec_property_cap in Hp as (cap & before & _ & _ & _ & ->)
    |apply test_of_exec_none in Hp];
  (destruct (exec URL_PROPERTY line) as [mu|] eqn:Hu;
    [apply exec_property_cap in Hu as (cap' & before' & _ & _ & _ & ->)
    |apply test_of_exec_none in Hu]);
  destruct (currentSubmodule st) as [c|] eqn:Hc;
  destruct (starts_with (str "[") line) eqn:Hb;
  destruct (starts_with (str "#") line) eqn:Hhash;
  cbn [group1 group groups nth_error default bind negb andb is_some];
  intros [= <-]; cbn [scan_errors]; rewrite ?in_app_iff; cbn [In];
  intros Hin; try (by left);
  destruct Hin as [Hin|[<-|[]]]; try (by left);
  first [ by (right; left) | by (right; right) ].
Qed.

Lemma scan_line_current_origin i line st st' :
  scan_line i line st = Return st' ->
  is_some (currentSubmodule st') = true ->
  is_some (currentSubmodule st) = true \/ test SUBMODULE_HEADER line = true.
Proof.
  intros Hscan Hsome. apply scan_line_step in Hscan.
  rewrite <- header_name_test.
  destruct (header_name line) as [n|]; [by right|].
  destruct Hscan as [_ Hcur]. rewrite Hcur in Hsome.
  left. by destruct (currentSubmodule st).
Qed.

(** Every error of the scanning loop is about one of its lines: a line
    that opens with a bracket and is no header, or a line inside a section
    that is neither an assignment nor a comment. *)
Lemma scan_lines_sound lines : forall i st st' e,
  scan_lines i lines st = Return st' ->
  In e (scan_errors st') ->
  In e (scan_errors st)
  \/ exists j line,
       lines !! j = Some line
       /\ ((e = header_message (i + j) line /\ bad_header line)
           \/ (e = property_message (i + j) line /\ unrecognized line
               /\ (is_some (currentSubmodule st) = true
                   \/ has_header (take j lines)))).
Proof.
  induction lines as [|line lines IH]; intros i st st' e; cbn [scan_lines].
  - intros [= <-] Hin. by left.
  - destruct (scan_line_returns i line st) as [st1 Hst1]. rewrite Hst1. cbn [bind].
    intros Hrest Hin.
    destruct (IH _ _ _ _ Hrest Hin) as [Hin1|(j & l & Hj & Hcase)].
    + destruct (scan_line_sound _ _ _ _ _ Hst1 Hin1) as [Hold|[Hhead|Hprop]];
        [by left | right; exists 0, line..].
      * rewrite Nat.add_0_r. split; [done | by left].
      * rewrite Nat.add_0_r. destruct Hprop as (He & Hun & Hcur).
        split; [done|]. right. split; [done|]. split; [done | by left].
    + right. exists (S j), l. split; [done|].
      replace (i + S j) with (i + 1 + j) by lia.
      destruct Hcase as [Hhead|(He & Hun & Horigin)]; [by left|].
      right. split; [done|]. split; [done|]. cbn [take].
      destruct Horigin as [Hcur|Hhdr].
      * destruct (scan_line_current_origin _ _ _ _ Hst1 Hcur) as [Hst|Hline];
          [by left|].
        right. by apply Exists_cons_hd.
      * right. by apply Exists_cons_tl.
Qed.

(** And every such line has its error. *)
Lemma scan_lines_complete lines : forall i st st' j line,
  scan_lines i lines st = Return st' ->
  lines !! j = Some line ->
  (bad_header line -> In (header_message (i + j) line) (scan_errors st'))
  /\ (unrecognized line ->
      is_some (currentSubmodule st) = true \/ has_header (take j lines) ->
      In (property_message (i + j) line) (scan_errors st')).
Proof.
  induction lines as [|line0 lines IH]; intros i st st' j line; cbn [scan_lines];
    [done|].
  destruct (scan_line_returns i line0 st) as [st1 Hst1]. rewrite Hst1. cbn [bind].
  intros Hrest Hj. destruct j as [|j].
  - injection Hj as ->. rewrite Nat.add_0_r.
    destruct (scan_lines_errors _ _ _ _ Hrest) as [new Hnew].
    split.
    + intros [Hb Hh]. rewrite Hnew. apply in_or_app. left.
      by apply (scan_line_bracket _ _ _ _ Hst1).
    + intros (Hh & Hp & Hu & Hb & Hhash) [Hcur|Hhdr].
      * rewrite Hnew. apply in_or_app. left.
        by apply (scan_line_property _ _ _ _ Hst1).
      * by apply Exists_nil in Hhdr.
  - cbn in Hj. replace (i + S j) with (i + 1 + j) by lia.
    destruct (IH _ _ _ _ _ Hrest Hj) as [Hhead Hprop]. split; [done|].
    intros Hun Horigin. apply Hprop; [done|].
    destruct Horigin as [Hcur|Hhdr].
    + left. by apply (scan_line_current _ _ _ _ Hst1).
    + cbn [take] in Hhdr. apply Exists_cons in Hhdr as [Hline|Hhdr]; [|by right].
      left. by apply (scan_line_header _ _ _ _ Hst1).
Qed.

Lemma present_false_None (o : option jsstring) :
  o <> Some [] -> present o = false -> o = None.
Proof. by destruct o as [[|c s]|]. Qed.

(** Where an error of validateGitmodules comes from. *)
Lemma gitmodules_error_origin (text : jsstring)
    (r : GitmodulesValidationResult) (e : jsstring) :
  validateGitmodules (JStr text) = Return r ->
  In e (errors r) ->
  (exists i line,
     lines_of text !! i = Some line
     /\ e = header_message i line /\ bad_header line)
  \/ (exists i line,
        lines_of text !! i = Some line
        /\ e = property_message i line /\ unrecognized line
        /\ has_header (take i (lines_of text)))
  \/ (exists sm,
        In sm (submodules r)
        /\ ((e = missing_path_message (name sm) /\ path sm = None)
            \/ (e = missing_url_message (name sm) /\ url sm = None)
            \/ (exists u, url sm = Some u
                          /\ e = invalid_url_message (name sm) u
                          /\ ~ uses_scheme accepted_schemes u))).
Proof.
  intros Hr Hin.
  destruct (validateGitmodules_text text) as (st & Hscan & Hrun).
  assert (Herrs : errors r = scan_errors st
                             ++ flat_map (check_submodule []) (submodules r)).
  { rewrite Hrun in Hr. by injection Hr as <-. }
  rewrite Herrs in Hin. apply in_app_or in Hin as [Hin|Hin].
  - destruct (scan_lines_sound _ _ _ _ _ Hscan Hin) as [[]|(j & line & Hj & Hcase)].
    destruct Hcase as [[He Hbad]|(He & Hun & [Hcur|Hhdr])]; [left | done | right; left].
    + by exists j, line.
    + by exists j, line.
  - right; right. apply in_flat_map in Hin as (sm & Hsm & Hcheck).
    exists sm. split; [done|].
    destruct (stored_values_nonempty _ _ _ Hr Hsm) as [Hpath Hurl].
    apply in_check_submodule_iff in Hcheck
      as [[Hp ->]|[[Hu ->]|[Hrej ->]]].
    + left. split; [done|]. by apply present_false_None.
    + right; left. split; [done|]. by apply present_false_None.
    + right; right. destruct (url sm) as [u|] eqn:Hu.
      * exists u. split; [done|]. split; [done|].
        assert (Hne : u <> []) by (by intros ->).
        rewrite <- (url_rejected_iff sm u Hu Hne). congruence.
      * unfold url_rejected in Hrej. by rewrite Hu in Hrej.
Qed.

(** X18: validateGitmodules reports nothing without cause.  Each of its
    errors is about a non-blank line that opens with a bracket and is no
    header, or about a line after a header that is neither a header, nor an
    assignment, nor a comment, each with the position of the line among the
    non-blank lines; or it is about a submodule it returns: one without
    path assignment, one without url assignment, or one whose url has none
    of the accepted schemes. *)
Theorem validateGitmodules_errors_sound (text : jsstring)
    (r : GitmodulesValidationResult) (e : jsstring) :
  validateGitmodules (JStr text) = Return r ->
  In e (errors r) ->
  (exists i line,
     lines_of text !! i = Some line
     /\ e = header_message i line /\ bad_header line)
  \/ (exists i line,
        lines_of text !! i = Some line
        /\ e = property_message i line /\ unrecognized line
        /\ has_header (take i (lines_of text)))
  \/ (exists sm,
        In sm (submodules r)
        /\ ((e = missing_path_message (name sm) /\ path sm = None)
            \/ (e = missing_url_message (name sm) /\ url sm = None)
            \/ (exists u, url sm = Some u
                          /\ e = invalid_url_message (name sm) u
                          /\ ~ uses_scheme accepted_schemes u))).
Proof. apply gitmodules_error_origin. Qed.

Lemma validateGitmodules_errors_sound_witness :
  (exists i line,
     lines_of (str "[oops]") !! i = Some line
     /\ str "Invalid section header at line 1: [oops]" = header_message i line
     /\ bad_header line)
  \/ (exists i line,
        lines_of (str "[oops]") !! i = Some line
        /\ str "Invalid section header at line 1: [oops]" = property_message i line
        /\ unrecognized line
        /\ has_header (take i (lines_of (str "[oops]"))))
  \/ (exists sm,
        In sm []
        /\ ((str "Invalid section header at line 1: [oops]"
             = missing_path_message (name sm) /\ path sm = None)
            \/ (str "Invalid section header at line 1: [oops]"
                = missing_url_message (name sm) /\ url sm = None)
            \/ (exists u, url sm = Some u
                          /\ str "Invalid section header at line 1: [oops]"
                             = invalid_url_message (name sm) u
                          /\ ~ uses_scheme accepted_schemes u))).
Proof.
  apply (validateGitmodules_errors_sound (str "[oops]")
           {| base := {| isValid := false;
                         errors := [str "Invalid section header at line 1: [oops]"] |};
              submodules := [] |}).
  - vm_compute. reflexivity.
  - left. reflexivity.
Defined.

End GitmodulesErrors.

(** ** validateGitmodules: the files it finds valid *)

Section GitmodulesValid.
Import Js Regex Validation Predicates.

Lemma validateGitmodules_isValid text r :
  validateGitmodules (JStr text) = Return r ->
  isValid r = true <-> errors r = [].
Proof.
  intros Hr. destruct (validateGitmodules_text text) as (st & _ & Hrun).
  rewrite Hrun in Hr. injection Hr as <-. cbn [base isValid errors].
  rewrite Nat.eqb_eq. apply length_zero_iff_nil.
Qed.

(** X19: validateGitmodules finds a text valid exactly when no non-blank
    line opens with a bracket without being a header, no line after the
    first header is other than a header, an assignment or a comment, and
    every section has a path and a url, the url with one of the accepted
    schemes.  Lines before the first header are not looked at unless they
    open with a bracket, and nothing else is asked of a section: neither
    that names or paths differ, nor that the path says anything. *)
Theorem validateGitmodules_valid (text : jsstring) (r : GitmodulesValidationResult) :
  validateGitmodules (JStr text) = Return r ->
  isValid r = true <->
  (forall line, In line (lines_of text) -> ~ bad_header line)
  /\ (forall i line,
        lines_of text !! i = Some line ->
        has_header (take i (lines_of text)) -> ~ unrecognized line)
  /\ Forall (fun sm => (exists p, path sm = Some p)
                       /\ exists u, url sm = Some u
                                    /\ uses_scheme accepted_schemes u)
            (sections 0 (lines_of text)).
Proof.
  intros Hr.
  destruct (validateGitmodules_text text) as (st & Hscan & Hrun).
  assert (Hsubs : submodules r = sections 0 (lines_of text)).
  { rewrite Hrun in Hr. injection Hr as <-. cbn [submodules].
    by rewrite (scan_lines_sections _ _ _ _ Hscan). }
  assert (Herrs : forall e, In e (scan_errors st) -> In e (errors r)).
  { intros e He. rewrite Hrun in Hr. injection Hr as <-. cbn [base errors].
    apply in_or_app. by left. }
  split.
  - intros Hvalid.
    pose proof (proj1 (validateGitmodules_isValid text r Hr) Hvalid) as Hnone.
    split; [|split].
    + intros line Hin Hbad. apply list_elem_of_In, list_elem_of_lookup in Hin as [j Hj].
      destruct (scan_lines_complete _ _ _ _ _ _ Hscan Hj) as [Hhead _].
      specialize (Herrs _ (Hhead Hbad)). by rewrite Hnone in Herrs.
    + intros j line Hj Hhdr Hun.
      destruct (scan_lines_complete _ _ _ _ _ _ Hscan Hj) as [_ Hprop].
      specialize (Herrs _ (Hprop Hun (or_intror Hhdr))). by rewrite Hnone in Herrs.
    + rewrite <- Hsubs. pose proof (valid_complete text r Hr Hvalid) as Hall.
      eapply List.Forall_impl; [|exact Hall].
      intros sm (_ & (p & Hp & _) & (u & Hu & _ & Hscheme)).
      split; [by exists p | by exists u].
  - intros (Hheads & Hprops & Hall).
    apply (validateGitmodules_isValid text r Hr).
    destruct (errors r) as [|e rest] eqn:He; [done|]. exfalso.
    assert (Hin : In e (errors r)) by (rewrite He; by left).
    destruct (gitmodules_error_origin text r e Hr Hin)
      as [(i & line & Hi & _ & Hbad)|[(i & line & Hi & _ & Hun & Hhdr)
         |(sm & Hsm & Hcase)]].
    + apply (Hheads line); [|done].
      apply list_elem_of_In. by apply list_elem_of_lookup_2 in Hi.
    + by apply (Hprops i line).
    + rewrite Hsubs in Hsm. rewrite List.Forall_forall in Hall.
      destruct (Hall sm Hsm) as [(p & Hp) (u & Hu & Hscheme)].
      destruct Hcase as [[_ Hnp]|[[_ Hnu]|(u' & Hu' & _ & Hno)]]; congruence.
Qed.

Lemma validateGitmodules_valid_witness :
  isValid {| isValid := true; errors := [] |} = true <->
  (forall line, In line (lines_of fixture_text) -> ~ bad_header line)
  /\ (forall i line,
        lines_of fixture_text !! i = Some line ->
        has_header (take i (lines_of fixture_text)) -> ~ unrecognized line)
  /\ Forall (fun sm => (exists p, path sm = Some p)
                       /\ exists u, url sm = Some u
                                    /\ uses_scheme accepted_schemes u)
            (sections 0 (lines_of fixture_text)).
Proof.
  apply (validateGitmodules_valid fixture_text
           {| base := {| isValid := true; errors := [] |};
              submodules := [fixture_submodule] |}).
  vm_compute. reflexivity.
Defined.

End GitmodulesValid.

(** ** validateGitmodules: line endings, and what it stores *)

Section GitmodulesLayout.
Import Js Regex Validation Predicates.

Lemma trim_app_blanks s w : blanks w -> trim (s ++ w) = trim s.
Proof.
  intros Hw. unfold trim. induction s as [|c s IH].
  - cbn [app]. pose proof (trim_start_blanks w [] Hw) as H.
    rewrite app_nil_r in H. by rewrite H.
  - cbn [app trim_start]. destruct (is_space c) eqn:Hc; [exact IH|].
    apply (trim_end_blanks_app (c :: s) w Hw).
Qed.

(** The pieces of the text with carriage returns are those of the text
    without, some with a carriage return at their end. *)
Lemma split_lines_to_crlf text :
  Forall2 (fun a b => a = b \/ a = b ++ [CR])
          (split_lines (to_crlf text)) (split_lines text).
Proof.
  induction text as [|c text IH]; cbn [to_crlf split_lines].
  - constructor; [by left | constructor].
  - destruct (char_eqb c LF) eqn:Hc.
    + cbn [split_lines]. change (char_eqb CR LF) with false.
      change (char_eqb LF LF) with true. cbn iota.
      constructor; [by right | exact IH].
    + cbn [split_lines]. rewrite Hc.
      destruct IH as [|a b rest rest' Hab Hrest]; [constructor; [by left|constructor]|].
      constructor; [|done]. destruct Hab as [->| ->]; [by left | by right].
Qed.

Lemma map_trim_related (l1 l2 : list jsstring) :
  Forall2 (fun a b => trim a = trim b) l1 l2 -> map trim l1 = map trim l2.
Proof. induction 1 as [|a b l1 l2 Hab _ IH]; [done|]. cbn. by rewrite Hab, IH. Qed.

Lemma validateGitmodules_lines t1 t2 :
  Forall2 (fun a b => trim a = trim b) (split_lines t1) (split_lines t2) ->
  validateGitmodules (JStr t1) = validateGitmodules (JStr t2).
Proof.
  intros Hrel. unfold validateGitmodules, lines_of.
  by rewrite (map_trim_related _ _ Hrel).
Qed.

(** X20: validateGitmodules reads its lines trimmed, so the white space
    around them does not matter: two texts whose lines agree one by one
    after trimming get the same result; and so do a text and the same text
    with a carriage return before every line feed. *)
Theorem validateGitmodules_line_endings :
  (forall t1 t2,
     Forall2 (fun a b => trim a = trim b) (split_lines t1) (split_lines t2) ->
     validateGitmodules (JStr t1) = validateGitmodules (JStr t2))
  /\ (forall text,
        validateGitmodules (JStr (to_crlf text)) = validateGitmodules (JStr text)).
Proof.
  split; [apply validateGitmodules_lines|].
  intros text. apply validateGitmodules_lines.
  eapply Forall2_impl; [apply split_lines_to_crlf|].
  intros a b [->| ->]; [done|]. by apply trim_app_blanks.
Qed.

Lemma validateGitmodules_line_endings_witness :
  validateGitmodules (JStr (str "  # comment  "))
  = validateGitmodules (JStr (str "# comment")).
Proof.
  apply (proj1 validateGitmodules_line_endings).
  vm_compute. constructor; [reflexivity | constructor].
Defined.

Lemma sections_lineNumber lines : forall i sm,
  In sm (sections i lines) -> i < lineNumber sm <= i + length lines.
Proof.
  induction lines as [|line lines IH]; intros i sm; cbn [sections length]; [done|].
  destruct (header_name line) as [n|].
  - intros [<-|Hin]; [cbn; lia|]. apply IH in Hin. lia.
  - intros Hin. apply IH in Hin. lia.
Qed.

(** X21: validateGitmodules never throws, whatever it is given.  For a
    value that is not a string the result is the one error saying so; for a
    string, the result is valid exactly when it has no errors, and every
    submodule in it has a non-empty name on one line, a path and a url that
    are, when set, non-empty, trimmed and on one line, and a line number
    between 1 and the number of non-blank lines. *)
Theorem validateGitmodules_total (input : value) :
  exists r,
    validateGitmodules input = Return r
    /\ ((forall text, input <> JStr text) ->
        r = {| base := {| isValid := false;
                          errors := [str "Gitmodules must be a string"] |};
               submodules := [] |})
    /\ (forall text,
          input = JStr text ->
          (isValid r = true <-> errors r = [])
          /\ forall sm, In sm (submodules r) ->
               parsed_entry sm /\ filled_entry sm
               /\ 1 <= lineNumber sm <= length (lines_of text)).
Proof.
  destruct input as [| |b|n|text|items|props];
    try (eexists; split; [reflexivity|]; split; [done | by intros text [=]]).
  destruct (validateGitmodules_returns (JStr text)) as [r Hr]. exists r.
  split; [done|]. split; [by intros Hno; destruct (Hno text)|].
  intros text' [= <-]. split; [by apply (validateGitmodules_isValid text)|].
  intros sm Hsm. split; [|split].
  - destruct (validateGitmodules_text text) as (st & Hscan & Hrun).
    rewrite Hrun in Hr. injection Hr as <-. cbn [submodules] in Hsm.
    pose proof (scan_lines_parsed _ _ _ _ Hscan (Forall_nil_2 _)) as Hall.
    rewrite List.Forall_forall in Hall. by apply Hall.
  - by apply (stored_values_nonempty _ _ _ Hr).
  - destruct (validateGitmodules_text text) as (st & Hscan & Hrun).
    rewrite Hrun in Hr. injection Hr as <-. cbn [submodules] in Hsm.
    rewrite (scan_lines_sections _ _ _ _ Hscan) in Hsm. cbn in Hsm.
    apply sections_lineNumber in Hsm. lia.
Qed.

Lemma validateGitmodules_total_witness :
  exists r,
    validateGitmodules (JNum (str "5")) = Return r
    /\ r = {| base := {| isValid := false;
                         errors := [str "Gitmodules must be a string"] |};
              submodules := [] |}.
Proof.
  destruct (validateGitmodules_total (JNum (str "5"))) as (r & Hr & Hshape & _).
  exists r. split; [exact Hr|]. apply Hshape. intros text. discriminate.
Defined.

End GitmodulesLayout.

(** ** validateGitmodules: what it reports of a section *)

Section GitmodulesReports.
Import Js Regex Validation Predicates.

Lemma check_submodule_section_errors sm :
  filled_entry sm -> section_errors sm (check_submodule [] sm).
Proof.
  intros [Hpath Hurl]. unfold section_errors, check_submodule.
  exists (push_if (negb (present (path sm))) (missing_path_message (name sm)) []),
         (push_if (negb (present (url sm))) (missing_url_message (name sm)) []),
         (push_if (url_rejected sm)
                  (invalid_url_message (name sm) (default [] (url sm))) []).
  split; [|split].
  - by destruct (negb (present (path sm))), (negb (present (url sm))),
         (url_rejected sm).
  - by destruct (path sm) as [[|c p]|].
  - destruct (url sm) as [u|] eqn:Hu.
    2:{ unfold url_rejected. by rewrite Hu. }
    assert (Hne : u <> []) by congruence.
    split; [by destruct u|].
    pose proof (url_rejected_iff sm u Hu Hne) as Hiff.
    destruct (url_rejected sm) eqn:Hrej; cbn [push_if default].
    + right. split; [|done]. intros Hok. apply Hiff in Hok. congruence.
    + left. split; [by apply Hiff | done].
Qed.

Lemma scan_error_invalid text r e :
  validateGitmodules (JStr text) = Return r ->
  forall st, scan_lines 0 (lines_of text) initial_state = Return st ->
  In e (scan_errors st) -> begins_with "Invalid " e.
Proof.
  intros _ st Hscan Hin.
  destruct (scan_lines_sound _ _ _ _ _ Hscan Hin) as [[]|(j & line & _ & Hcase)].
  destruct Hcase as [[-> _]|(-> & _)]; eexists; reflexivity.
Qed.

(** The errors of a text: those of the scanning loop, each about a line,
    and then those of each section in turn. *)
Lemma validateGitmodules_error_groups text r :
  validateGitmodules (JStr text) = Return r ->
  submodules r = sections 0 (lines_of text)
  /\ exists line_errors groups,
       errors r = line_errors ++ concat groups
       /\ Forall (begins_with "Invalid ") line_errors
       /\ Forall2 section_errors (sections 0 (lines_of text)) groups.
Proof.
  intros Hr.
  destruct (validateGitmodules_text text) as (st & Hscan & Hrun).
  assert (Hsubs : submodules r = sections 0 (lines_of text)).
  { rewrite Hrun in Hr. injection Hr as <-. cbn [submodules].
    by rewrite (scan_lines_sections _ _ _ _ Hscan). }
  split; [done|].
  exists (scan_errors st), (map (check_submodule []) (submodules r)).
  split; [|split].
  - rewrite <- flat_map_concat_map. rewrite Hrun in Hr. by injection Hr as <-.
  - apply List.Forall_forall. intros e He.
    by apply (scan_error_invalid text r e Hr st).
  - rewrite <- Hsubs.
    assert (Hfilled : Forall filled_entry (submodules r)).
    { apply List.Forall_forall. intros sm.
      by apply (stored_values_nonempty (JStr text)). }
    clear -Hfilled. induction Hfilled as [|sm sms Hsm _ IH]; [constructor|].
    cbn [map]. constructor; [|done].
    by apply check_submodule_section_errors.
Qed.

Lemma section_errors_In sm group sms groups e :
  Forall2 section_errors sms groups ->
  In sm sms -> section_errors sm group ->
  (forall group', section_errors sm group' -> In e group') ->
  In e (concat groups).
Proof.
  intros Hall Hsm _ Hevery. induction Hall as [|sm0 g0 sms groups Hg0 _ IH];
    [done|].
  cbn [concat]. apply in_or_app. destruct Hsm as [->|Hsm]; [left | right].
  - by apply Hevery.
  - by apply IH.
Qed.

(** C5: whatever the input, validateGitmodules returns a result and does
    not throw.  For a text, the submodules of the result are the sections
    of the text, one for each header line; and for each section without a
    path assignment (without a url assignment) the errors hold the message
    [Submodule "name" missing path property] (resp. [... missing url
    property]) with the name of that section, and the result is invalid. *)
Theorem validateGitmodules_reports_incomplete :
  (forall input : value, exists r, validateGitmodules input = Return r)
  /\ (forall text : jsstring,
        exists r,
          validateGitmodules (JStr text) = Return r
          /\ submodules r = sections 0 (lines_of text)
          /\ (forall sm,
                In sm (sections 0 (lines_of text)) -> path sm = None ->
                In (str "Submodule " ++ [DQUOTE] ++ name sm ++ [DQUOTE]
                    ++ str " missing path property") (errors r)
                /\ isValid r = false)
          /\ (forall sm,
                In sm (sections 0 (lines_of text)) -> url sm = None ->
                In (str "Submodule " ++ [DQUOTE] ++ name sm ++ [DQUOTE]
                    ++ str " missing url property") (errors r)
                /\ isValid r = false)).
Proof.
  split; [apply validateGitmodules_returns|].
  intros text. destruct (validateGitmodules_returns (JStr text)) as [r Hr].
  exists r. split; [done|].
  destruct (validateGitmodules_error_groups text r Hr)
    as (Hsubs & line_errors & groups & Herrs & _ & Hgroups).
  split; [done|].
  assert (Hinvalid : forall e, In e (concat groups) ->
                               In e (errors r) /\ isValid r = false).
  { intros e He. assert (Hin : In e (errors r)).
    { rewrite Herrs. apply in_or_app. by right. }
    split; [done|]. by apply (isValid_false_of_error (JStr text) r e). }
  split; intros sm Hsm Hnone; apply Hinvalid.
  - apply (section_errors_In sm (check_submodule [] sm) _ _ _ Hgroups Hsm).
    + apply check_submodule_section_errors.
      apply (stored_values_nonempty (JStr text) r); [done | by rewrite Hsubs].
    + intros group' (a & b & c & -> & Ha & _). rewrite Hnone in Ha. subst a.
      by left.
  - apply (section_errors_In sm (check_submodule [] sm) _ _ _ Hgroups Hsm).
    + apply check_submodule_section_errors.
      apply (stored_values_nonempty (JStr text) r); [done | by rewrite Hsubs].
    + intros group' (a & b & c & -> & _ & Hb). rewrite Hnone in Hb.
      destruct Hb as [-> _]. apply in_or_app. right. by left.
Qed.

Lemma validateGitmodules_reports_incomplete_witness :
  exists r,
    validateGitmodules (JStr (header_prefix ++ str "x" ++ header_suffix)) = Return r
    /\ In (str "Submodule " ++ [DQUOTE] ++ str "x" ++ [DQUOTE]
           ++ str " missing path property") (errors r)
    /\ In (str "Submodule " ++ [DQUOTE] ++ str "x" ++ [DQUOTE]
           ++ str " missing url property") (errors r)
    /\ isValid r = false.
Proof.
  destruct (proj2 validateGitmodules_reports_incomplete
              (header_prefix ++ str "x" ++ header_suffix))
    as (r & Hr & _ & Hpath & Hurl).
  exists r. split; [exact Hr|].
  assert (Hsm : In {| name := str "x"; lineNumber := 1; path := None; url := None |}
                   (sections 0 (lines_of (header_prefix ++ str "x" ++ header_suffix)))).
  { vm_compute. left. reflexivity. }
  destruct (Hpath _ Hsm eq_refl) as [H1 H2].
  destruct (Hurl _ Hsm eq_refl) as [H3 _].
  split; [exact H1|]. split; [exact H3 | exact H2].
Defined.

(** C6, as the code has it: the url of a section is accepted exactly when
    it begins with [http://], [https://], [git@] or [ssh://].  The errors of
    a text are those about its lines, each of which begins with [Invalid],
    followed by those of its sections in turn; a section whose url begins
    with one of the four has no error about its url there, and one whose url
    begins with none has the error
    [Submodule "name" has invalid URL format: url], which names it; such a
    section makes the result invalid, and a valid result holds only urls
    with one of the four. *)
Theorem validateGitmodules_url_scheme (text : jsstring)
    (r : GitmodulesValidationResult) :
  validateGitmodules (JStr text) = Return r ->
  (exists line_errors groups,
     errors r = line_errors ++ concat groups
     /\ Forall (begins_with "Invalid ") line_errors
     /\ Forall2 section_errors (sections 0 (lines_of text)) groups)
  /\ (forall sm u,
        In sm (sections 0 (lines_of text)) -> url sm = Some u ->
        ~ uses_scheme accepted_schemes u ->
        In (str "Submodule " ++ [DQUOTE] ++ name sm ++ [DQUOTE]
            ++ str " has invalid URL format: " ++ u) (errors r)
        /\ isValid r = false)
  /\ (isValid r = true ->
      forall sm, In sm (sections 0 (lines_of text)) ->
                 exists u, url sm = Some u /\ uses_scheme accepted_schemes u).
Proof.
  intros Hr.
  destruct (validateGitmodules_error_groups text r Hr) as (Hsubs & Hgroups).
  split; [done|]. split.
  - intros sm u Hsm Hu Hno. rewrite <- Hsubs in Hsm.
    assert (Hne : u <> []).
    { destruct (stored_values_nonempty _ _ _ Hr Hsm) as [_ Hfilled]. congruence. }
    apply (rejected_url_reported (JStr text) r sm u Hr Hsm Hu Hne Hno).
  - intros Hvalid sm Hsm. rewrite <- Hsubs in Hsm.
    by apply (valid_urls_accepted (JStr text) r Hr Hvalid).
Qed.

Lemma validateGitmodules_url_scheme_witness :
  exists line_errors groups,
    @nil jsstring = line_errors ++ concat groups
    /\ Forall (begins_with "Invalid ") line_errors
    /\ Forall2 section_errors (sections 0 (lines_of fixture_text)) groups.
Proof.
  apply (validateGitmodules_url_scheme fixture_text
           {| base := {| isValid := true; errors := [] |};
              submodules := [fixture_submodule] |}).
  vm_compute. reflexivity.
Defined.

(** C6 as stated fails: a url beginning with [http://] uses none of
    [https://], [git@] and [ssh://], and is accepted. *)
Lemma validateGitmodules_url_scheme_counterexample :
  ~ uses_scheme listed_schemes (str "http://example.com/x.git")
  /\ validateGitmodules
       (JStr (header_prefix ++ str "x" ++ header_suffix ++ [LF]
              ++ str "path = x" ++ [LF]
              ++ str "url = http://example.com/x.git"))
     = Return {| base := {| isValid := true; errors := [] |};
                 submodules :=
                   [{| name := str "x"; lineNumber := 1; path := Some (str "x");
                       url := Some (str "http://example.com/x.git") |}] |}.
Proof.
  split; [|by vm_compute].
  unfold uses_scheme, listed_schemes, begins_with.
  rewrite !Exists_cons, Exists_nil.
  intros [(t & H)|[(t & H)|[(t & H)|[]]]]; vm_compute in H; discriminate H.
Qed.

End GitmodulesReports.

(** ** The canonical sorter *)

Section TextModelLines.
Import Js Regex Validation Predicates CanonicalSorter Git.

Lemma split_lines_no_LF s :
  Forall (fun l => forallb (fun c => negb (char_eqb c LF)) l = true) (split_lines s).
Proof.
  induction s as [|c s IH]; cbn [split_lines]; [by repeat constructor|].
  destruct (char_eqb c LF) eqn:Hc; [by constructor|].
  destruct (split_lines s) as [|piece pieces].
  { constructor; [|done]. cbn [forallb]. by rewrite Hc. }
  apply Forall_cons in IH as [Hpiece Hpieces]. constructor; [|done].
  cbn [forallb]. by rewrite Hc, Hpiece.
Qed.

Lemma split_lines_LF_line l tail :
  forallb (fun c => negb (char_eqb c LF)) l = true ->
  split_lines (l ++ LF :: tail) = l :: split_lines tail.
Proof.
  induction l as [|c l IH]; [done|]. cbn [app forallb split_lines].
  intros H. apply andb_true_iff in H as [Hc H].
  apply negb_true_iff in Hc. rewrite Hc, IH by done. done.
Qed.

(** The lines of the model are non-blank, trimmed and without line feed. *)
Lemma lines_of_model text : Forall model_line (lines_of text).
Proof.
  apply List.Forall_forall. intros line Hin. unfold lines_of in Hin.
  apply List.filter_In in Hin as [Hin Hlen].
  apply in_map_iff in Hin as (raw & <- & Hraw). split; [|split].
  - intros Hnil. by rewrite Hnil in Hlen.
  - apply trim_idem.
  - apply forallb_trim_end, forallb_trim_start.
    pose proof (split_lines_no_LF text) as Hall.
    rewrite List.Forall_forall in Hall. by apply Hall.
Qed.

(** Reading back lines written out one by one. *)
Lemma lines_of_written ls :
  Forall (fun l => forallb (fun c => negb (char_eqb c LF)) l = true
                   /\ trim l <> []) ls ->
  lines_of (flat_map (fun line => line ++ [LF]) ls) = map trim ls.
Proof.
  rewrite lines_of_eq. induction 1 as [|l ls [Hl Hne] _ IH]; [done|].
  cbn [flat_map map]. rewrite <- app_assoc. cbn [app].
  rewrite split_lines_LF_line by done.
  rewrite nonblank_lines_cons by done. by rewrite IH.
Qed.

Lemma one_line_no_LF s :
  one_line s -> forallb (fun c => negb (char_eqb c LF)) s = true.
Proof.
  unfold one_line. induction s as [|c s IH]; [done|]. cbn [forallb].
  intros H. apply andb_true_iff in H as [Hc H].
  by rewrite (one_line_not_LF c Hc), IH.
Qed.

Lemma header_literal n :
  str "[submodule " ++ [DQUOTE] ++ n ++ [DQUOTE] ++ str "]"
  = header_prefix ++ n ++ header_suffix.
Proof.
  unfold header_prefix, header_suffix. by rewrite <- !app_assoc.
Qed.

Lemma no_LF_app a b :
  forallb (fun c => negb (char_eqb c LF)) a = true ->
  forallb (fun c => negb (char_eqb c LF)) b = true ->
  forallb (fun c => negb (char_eqb c LF)) (a ++ b) = true.
Proof. intros Ha Hb. by rewrite forallb_app, Ha, Hb. Qed.

(** The lines of a canonical block, as they are written and as they are
    read back. *)
Lemma block_lines_read b :
  canonical_block b ->
  map trim (block_lines b) = read_lines b
  /\ Forall (fun l => forallb (fun c => negb (char_eqb c LF)) l = true
                      /\ trim l <> []) (block_lines b).
Proof.
  intros [((Hn1 & Hn2 & Hcp & Hcu) & (p & Hp & Hpne) & (u & Hu & Hune & _)) Hkept].
  specialize (Hcp p Hp). specialize (Hcu u Hu).
  unfold block_lines, read_lines, entry_lines. rewrite Hp, Hu, header_literal.
  change (default [] (Some p)) with p. change (default [] (Some u)) with u.
  assert (Hh : trim (header_prefix ++ name (section_entry b) ++ header_suffix)
               = header_prefix ++ name (section_entry b) ++ header_suffix)
    by apply trim_header_line.
  assert (Htp : trim (str "  path = " ++ p) = str "path = " ++ p).
  { change (str "  path = " ++ p) with (str "  " ++ "p"%char :: str "ath = " ++ p).
    by rewrite trim_indented_value. }
  assert (Htu : trim (str "  url = " ++ u) = str "url = " ++ u).
  { change (str "  url = " ++ u) with (str "  " ++ "u"%char :: str "rl = " ++ u).
    by rewrite trim_indented_value. }
  assert (Htk : map trim (kept b) = kept b).
  { clear -Hkept. induction Hkept as [|l ls [(_ & Hl & _) _] _ IH]; [done|].
    cbn [map]. by rewrite Hl, IH. }
  split.
  - rewrite map_app. cbn [map]. by rewrite Hh, Htp, Htu, Htk.
  - apply Forall_app. split.
    + repeat constructor.
      * apply one_line_no_LF. by apply one_line_header.
      * rewrite Hh, header_line_eq. done.
      * apply no_LF_app; [done|]. apply one_line_no_LF, Hcp.
      * by rewrite Htp.
      * apply no_LF_app; [done|]. apply one_line_no_LF, Hcu.
      * by rewrite Htu.
    + eapply List.Forall_impl; [|exact Hkept].
      intros l [(Hne & Hl & Hlf) _]. split; [done|]. by rewrite Hl.
Qed.

Lemma lines_of_serialized pre bs :
  Forall model_line pre -> Forall canonical_block bs ->
  lines_of (serializeGitmodules {| preamble := pre; blocks := bs |})
  = pre ++ flat_map read_lines bs.
Proof.
  intros Hpre Hbs. unfold serializeGitmodules. cbn [preamble blocks].
  rewrite lines_of_written.
  - rewrite map_app. f_equal.
    + clear -Hpre. induction Hpre as [|l ls (_ & Hl & _) _ IH]; [done|].
      cbn [map]. by rewrite Hl, IH.
    + clear -Hbs. induction Hbs as [|b bs Hb _ IH]; [done|].
      cbn [flat_map]. rewrite map_app, IH.
      by rewrite (proj1 (block_lines_read b Hb)).
  - apply Forall_app. split.
    + eapply List.Forall_impl; [|exact Hpre].
      intros l (Hne & Hl & Hlf). split; [done|]. by rewrite Hl.
    + clear -Hbs. induction Hbs as [|b bs Hb _ IH]; [constructor|].
      cbn [flat_map]. apply Forall_app. split; [|done].
      apply (block_lines_read b Hb).
Qed.

End TextModelLines.

Section TextModelBlocks.
Import Js Regex Validation Predicates CanonicalSorter Git.

Lemma header_name_none line :
  starts_with (str "[") line = false -> header_name line = None.
Proof. intros Hb. unfold header_name. by rewrite exec_header_none. Qed.

Lemma comment_first line :
  starts_with (str "#") line = true -> exists tail, line = "#"%char :: tail.
Proof.
  destruct line as [|c tail]; [done|]. cbn. unfold char_eqb.
  intros [Hc _]%andb_true_iff. apply Ascii.eqb_eq in Hc. subst. by eexists.
Qed.

Lemma comment_unread line :
  starts_with (str "#") line = true ->
  header_name line = None
  /\ assigned (str "path") line = None
  /\ assigned (str "url") line = None
  /\ is_assignment line = false
  /\ starts_with (str "[") line = false.
Proof.
  intros [tail ->]%comment_first.
  assert (Hp : exec PATH_PROPERTY ("#"%char :: tail) = None)
    by (by apply (exec_property_none (str "path"))).
  assert (Hu : exec URL_PROPERTY ("#"%char :: tail) = None)
    by (by apply (exec_property_none (str "url"))).
  split; [by apply header_name_none|].
  split; [by apply assigned_none|]. split; [by apply assigned_none|].
  split; [|done]. unfold is_assignment. by rewrite <- !is_some_exec, Hp, Hu.
Qed.

Lemma assignment_read key c k p :
  key = c :: k -> c <> "["%char -> clean p -> p <> [] ->
  header_name (key ++ str " = " ++ p) = None
  /\ assigned key (key ++ str " = " ++ p) = Some p
  /\ test (property_pattern key) (key ++ str " = " ++ p) = true.
Proof.
  intros -> Hc [Hone Htrim] Hne. split; [|split].
  - apply header_name_none. change (str "[") with ["["%char].
    cbn [app starts_with]. unfold char_eqb.
    destruct (Ascii.eqb "[" c) eqn:Heq; [|done].
    apply Ascii.eqb_eq in Heq. congruence.
  - apply assigned_some. exists (str " "), (str " "), p.
    repeat split; try done.
  - destruct (exec_property_value (c :: k) p (conj Hone Htrim) Hne)
      as (m & cap & Hm & _).
    by rewrite <- is_some_exec, Hm.
Qed.

Lemma section_lines_app ls rest :
  Forall (fun l => header_name l = None) ls ->
  section_lines (ls ++ rest) = ls ++ section_lines rest.
Proof.
  induction 1 as [|l ls Hl _ IH]; [done|]. cbn [app section_lines].
  by rewrite Hl, IH.
Qed.

Lemma blocks_of_app ls rest : forall i,
  Forall (fun l => header_name l = None) ls ->
  blocks_of i (ls ++ rest) = blocks_of (i + length ls) rest.
Proof.
  induction ls as [|l ls IH]; intros i Hall; cbn [app length blocks_of].
  - by rewrite Nat.add_0_r.
  - apply Forall_cons in Hall as [Hl Hall]. rewrite Hl, IH by done.
    f_equal. lia.
Qed.

Lemma sections_blocks lines : forall i,
  map section_entry (blocks_of i lines) = sections i lines.
Proof.
  induction lines as [|line lines IH]; intros i; [done|].
  cbn [blocks_of sections]. destruct (header_name line); cbn [map]; by rewrite IH.
Qed.

Lemma omap_none {A B} (f : A -> option B) (l : list A) :
  Forall (fun x => f x = None) l -> omap f l = [].
Proof.
  induction 1 as [|x l Hx _ IH]; [done|]. cbn [omap list_omap]. by rewrite Hx.
Qed.

(** What is read back from the lines of a canonical block. *)
Lemma read_lines_shape b :
  canonical_block b ->
  exists p u,
    path (section_entry b) = Some p /\ url (section_entry b) = Some u
    /\ read_lines b
       = (header_prefix ++ name (section_entry b) ++ header_suffix)
         :: (str "path = " ++ p) :: (str "url = " ++ u) :: kept b
    /\ header_name (header_prefix ++ name (section_entry b) ++ header_suffix)
       = Some (name (section_entry b))
    /\ Forall (fun l => header_name l = None)
              ((str "path = " ++ p) :: (str "url = " ++ u) :: kept b)
    /\ fill {| name := name (section_entry b); lineNumber := 0;
               path := None; url := None |}
            ((str "path = " ++ p) :: (str "url = " ++ u) :: kept b)
       = {| name := name (section_entry b); lineNumber := 0;
            path := Some p; url := Some u |}
    /\ unknown_lines ((str "path = " ++ p) :: (str "url = " ++ u) :: kept b)
       = kept b.
Proof.
  intros [((Hn1 & Hn2 & Hcp & Hcu) & (p & Hp & Hpne) & (u & Hu & Hune & _)) Hkept].
  specialize (Hcp p Hp). specialize (Hcu u Hu). exists p, u.
  destruct (assignment_read (str "path") "p" (str "ath") p eq_refl
              ltac:(discriminate) Hcp Hpne) as (Hph & Hpa & Hpt).
  destruct (assignment_read (str "url") "u" (str "rl") u eq_refl
              ltac:(discriminate) Hcu Hune) as (Huh & Hua & Hut).
  change (str "path" ++ str " = " ++ p) with (str "path = " ++ p) in *.
  change (str "url" ++ str " = " ++ u) with (str "url = " ++ u) in *.
  assert (Hpu : assigned (str "url") (str "path = " ++ p) = None).
  { apply assigned_none. by apply (exec_property_none (str "url")). }
  assert (Hup : assigned (str "path") (str "url = " ++ u) = None).
  { apply assigned_none. by apply (exec_property_none (str "path")). }
  assert (Hcomments : Forall (fun l => header_name l = None
                                       /\ assigned (str "path") l = None
                                       /\ assigned (str "url") l = None
                                       /\ is_assignment l = false) (kept b)).
  { eapply List.Forall_impl; [|exact Hkept]. intros l [_ Hl].
    destruct (comment_unread l Hl) as (? & ? & ? & ? & _). done. }
  split; [done|]. split; [done|].
  split; [unfold read_lines, entry_lines; by rewrite Hp, Hu|].
  split; [by apply header_name_some|]. split; [|split].
  - repeat constructor; try done.
    eapply List.Forall_impl; [|exact Hcomments]. by intros l [? _].
  - rewrite !fill_cons, Hpa, Hpu, Hup, Hua. cbn [name lineNumber path url].
    unfold fill, last_assigned.
    rewrite !omap_none; [done|..];
      (eapply List.Forall_impl; [|exact Hcomments]); by intros l (_ & ? & ? & _).
  - assert (Hpl : is_assignment (str "path = " ++ p) = true).
    { unfold is_assignment.
      change PATH_PROPERTY with (property_pattern (str "path")).
      by rewrite Hpt. }
    assert (Hul : is_assignment (str "url = " ++ u) = true).
    { unfold is_assignment.
      change URL_PROPERTY with (property_pattern (str "url")).
      by rewrite Hut, orb_true_r. }
    unfold unknown_lines. cbn [List.filter]. rewrite Hpl, Hul. cbn [negb].
    clear -Hcomments. induction Hcomments as [|l ls (_ & _ & _ & Hl) _ IH]; [done|].
    cbn [List.filter]. by rewrite Hl, IH.
Qed.

Lemma fill_lineNumber n i j block :
  fill {| name := n; lineNumber := i; path := None; url := None |} block
  = {| name := n; lineNumber := i;
       path := path (fill {| name := n; lineNumber := j;
                             path := None; url := None |} block);
       url := url (fill {| name := n; lineNumber := j;
                           path := None; url := None |} block) |}.
Proof. reflexivity. Qed.

Lemma section_lines_read bs :
  Forall canonical_block bs -> section_lines (flat_map read_lines bs) = [].
Proof.
  intros Hall. destruct Hall as [|b bs' Hb _]; [done|]. cbn [flat_map].
  destruct (read_lines_shape b Hb) as (p & u & _ & _ & -> & Hh & _).
  cbn [app section_lines]. by rewrite Hh.
Qed.

Lemma blocks_of_header i line n rest :
  header_name line = Some n ->
  blocks_of i (line :: rest)
  = {| section_entry :=
         fill {| name := n; lineNumber := i + 1; path := None; url := None |}
              (section_lines rest);
       kept := unknown_lines (section_lines rest) |}
    :: blocks_of (i + 1) rest.
Proof. intros Hh. cbn [blocks_of]. by rewrite Hh. Qed.

(** Reading back the lines of canonical blocks gives the blocks again, up
    to the line numbers. *)
Lemma blocks_of_read bs :
  Forall canonical_block bs ->
  forall i, Forall2 same_block bs (blocks_of i (flat_map read_lines bs)).
Proof.
  induction 1 as [|b bs Hb Hbs IH]; intros i; [constructor|].
  cbn [flat_map].
  destruct (read_lines_shape b Hb)
    as (p & u & Hp & Hu & -> & Hh & Hnone & Hfill & Hunknown).
  cbn [app]. rewrite (blocks_of_header _ _ _ _ Hh).
  change ((str "path = " ++ p) :: (str "url = " ++ u)
          :: kept b ++ flat_map read_lines bs)
    with (((str "path = " ++ p) :: (str "url = " ++ u) :: kept b)
          ++ flat_map read_lines bs).
  rewrite (section_lines_app _ _ Hnone), (section_lines_read bs Hbs), app_nil_r.
  rewrite (blocks_of_app _ _ _ Hnone). constructor; [|apply IH].
  split; [|by rewrite Hunknown]. cbn [section_entry].
  rewrite (fill_lineNumber _ (i + 1) 0), Hfill. cbn [path url].
  repeat split; cbn [name path url]; done.
Qed.

Lemma preamble_read pre bs :
  Forall preamble_line pre -> Forall canonical_block bs ->
  section_lines (pre ++ flat_map read_lines bs) = pre
  /\ forall i, Forall2 same_block bs (blocks_of i (pre ++ flat_map read_lines bs)).
Proof.
  intros Hpre Hbs.
  assert (Hnone : Forall (fun l => header_name l = None) pre).
  { eapply List.Forall_impl; [|exact Hpre]. intros l [_ Hl].
    by apply header_name_none. }
  split.
  - by rewrite (section_lines_app _ _ Hnone), (section_lines_read bs Hbs), app_nil_r.
  - intros i. rewrite (blocks_of_app _ _ _ Hnone). by apply blocks_of_read.
Qed.

End TextModelBlocks.

Section TextModelValid.
Import Js Regex Validation Predicates CanonicalSorter Git.

(** A comment changes nothing. *)
Lemma scan_comment_line i line st :
  starts_with (str "#") line = true -> scan_line i line st = Return st.
Proof.
  intros Hhash. pose proof Hhash as [tail ->]%comment_first.
  unfold scan_line. rewrite exec_header_none by done.
  unfold PATH_PROPERTY, URL_PROPERTY.
  rewrite (exec_property_none (str "path")), (exec_property_none (str "url")) by done.
  rewrite Hhash. cbn. by destruct (currentSubmodule st).
Qed.

Lemma scan_comments ls : forall i st,
  Forall comment_line ls -> scan_lines i ls st = Return st.
Proof.
  induction ls as [|l ls IH]; intros i st Hall; [done|].
  apply Forall_cons in Hall as [[_ Hl] Hall]. cbn [scan_lines].
  rewrite (scan_comment_line i l st Hl). cbn [bind]. by apply IH.
Qed.

(** Scanning the lines of canonical blocks collects their entries and
    finds nothing to complain about. *)
Lemma scan_blocks bs :
  Forall canonical_block bs ->
  forall i st,
  exists st' sms',
    scan_lines i (flat_map read_lines bs) st = Return st'
    /\ scan_errors st' = scan_errors st
    /\ collected st' = collected st ++ sms'
    /\ Forall2 same_entry (map section_entry bs) sms'.
Proof.
  induction 1 as [|b bs [Hentry Hkept] _ IH]; intros i st.
  - exists st, []. by rewrite app_nil_r.
  - cbn [flat_map map]. unfold read_lines at 1. rewrite !scan_lines_app.
    destruct (scan_entry (section_entry b) i st Hentry) as (sm' & Hsame & ->).
    cbn [bind]. rewrite (scan_comments _ _ _ Hkept). cbn [bind].
    destruct (IH (i + length (entry_lines (section_entry b) ++ kept b))
                 {| currentSubmodule := Some sm'; scanned := collected st;
                    scan_errors := scan_errors st |})
      as (st' & sms' & -> & Herr & Hcol & Hall).
    exists st', (sm' :: sms'). split; [done|]. split; [done|].
    split; [|by constructor].
    rewrite Hcol. unfold collected at 1. cbn [currentSubmodule scanned].
    by rewrite <- app_assoc.
Qed.

(** The text written for a preamble and canonical blocks is valid, and
    holds the entries of the blocks in their order. *)
Lemma validate_written pre bs :
  Forall preamble_line pre -> Forall canonical_block bs ->
  exists sms',
    Forall2 same_entry (map section_entry bs) sms'
    /\ validateGitmodules
         (JStr (serializeGitmodules {| preamble := pre; blocks := bs |}))
       = Return {| base := {| isValid := true; errors := [] |};
                   submodules := sms' |}.
Proof.
  intros Hpre Hbs.
  destruct (validateGitmodules_text
              (serializeGitmodules {| preamble := pre; blocks := bs |}))
    as (st & Hst & ->).
  rewrite lines_of_serialized in Hst.
  2:{ eapply List.Forall_impl; [|exact Hpre]. by intros l [? _]. }
  2:{ done. }
  rewrite scan_lines_app, scan_lines_top_level in Hst.
  2:{ eapply List.Forall_impl; [|exact Hpre]. by intros l [_ ?]. }
  cbn [bind] in Hst.
  destruct (scan_blocks bs Hbs (0 + length pre) initial_state)
    as (st' & sms' & Hst' & Herr & Hcol & Hsame).
  rewrite Hst in Hst'. injection Hst' as <-. exists sms'. split; [done|].
  cbn in Herr, Hcol. rewrite Herr, Hcol.
  assert (Hnone : flat_map (check_submodule []) sms' = []).
  { assert (Hall : Forall complete_entry (map section_entry bs)).
    { apply Forall_map. eapply List.Forall_impl; [|exact Hbs]. by intros b [? _]. }
    clear -Hall Hsame. induction Hsame as [|a b l l' Hab _ IH]; [done|].
    apply Forall_cons in Hall as [Ha Hall]. cbn [flat_map].
    rewrite (check_complete b) by (by eapply same_entry_complete).
    by apply IH. }
  by rewrite Hnone.
Qed.

Lemma serialize_same pre bs bs' :
  Forall2 same_block bs bs' ->
  serializeGitmodules {| preamble := pre; blocks := bs |}
  = serializeGitmodules {| preamble := pre; blocks := bs' |}.
Proof.
  intros Hsame. unfold serializeGitmodules. cbn [preamble blocks]. do 2 f_equal.
  induction Hsame as [|a b l l' [(Hn & Hp & Hu) Hk] _ IH]; [done|].
  cbn [flat_map]. rewrite IH. unfold block_lines. by rewrite Hn, Hp, Hu, Hk.
Qed.

Lemma sorted_same bs bs' :
  Forall2 same_block bs bs' ->
  Sorted (key_le block_path) bs -> Sorted (key_le block_path) bs'.
Proof.
  induction 1 as [|a b l l' Hab Hl IH]; [done|].
  intros Hs. apply Sorted_inv in Hs as [Hs Hhd]. constructor; [by apply IH|].
  destruct Hl as [|a' b' l l' Hab' Hl]; constructor.
  apply HdRel_inv in Hhd. unfold key_le, block_path, path_key in *.
  destruct Hab as [(_ & <- & _) _], Hab' as [(_ & <- & _) _]. done.
Qed.

Lemma section_lines_In l lines :
  In l (section_lines lines) -> In l lines /\ header_name l = None.
Proof.
  induction lines as [|line lines IH]; [done|]. cbn [section_lines].
  destruct (header_name line) eqn:Hh; cbn [is_some]; [done|].
  intros [<-|Hin]; [split; [by left | done]|].
  destruct (IH Hin). split; [by right | done].
Qed.

(** The lines a valid file has in a section besides header and
    assignments are comments. *)
Lemma unread_is_comment l :
  model_line l -> header_name l = None -> is_assignment l = false ->
  ~ bad_header l -> ~ unrecognized l -> comment_line l.
Proof.
  intros Hmodel Hh Ha Hbad Hun. split; [done|].
  assert (Hheader : test SUBMODULE_HEADER l = false).
  { by rewrite <- header_name_test, Hh. }
  apply orb_false_iff in Ha as [Hp Hu].
  destruct (starts_with (str "[") l) eqn:Hb.
  { exfalso. by apply Hbad. }
  destruct (starts_with (str "#") l) eqn:Hhash; [done|].
  exfalso. by apply Hun.
Qed.

(** The blocks of lines that pass validation are canonical. *)
Lemma blocks_of_canonical lines : forall i,
  Forall model_line lines ->
  (forall l, In l lines -> ~ bad_header l) ->
  (forall j l, lines !! j = Some l -> has_header (take j lines) -> ~ unrecognized l) ->
  Forall complete_entry (sections i lines) ->
  Forall canonical_block (blocks_of i lines).
Proof.
  induction lines as [|line lines IH]; intros i Hmodel Hbad Hun Hcomplete;
    [constructor|].
  apply Forall_cons in Hmodel as [Hline Hmodel].
  assert (Hbad' : forall l, In l lines -> ~ bad_header l).
  { intros l Hl. apply Hbad. by right. }
  assert (Hun' : forall j l, lines !! j = Some l ->
                             has_header (take j lines) -> ~ unrecognized l).
  { intros j l Hj Hhdr. apply (Hun (S j) l Hj). cbn [take].
    by apply Exists_cons_tl. }
  cbn [blocks_of sections] in *.
  destruct (header_name line) as [n|] eqn:Hh; [|by apply IH].
  apply Forall_cons in Hcomplete as [Hentry Hcomplete].
  constructor; [|by apply IH]. split; [done|]. cbn [kept].
  apply List.Forall_forall. intros l Hl. unfold unknown_lines in Hl.
  apply List.filter_In in Hl as [Hl Ha]. apply negb_true_iff in Ha.
  apply section_lines_In in Hl as [Hl Hnone].
  apply unread_is_comment; try done.
  - rewrite List.Forall_forall in Hmodel. by apply Hmodel.
  - by apply Hbad'.
  - apply list_elem_of_In, list_elem_of_lookup in Hl as [j Hj].
    apply (Hun (S j) l Hj). cbn [take]. apply Exists_cons_hd.
    by rewrite <- header_name_test, Hh.
Qed.

(** What validation leaves to be said of the lines of a valid text. *)
Lemma valid_lines text r :
  validateGitmodules (JStr text) = Return r -> isValid r = true ->
  (forall l, In l (lines_of text) -> ~ bad_header l)
  /\ (forall j l, lines_of text !! j = Some l ->
                  has_header (take j (lines_of text)) -> ~ unrecognized l)
  /\ submodules r = sections 0 (lines_of text).
Proof.
  intros Hr Hvalid.
  destruct (validateGitmodules_text text) as (st & Hscan & Hrun).
  assert (Hsubs : submodules r = sections 0 (lines_of text)).
  { rewrite Hrun in Hr. injection Hr as <-. cbn [submodules].
    by rewrite (scan_lines_sections _ _ _ _ Hscan). }
  assert (Herrs : forall e, In e (scan_errors st) -> In e (errors r)).
  { intros e He. rewrite Hrun in Hr. injection Hr as <-. cbn [base errors].
    apply in_or_app. by left. }
  pose proof (proj1 (validateGitmodules_isValid text r Hr) Hvalid) as Hnone.
  split; [|split; [|done]].
  - intros line Hin Hbad. apply list_elem_of_In, list_elem_of_lookup in Hin as [j Hj].
    destruct (scan_lines_complete _ _ _ _ _ _ Hscan Hj) as [Hhead _].
    specialize (Herrs _ (Hhead Hbad)). by rewrite Hnone in Herrs.
  - intros j line Hj Hhdr Hun.
    destruct (scan_lines_complete _ _ _ _ _ _ Hscan Hj) as [_ Hprop].
    specialize (Herrs _ (Hprop Hun (or_intror Hhdr))). by rewrite Hnone in Herrs.
Qed.

(** The model of a valid text: a preamble without brackets and canonical
    blocks. *)
Lemma parse_valid text r :
  validateGitmodules (JStr text) = Return r -> isValid r = true ->
  Forall preamble_line (preamble (parseGitmodules text))
  /\ Forall canonical_block (blocks (parseGitmodules text))
  /\ map section_entry (blocks (parseGitmodules text)) = submodules r.
Proof.
  intros Hr Hvalid. destruct (valid_lines text r Hr Hvalid) as (Hbad & Hun & Hsubs).
  pose proof (lines_of_model text) as Hmodel.
  unfold parseGitmodules. cbn [preamble blocks]. split; [|split].
  - apply List.Forall_forall. intros l Hl.
    apply section_lines_In in Hl as [Hl Hnone].
    rewrite List.Forall_forall in Hmodel. split; [by apply Hmodel|].
    destruct (starts_with (str "[") l) eqn:Hb; [|done].
    exfalso. apply (Hbad l Hl). split; [done|].
    by rewrite <- header_name_test, Hnone.
  - apply blocks_of_canonical; try done. rewrite <- Hsubs.
    by apply (valid_complete text r).
  - by rewrite sections_blocks.
Qed.

Lemma sortGitmodules_inv text sorted :
  sortGitmodules text = Ok sorted ->
  exists r,
    validateGitmodules (JStr text) = Return r /\ isValid r = true
    /\ sorted
       = serializeGitmodules
           {| preamble := preamble (parseGitmodules text);
              blocks := sort_by block_path (blocks (parseGitmodules text)) |}.
Proof.
  unfold sortGitmodules.
  destruct (validateGitmodules (JStr text)) as [r|] eqn:Hr; [|done].
  destruct (isValid r) eqn:Hvalid; [|done]. intros [= <-]. by exists r.
Qed.

(** What sorting a valid text gives, read back. *)
Lemma sortGitmodules_read text r :
  validateGitmodules (JStr text) = Return r -> isValid r = true ->
  let sorted :=
    serializeGitmodules
      {| preamble := preamble (parseGitmodules text);
         blocks := sort_by block_path (blocks (parseGitmodules text)) |} in
  (exists sms',
     Forall2 same_entry
       (map section_entry (sort_by block_path (blocks (parseGitmodules text)))) sms'
     /\ validateGitmodules (JStr sorted)
        = Return {| base := {| isValid := true; errors := [] |};
                    submodules := sms' |})
  /\ preamble (parseGitmodules sorted) = preamble (parseGitmodules text)
  /\ Forall2 same_block (sort_by block_path (blocks (parseGitmodules text)))
                        (blocks (parseGitmodules sorted)).
Proof.
  intros Hr Hvalid sorted.
  destruct (parse_valid text r Hr Hvalid) as (Hpre & Hblocks & _).
  assert (Hsorted : Forall canonical_block
                      (sort_by block_path (blocks (parseGitmodules text)))).
  { apply List.Forall_forall. intros b Hb.
    rewrite List.Forall_forall in Hblocks. apply Hblocks.
    apply list_elem_of_In. rewrite <- (sort_by_Permutation block_path).
    by apply list_elem_of_In. }
  split; [by apply validate_written|].
  unfold parseGitmodules at 1 4. cbn [preamble blocks]. unfold sorted.
  rewrite lines_of_serialized; [|by eapply List.Forall_impl; [|exact Hpre];
                                    intros l [? _] | done].
  destruct (preamble_read _ _ Hpre Hsorted) as [Hsec Hread]. split; [done|].
  apply Hread.
Qed.

Lemma sortGitmodules_idem text sorted :
  sortGitmodules text = Ok sorted -> sortGitmodules sorted = Ok sorted.
Proof.
  intros (r & Hr & Hvalid & ->)%sortGitmodules_inv.
  destruct (sortGitmodules_read text r Hr Hvalid)
    as ((sms' & _ & Hrun) & Hpre & Hblocks).
  unfold sortGitmodules at 1. rewrite Hrun. cbn [isValid base]. f_equal.
  rewrite Hpre. rewrite (sort_by_of_Sorted block_path).
  - symmetry. by apply serialize_same.
  - eapply sorted_same; [exact Hblocks|]. apply sort_by_Sorted.
Qed.

End TextModelValid.

Section CanonicalSort.
Import Js Regex Validation Predicates CanonicalSorter Git.

Lemma sorted_entries bs :
  Sorted (key_le block_path) bs -> Sorted (key_le path_key) (map section_entry bs).
Proof.
  induction 1 as [|b bs _ IH Hhd]; [constructor|]. cbn [map].
  constructor; [done|]. destruct Hhd as [|b' bs Hle]; by constructor.
Qed.

Lemma sorted_same_entry sms sms' :
  Forall2 same_entry sms sms' ->
  Sorted (key_le path_key) sms -> Sorted (key_le path_key) sms'.
Proof.
  induction 1 as [|a b l l' Hab Hl IH]; [done|].
  intros Hs. apply Sorted_inv in Hs as [Hs Hhd]. constructor; [by apply IH|].
  destruct Hl as [|a' b' l l' Hab' Hl]; constructor.
  apply HdRel_inv in Hhd. unfold key_le, path_key in *.
  destruct Hab as (_ & <- & _), Hab' as (_ & <- & _). done.
Qed.

(** C4: both sorts are idempotent, and what they produce is in canonical
    order.  Sorting a registry fails with the error of its validation, and
    otherwise gives the same entries in ascending order of their ids;
    sorting the result again gives the result.  Sorting the text of the
    gitmodules file fails with the errors of its validation, and otherwise
    gives a text that is valid again, whose sections are those of the
    input, up to their line numbers, in ascending order of their paths,
    each with the lines it had besides its header and assignments, after
    the lines that preceded the first section; sorting that text again
    gives the same text.  The order is the lexicographic order of the
    bytes, a total order. *)
Theorem canonical_sort_idempotent :
  (forall registry sorted,
     sortExtensionsToml registry = Ok sorted ->
     sortExtensionsToml sorted = Ok sorted
     /\ exists entries entries',
          registry = JObj entries /\ sorted = JObj entries'
          /\ Sorted (key_le fst) entries' /\ Permutation entries' entries)
  /\ (forall registry,
        match validateRegistry registry with
        | Failed e => sortExtensionsToml registry = Failed e
        | Ok _ => exists sorted, sortExtensionsToml registry = Ok sorted
        end)
  /\ (forall text sorted,
        sortGitmodules text = Ok sorted ->
        sortGitmodules sorted = Ok sorted
        /\ (exists r r' moved,
              validateGitmodules (JStr text) = Return r /\ isValid r = true
              /\ validateGitmodules (JStr sorted) = Return r' /\ isValid r' = true
              /\ Sorted (key_le path_key) (submodules r')
              /\ Permutation moved (submodules r)
              /\ Forall2 same_entry moved (submodules r'))
        /\ preamble (parseGitmodules sorted) = preamble (parseGitmodules text)
        /\ (exists moved,
              Permutation moved (blocks (parseGitmodules text))
              /\ Forall2 same_block moved (blocks (parseGitmodules sorted))))
  /\ (forall text r,
        validateGitmodules (JStr text) = Return r ->
        if isValid r
        then exists sorted, sortGitmodules text = Ok sorted
        else sortGitmodules text = Failed (errors r))
  /\ (forall a b c,
        byte_leb a a = true
        /\ (byte_leb a b = true \/ byte_leb b a = true)
        /\ (byte_leb a b = true -> byte_leb b a = true -> a = b)
        /\ (byte_leb a b = true -> byte_leb b c = true -> byte_leb a c = true))
  /\ (forall a b, byte_leb a b = true <-> lex_le a b).
Proof.
  split; [|split; [|split; [|split; [|split]]]].
  - intros registry sorted Hsort. split; [by apply (sortExtensionsToml_idem registry)|].
    apply sortExtensionsToml_inv in Hsort as (entries & -> & _ & ->).
    exists entries, (sort_by fst entries). split; [done|]. split; [done|].
    split; [apply sort_by_Sorted | apply sort_by_Permutation].
  - intros registry. unfold sortExtensionsToml.
    destruct (validateRegistry registry) as [[]|e]; [|done].
    destruct registry; by eexists.
  - intros text sorted Hsort.
    split; [by apply (sortGitmodules_idem text)|].
    apply sortGitmodules_inv in Hsort as (r & Hr & Hvalid & ->).
    destruct (sortGitmodules_read text r Hr Hvalid)
      as ((sms' & Hsame & Hrun) & Hpre & Hblocks).
    destruct (parse_valid text r Hr Hvalid) as (_ & _ & Hentries).
    split; [|split; [done|]].
    + exists r, {| base := {| isValid := true; errors := [] |}; submodules := sms' |},
             (map section_entry (sort_by block_path (blocks (parseGitmodules text)))).
      split; [done|]. split; [done|]. split; [done|]. split; [done|].
      cbn [submodules]. split; [|split; [|done]].
      * eapply sorted_same_entry; [exact Hsame|].
        apply sorted_entries, sort_by_Sorted.
      * rewrite <- Hentries. apply Permutation_map, sort_by_Permutation.
    + exists (sort_by block_path (blocks (parseGitmodules text))).
      split; [apply sort_by_Permutation | done].
  - intros text r Hr. unfold sortGitmodules. rewrite Hr.
    destruct (isValid r); [by eexists | done].
  - intros a b c. split; [apply byte_leb_refl|]. split; [|split].
    + destruct (byte_leb a b) eqn:Hab; [by left|]. right. by apply byte_leb_total.
    + apply byte_leb_antisym.
    + apply byte_leb_trans.
  - intros a b. apply byte_leb_lex.
Qed.

Lemma canonical_sort_idempotent_witness :
  sortGitmodules
    (str "# modules" ++ [LF]
     ++ header_prefix ++ str "a" ++ header_suffix ++ [LF]
     ++ str "  path = extensions/a" ++ [LF]
     ++ str "  url = https://example.com/a.git" ++ [LF]
     ++ header_prefix ++ str "b" ++ header_suffix ++ [LF]
     ++ str "  path = extensions/b" ++ [LF]
     ++ str "  url = git@example.com:b.git" ++ [LF]
     ++ str "# pinned" ++ [LF])
  = Ok (str "# modules" ++ [LF]
        ++ header_prefix ++ str "a" ++ header_suffix ++ [LF]
        ++ str "  path = extensions/a" ++ [LF]
        ++ str "  url = https://example.com/a.git" ++ [LF]
        ++ header_prefix ++ str "b" ++ header_suffix ++ [LF]
        ++ str "  path = extensions/b" ++ [LF]
        ++ str "  url = git@example.com:b.git" ++ [LF]
        ++ str "# pinned" ++ [LF])
  /\ sortExtensionsToml
       (JObj [(str "a", JObj [(str "version", JStr (str "1.0.0"));
                              (str "source", JStr (str "s"))]);
              (str "b", JObj [(str "version", JStr (str "2.0.0"));
                              (str "source", JStr (str "t"))])])
     = Ok (JObj [(str "a", JObj [(str "version", JStr (str "1.0.0"));
                                 (str "source", JStr (str "s"))]);
                 (str "b", JObj [(str "version", JStr (str "2.0.0"));
                                 (str "source", JStr (str "t"))])]).
Proof.
  split.
  - refine (proj1 (proj1 (proj2 (proj2 canonical_sort_idempotent))
             ([LF] ++ str "# modules" ++ [LF]
              ++ header_prefix ++ str "b" ++ header_suffix ++ [LF]
              ++ str "url=git@example.com:b.git" ++ [LF]
              ++ str "# pinned" ++ [LF]
              ++ str "path = extensions/b  " ++ [LF] ++ [LF]
              ++ header_prefix ++ str "a" ++ header_suffix ++ [LF]
              ++ str "  path = extensions/a" ++ [LF]
              ++ str "  url = https://example.com/a.git") _ _)).
    vm_compute. reflexivity.
  - refine (proj1 (proj1 canonical_sort_idempotent
             (JObj [(str "b", JObj [(str "version", JStr (str "2.0.0"));
                                    (str "source", JStr (str "t"))]);
                    (str "a", JObj [(str "version", JStr (str "1.0.0"));
                                    (str "source", JStr (str "s"))])]) _ _)).
    vm_compute. reflexivity.
Defined.

End CanonicalSort.

(** ** packageExtension: what it sends *)

Section PackagingTraces.
Import Js Validation Cli Host Fs Packaging Runs.
Context {W : Type}.

Lemma traces_ret {A} Q (a : A) : traces Q (ret (W := W) a).
Proof. intros w. constructor. Qed.

Lemma traces_throw {A} Q e : traces Q (throw (W := W) (A := A) e).
Proof. intros w. constructor. Qed.

Lemma traces_lift {A} Q (o : outcome A) : traces Q (lift (W := W) o).
Proof. intros w. constructor. Qed.

Lemma traces_log Q line : Q (Log line) -> traces Q (log (W := W) line).
Proof. intros HQ w. by repeat constructor. Qed.

Lemma traces_call {A} Q e (f : W -> outcome A * W) : Q e -> traces Q (call e f).
Proof. intros HQ w. unfold call. destruct (f w) as [r w']. by repeat constructor. Qed.

Lemma traces_bind {A B} Q (m : M W A) (k : A -> M W B) :
  traces Q m -> (forall a, traces Q (k a)) -> traces Q (bind m k).
Proof.
  intros Hm Hk w. unfold bind. specialize (Hm w).
  destruct (m w) as [[[a|e] w'] t]; [|done].
  specialize (Hk a w'). destruct (k a w') as [[r w''] t']. cbn [snd] in *.
  apply Forall_app. by split.
Qed.

Lemma traces_catch {A} Q (m : M W A) (handler : jsstring -> M W A) :
  traces Q m -> (forall e, traces Q (handler e)) -> traces Q (catch m handler).
Proof.
  intros Hm Hh w. unfold catch. specialize (Hm w).
  destruct (m w) as [[[a|e] w'] t]; [done|].
  specialize (Hh e w'). destruct (handler e w') as [[r w''] t']. cbn [snd] in *.
  apply Forall_app. by split.
Qed.

Lemma traces_for_each {A} Q (xs : list A) (body : A -> M W unit) :
  (forall x, traces Q (body x)) -> traces Q (for_each xs body).
Proof.
  intros Hbody. induction xs as [|x xs IH]; cbn [for_each].
  - apply traces_ret.
  - apply traces_bind; [apply Hbody | by intros _].
Qed.

Lemma traces_fileExists Q (h : host W) path :
  Q (Stat path) -> traces Q (fileExists h path).
Proof.
  intros HQ w. unfold fileExists.
  destruct (fs_stat h path w) as [[isFile|[code|] message] w'];
    [| destruct (string_eqb code (str "ENOENT")) |]; by repeat constructor.
Qed.

Lemma traces_readTomlFile Q (h : host W) path :
  Q (ReadFile path) -> traces Q (readTomlFile h path).
Proof.
  intros HQ. unfold readTomlFile. apply traces_catch.
  - apply traces_bind; [by apply traces_call | intros c; apply traces_lift].
  - intros e. apply traces_throw.
Qed.

Lemma packageExtension_traces (h : host W)
    extensionId extensionPath extensionVersion shouldPublish s3Options :
  traces (asked_for extensionId extensionVersion shouldPublish s3Options)
         (packageExtension h extensionId extensionPath extensionVersion
            shouldPublish s3Options).
Proof.
  unfold packageExtension. cbv zeta.
  apply traces_bind; [by apply traces_call | intros _].
  apply traces_bind; [by apply traces_fileExists | intros superseded].
  destruct superseded; [apply traces_throw|].
  apply traces_bind; [by apply traces_fileExists | intros hasToml].
  apply traces_bind.
  { destruct hasToml; [|apply traces_ret].
    apply traces_bind; [by apply traces_readTomlFile | intros extensionToml].
    apply traces_bind; [apply traces_lift | intros found].
    destruct (differs_from found extensionId); [|apply traces_ret].
    apply traces_bind; [apply traces_lift | intros message; apply traces_throw]. }
  intros _. apply traces_bind; [by apply traces_call | intros output].
  apply traces_bind; [by apply traces_log | intros _].
  apply traces_bind.
  { apply traces_for_each. intros line. by apply traces_log. }
  intros _. apply traces_bind; [by apply traces_call | intros manifestJson].
  apply traces_bind; [apply traces_lift | intros metadata].
  apply traces_bind; [apply traces_lift | intros metadataVersion].
  destruct (differs_from metadataVersion extensionVersion).
  { apply traces_bind; [apply traces_lift | intros message; apply traces_throw]. }
  apply traces_bind; [apply traces_lift | intros _].
  destruct (shouldPublish && is_some (s3Client s3Options)) eqn:Hasked;
    [|apply traces_ret].
  apply andb_true_iff in Hasked as [-> Hclient].
  apply traces_bind; [by apply traces_log | intros _].
  apply traces_bind; [by apply traces_call | intros entries].
  apply traces_bind; [|intros _; by apply traces_log].
  apply traces_for_each. intros filename. unfold upload_entry. cbv zeta.
  apply traces_bind; [by apply traces_log | intros _].
  apply traces_bind; [by apply traces_call | intros body].
  apply traces_call. cbn [asked_for put_Bucket put_Key ACL].
  split; [done|]. split; [done|]. split; [done|]. split; [by exists filename | done].
Qed.

End PackagingTraces.

Section PackagingSends.
Import Js Regex Validation Cli Host Fs Packaging Runs.

(** X22: packageExtension uploads only what it was asked to.  Whatever the
    host answers, and whether the run ends well or not, it sends a command
    to the blob store only if [shouldPublish] is set and the options hold a
    client; every command it sends goes to the bucket of the options, is
    readable by all, and has a key [prefix/id/version/file], which the
    pattern of the published index does not match. *)
Theorem packageExtension_uploads_as_asked {W : Type} (h : host W)
    (extensionId extensionPath extensionVersion : jsstring)
    (shouldPublish : bool) (s3Options : S3ClientOptions) (w : W)
    (command : PutObjectCommandInput) :
  In (Send command)
     (packageExtension h extensionId extensionPath extensionVersion
        shouldPublish s3Options w).2 ->
  shouldPublish = true
  /\ is_some (s3Client s3Options) = true
  /\ put_Bucket command = options_S3_BUCKET s3Options
  /\ (exists filename,
        put_Key command = upload_key s3Options extensionId extensionVersion filename)
  /\ ACL command = str "public-read"
  /\ test OBJECT_KEY (put_Key command) = false.
Proof.
  intros Hin.
  pose proof (packageExtension_traces h extensionId extensionPath extensionVersion
                shouldPublish s3Options w) as Hall.
  rewrite List.Forall_forall in Hall. specialize (Hall _ Hin).
  destruct Hall as (Hp & Hc & Hb & (filename & Hk) & Ha).
  split; [done|]. split; [done|]. split; [done|]. split; [by exists filename|].
  split; [done|]. unfold test. by rewrite Hk, upload_key_unmatched.
Qed.

Lemma packageExtension_uploads_as_asked_witness :
  put_Bucket (upload_command (str "x") (str "1.0.0") some_options
                (str "archive.tar.gz") (str "bytes")) = str "b"
  /\ test OBJECT_KEY (str "extensions/x/1.0.0/archive.tar.gz") = false.
Proof.
  destruct (packageExtension_uploads_as_asked (stateless bare_manifest_host)
              (str "x") (str "extensions/x") (str "1.0.0") true some_options tt
              (upload_command (str "x") (str "1.0.0") some_options
                 (str "archive.tar.gz") (str "bytes")))
    as (_ & _ & Hbucket & _ & _ & Hkey).
  - vm_compute. do 10 right. left. reflexivity.
  - split; [exact Hbucket | exact Hkey].
Defined.

End PackagingSends.

(** ** packageExtension: its checks, and the one it does not make *)

#[global] Arguments Packaging.superseded_message : simpl never.
#[global] Arguments Packaging.id_mismatch_message : simpl never.
#[global] Arguments Packaging.version_mismatch_message : simpl never.

Section PackagingRuns.
Import Js Regex Validation Cli Host Fs Packaging Runs.

Lemma fileExists_no_file a path :
  no_file (stat_of a path) ->
  fileExists (stateless a) path tt = (Return false, tt, [Stat path]).
Proof.
  unfold fileExists. cbn [stateless fs_stat].
  intros [->|[message ->]]; [done|].
  by change (string_eqb (str "ENOENT") (str "ENOENT")) with true.
Qed.

Lemma fileExists_file a path :
  stat_of a path = Stats true ->
  fileExists (stateless a) path tt = (Return true, tt, [Stat path]).
Proof. unfold fileExists. cbn [stateless fs_stat]. by intros ->. Qed.

Lemma bind_Return {W A B} (m : M W A) (k : A -> M W B) w v w' t :
  m w = (Return v, w', t) ->
  bind m k w = match k v w' with (r, w'', t') => (r, w'', t ++ t') end.
Proof. unfold bind. by intros ->. Qed.

Lemma bind_Throw {W A B} (m : M W A) (k : A -> M W B) w e w' t :
  m w = (Throw e, w', t) -> bind m k w = (Throw e, w', t).
Proof. unfold bind. by intros ->. Qed.

Lemma call_stateless {A} e (o : outcome A) :
  call e (fun w : unit => (o, w)) tt = (o, tt, [e]).
Proof. reflexivity. Qed.

Lemma for_each_log {W} lines (w : W) :
  for_each lines log w = (Return tt, w, map Log lines).
Proof.
  induction lines as [|line lines IH]; cbn [for_each]; [done|].
  unfold bind. unfold log at 1. by rewrite IH.
Qed.

Lemma sends_app t1 t2 : sends (t1 ++ t2) = sends t1 ++ sends t2.
Proof.
  induction t1 as [|e t1 IH]; [done|]. destruct e; cbn [app sends]; by rewrite ?IH.
Qed.

Lemma sends_logs lines : sends (map Log lines) = [].
Proof. by induction lines. Qed.

Lemma upload_commands_map extensionId extensionVersion s3Options entries :
  is_some (s3Client s3Options) = true ->
  upload_commands extensionId extensionVersion true s3Options entries
  = map (fun entry : jsstring * jsstring =>
           upload_command extensionId extensionVersion s3Options entry.1 entry.2)
        entries.
Proof.
  intros Hclient. unfold upload_commands. rewrite Hclient. cbn [andb].
  apply map_ext. by intros [filename contents].
Qed.

(** The upload loop against a store that takes everything. *)
Lemma for_each_upload a extensionId extensionVersion s3Options entries body :
  (forall filename, In filename entries ->
     contents_of a (joined a [str "output"; filename]) = Return (body filename)) ->
  (forall command, sent a command = Return tt) ->
  exists t,
    for_each entries
      (upload_entry (stateless a) extensionId extensionVersion s3Options (str "output"))
      tt
    = (Return tt, tt, t)
    /\ sends t = map (fun filename =>
                        upload_command extensionId extensionVersion s3Options
                          filename (body filename))
                     entries.
Proof.
  intros Hread Hsent. induction entries as [|filename entries IH]; cbn [for_each].
  - by exists [].
  - destruct IH as (t & Hrun & Hsends).
    { intros f Hf. apply Hread. by right. }
    eexists. split.
    + unfold bind at 1. unfold upload_entry at 1. cbv zeta.
      unfold bind at 1. unfold log at 1.
      unfold bind at 1. unfold call at 1. cbn [stateless fs_readFile path_join].
      rewrite (Hread filename) by (by left).
      unfold call at 1. cbn [stateless s3_send]. rewrite Hsent.
      rewrite Hrun. reflexivity.
    + cbn [app sends map]. rewrite Hsends. reflexivity.
Qed.

(** A run up to the reading of the manifest: no [extension.json], no
    [extension.toml], the tool succeeds, the manifest parses. *)
Lemma packageExtension_reaches_manifest a
    extensionId extensionPath extensionVersion shouldPublish s3Options
    output manifestJson metadata found :
  mkdir_of a (str "./scratch") = Return tt ->
  no_file (stat_of a (joined a [extensionPath; str "extension.json"])) ->
  no_file (stat_of a (joined a [extensionPath; str "extension.toml"])) ->
  output_of a (str "./neopilot-extension") (tool_args extensionPath) = Return output ->
  contents_of a (joined a [str "output"; str "manifest.json"]) = Return manifestJson ->
  json_of a manifestJson = Return metadata ->
  prop metadata (str "version") = Return found ->
  exists before,
    sends before = []
    /\ packageExtension (stateless a) extensionId extensionPath extensionVersion
         shouldPublish s3Options tt
       = match
           (if differs_from found extensionVersion
            then
              do! message :=
                lift (version_mismatch_message extensionId
                        (get metadata (str "name")) extensionVersion found) in
              throw message
            else
              do! _ := lift (validateManifest metadata) in
              if shouldPublish && is_some (s3Client s3Options)
              then
                do! _ := log (str "Uploading " ++ extensionId ++ str " version "
                              ++ extensionVersion) in
                do! entries := call (Readdir (str "output"))
                                 (fs_readdir (stateless a) (str "output")) in
                do! _ := for_each entries
                           (upload_entry (stateless a) extensionId extensionVersion
                              s3Options (str "output")) in
                log (str "Successfully uploaded " ++ nat_to_string (length entries)
                     ++ str " files for " ++ extensionId ++ str "@"
                     ++ extensionVersion)
              else ret tt) tt
         with
         | (r, w, t) => (r, w, before ++ t)
         end.
Proof.
  intros Hmkdir Hjson Htoml Htool Hread Hparse Hversion.
  unfold packageExtension. cbv zeta.
  rewrite (bind_Return _ _ tt tt tt [Mkdir (str "./scratch")])
    by (cbn [stateless fs_mkdir]; by rewrite Hmkdir).
  rewrite (bind_Return _ _ _ _ _ _ (fileExists_no_file a _ Hjson)).
  rewrite (bind_Return _ _ _ _ _ _ (fileExists_no_file a _ Htoml)).
  rewrite (bind_Return _ _ tt tt tt []) by reflexivity.
  rewrite (bind_Return _ _ tt output tt
             [Exec (str "./neopilot-extension") (tool_args extensionPath)
                [(str "PATH", path_variable a); (str "RUST_LOG", Some (str "info"))]]).
  2:{ unfold call. cbn [stateless process_exec env_PATH].
      change [str "--scratch-dir"; str "./scratch"; str "--source-dir"; extensionPath;
              str "--output-dir"; str "output"] with (tool_args extensionPath).
      by rewrite Htool. }
  rewrite (bind_Return _ _ tt tt tt [Log (stdout output)]) by reflexivity.
  rewrite (bind_Return _ _ _ _ _ _ (for_each_log _ tt)).
  rewrite (bind_Return _ _ tt manifestJson tt
             [ReadFile (joined a [str "output"; str "manifest.json"])])
    by (unfold call; cbn [stateless fs_readFile path_join]; by rewrite Hread).
  rewrite (bind_Return _ _ tt metadata tt [])
    by (unfold lift; cbn [stateless JSON_parse]; by rewrite Hparse).
  rewrite (bind_Return _ _ tt found tt []) by (unfold lift; by rewrite Hversion).
  eexists. split; [|destruct (_ tt) as [[r w] t]; rewrite !app_assoc; reflexivity].
  rewrite !sends_app, sends_logs. reflexivity.
Qed.

Lemma differs_from_same v : differs_from (JStr v) v = false.
Proof. unfold differs_from, string_eqb. by rewrite bool_decide_eq_true_2. Qed.

(** X23: packageExtension calls validateManifest and does not act on its
    verdict.  When the source has no [extension.json] and no
    [extension.toml], the tool runs, and the manifest it leaves parses to a
    value whose version is the one asked for, then, whatever result
    validateManifest returns for the manifest, valid or not, a publishing
    run against a store that takes everything ends well and has sent one
    command for each entry of the output directory, in order, with the
    contents read from it.  Only when validateManifest throws does the run
    stop there: it fails with what was thrown and has sent nothing. *)
Theorem packageExtension_publishes_unvalidated (a : answers)
    (extensionId extensionPath extensionVersion : jsstring)
    (s3Options : S3ClientOptions) (output : ExecOutput)
    (manifestJson : jsstring) (metadata : value)
    (entries : list jsstring) (body : jsstring -> jsstring) :
  mkdir_of a (str "./scratch") = Return tt ->
  no_file (stat_of a (joined a [extensionPath; str "extension.json"])) ->
  no_file (stat_of a (joined a [extensionPath; str "extension.toml"])) ->
  output_of a (str "./neopilot-extension") (tool_args extensionPath) = Return output ->
  contents_of a (joined a [str "output"; str "manifest.json"]) = Return manifestJson ->
  json_of a manifestJson = Return metadata ->
  prop metadata (str "version") = Return (JStr extensionVersion) ->
  is_some (s3Client s3Options) = true ->
  listing_of a (str "output") = Return entries ->
  (forall filename, In filename entries ->
     contents_of a (joined a [str "output"; filename]) = Return (body filename)) ->
  (forall command, sent a command = Return tt) ->
  (forall verdict,
     validateManifest metadata = Return verdict ->
     exists t,
       packageExtension (stateless a) extensionId extensionPath extensionVersion
         true s3Options tt
       = (Return tt, tt, t)
       /\ sends t
          = upload_commands extensionId extensionVersion true s3Options
              (map (fun filename => (filename, body filename)) entries))
  /\ (forall e,
        validateManifest metadata = Throw e ->
        exists t,
          packageExtension (stateless a) extensionId extensionPath extensionVersion
            true s3Options tt
          = (Throw e, tt, t)
          /\ sends t = []).
Proof.
  intros Hmkdir Hjson Htoml Htool Hread Hparse Hversion Hclient Hlist Hbodies Hsent.
  destruct (packageExtension_reaches_manifest a extensionId extensionPath
              extensionVersion true s3Options output manifestJson metadata
              (JStr extensionVersion) Hmkdir Hjson Htoml Htool Hread Hparse Hversion)
    as (before & Hquiet & ->).
  rewrite differs_from_same, Hclient. cbn [andb]. split.
  - intros verdict Hverdict.
    destruct (for_each_upload a extensionId extensionVersion s3Options entries body
                Hbodies Hsent) as (t & Hloop & Hsends).
    rewrite (bind_Return _ _ tt verdict tt [])
      by (unfold lift; by rewrite Hverdict).
    rewrite (bind_Return _ _ tt tt tt
               [Log (str "Uploading " ++ extensionId ++ str " version "
                     ++ extensionVersion)]) by reflexivity.
    rewrite (bind_Return _ _ tt entries tt [Readdir (str "output")])
      by (unfold call; cbn [stateless fs_readdir]; by rewrite Hlist).
    rewrite (bind_Return _ _ _ _ _ _ Hloop). unfold log.
    eexists. split; [reflexivity|].
    rewrite !sends_app, Hquiet, Hsends, (upload_commands_map _ _ _ _ Hclient).
    cbn [sends app]. rewrite app_nil_r, map_map. reflexivity.
  - intros e Hthrow.
    rewrite (bind_Throw _ _ tt e tt []) by (unfold lift; by rewrite Hthrow).
    eexists. split; [reflexivity|]. by rewrite app_nil_r.
Qed.

Lemma packageExtension_publishes_unvalidated_witness :
  validateManifest (JObj [(str "version", JStr (str "1.0.0"))])
  = Return {| isValid := false;
              errors := [str "Missing or invalid required field: name";
                         str "Missing or invalid required field: description"] |}
  /\ exists t,
       packageExtension (stateless bare_manifest_host) (str "x") (str "extensions/x")
         (str "1.0.0") true some_options tt
       = (Return tt, tt, t)
       /\ sends t
          = [upload_command (str "x") (str "1.0.0") some_options
               (str "archive.tar.gz") (str "bytes");
             upload_command (str "x") (str "1.0.0") some_options
               (str "manifest.json") (str "bytes")].
Proof.
  split; [vm_compute; reflexivity|].
  refine (proj1 (packageExtension_publishes_unvalidated bare_manifest_host
           (str "x") (str "extensions/x") (str "1.0.0") some_options
           {| stdout := str "done"; stderr := [] |} (str "bytes")
           (JObj [(str "version", JStr (str "1.0.0"))])
           [str "archive.tar.gz"; str "manifest.json"] (fun _ => str "bytes")
           _ _ _ _ _ _ _ _ _ _ _)
          {| isValid := false;
             errors := [str "Missing or invalid required field: name";
                        str "Missing or invalid required field: description"] |}
          _).
  - reflexivity.
  - right. by eexists.
  - right. by eexists.
  - reflexivity.
  - reflexivity.
  - reflexivity.
  - reflexivity.
  - reflexivity.
  - reflexivity.
  - intros filename _. reflexivity.
  - intros command. reflexivity.
  - vm_compute. reflexivity.
Defined.

Lemma differs_from_other found v : found <> JStr v -> differs_from found v = true.
Proof.
  intros Hne. unfold differs_from. destruct found as [| |b|n|s|items|props]; try done.
  unfold string_eqb. rewrite bool_decide_eq_false_2; [done | congruence].
Qed.

(** X24: the version of the manifest is checked before anything is sent.
    When the manifest the tool leaves parses to a value whose version is
    not, as a string, the version asked for, packageExtension throws and has
    sent nothing, publishing or not.  What it throws is the message that
    names both versions, and the name of the manifest, when the name and the
    version found convert to a string, and the [TypeError] of the
    conversion that fails otherwise. *)
Theorem packageExtension_version_check (a : answers)
    (extensionId extensionPath extensionVersion : jsstring)
    (shouldPublish : bool) (s3Options : S3ClientOptions) (output : ExecOutput)
    (manifestJson : jsstring) (metadata found : value) :
  mkdir_of a (str "./scratch") = Return tt ->
  no_file (stat_of a (joined a [extensionPath; str "extension.json"])) ->
  no_file (stat_of a (joined a [extensionPath; str "extension.toml"])) ->
  output_of a (str "./neopilot-extension") (tool_args extensionPath) = Return output ->
  contents_of a (joined a [str "output"; str "manifest.json"]) = Return manifestJson ->
  json_of a manifestJson = Return metadata ->
  prop metadata (str "version") = Return found ->
  found <> JStr extensionVersion ->
  exists e t,
    packageExtension (stateless a) extensionId extensionPath extensionVersion
      shouldPublish s3Options tt
    = (Throw e, tt, t)
    /\ sends t = []
    /\ (forall name actual,
          to_string (get metadata (str "name")) = Return name ->
          to_string found = Return actual ->
          e = join [LF]
                [str "Incorrect version for extension " ++ extensionId ++ str " ("
                   ++ name ++ str ")";
                 [];
                 str "Expected version: " ++ extensionVersion;
                 str "Actual version: " ++ actual])
    /\ ((forall name, to_string (get metadata (str "name")) <> Return name)
        \/ (forall actual, to_string found <> Return actual) ->
        e = str "Cannot convert object to primitive value").
Proof.
  intros Hmkdir Hjson Htoml Htool Hread Hparse Hversion Hne.
  destruct (packageExtension_reaches_manifest a extensionId extensionPath
              extensionVersion shouldPublish s3Options output manifestJson metadata
              found Hmkdir Hjson Htoml Htool Hread Hparse Hversion)
    as (before & Hquiet & ->).
  rewrite (differs_from_other found extensionVersion Hne).
  unfold bind, lift, throw, version_mismatch_message.
  destruct (to_string (get metadata (str "name"))) as [name|e1] eqn:Hname;
    cbn [Js.bind].
  - destruct (to_string found) as [actual|e2] eqn:Hfound; cbn [Js.bind].
    + eexists _, _. split; [reflexivity|]. split; [by rewrite !app_nil_r|].
      split.
      * by intros name' actual' [= <-] [= <-].
      * intros [Hno|Hno]; [by destruct (Hno name) | by destruct (Hno actual)].
    + eexists _, _. split; [reflexivity|]. split; [by rewrite !app_nil_r|].
      split; [done|]. intros _. by apply (to_string_throws found).
  - eexists _, _. split; [reflexivity|]. split; [by rewrite !app_nil_r|].
    split; [done|]. intros _. by apply (to_string_throws (get metadata (str "name"))).
Qed.

Lemma packageExtension_version_check_witness :
  exists e t,
    packageExtension (stateless bare_manifest_host) (str "x") (str "extensions/x")
      (str "1.0.1") true some_options tt
    = (Throw e, tt, t)
    /\ sends t = []
    /\ e = join [LF]
             [str "Incorrect version for extension x (undefined)";
              [];
              str "Expected version: 1.0.1";
              str "Actual version: 1.0.0"].
Proof.
  destruct (packageExtension_version_check bare_manifest_host
              (str "x") (str "extensions/x") (str "1.0.1") true some_options
              {| stdout := str "done"; stderr := [] |} (str "bytes")
              (JObj [(str "version", JStr (str "1.0.0"))]) (JStr (str "1.0.0")))
    as (e & t & Hrun & Hquiet & Hmessage & _).
  - reflexivity.
  - right. by eexists.
  - right. by eexists.
  - reflexivity.
  - reflexivity.
  - reflexivity.
  - reflexivity.
  - discriminate.
  - exists e, t. split; [exact Hrun|]. split; [exact Hquiet|].
    apply (Hmessage (str "undefined") (str "1.0.0")); reflexivity.
Defined.

(** X25: the checks on the source come before the tool.  When the source
    holds an [extension.json], packageExtension throws after the two calls
    that found it; and when it holds an [extension.toml] whose id is not,
    as a string, the id asked for, it throws after reading that file: the
    message that names both ids when the id found converts to a string,
    and the [TypeError] of that conversion otherwise.  In neither case is
    the tool run. *)
Theorem packageExtension_source_checks (a : answers)
    (extensionId extensionPath extensionVersion : jsstring)
    (shouldPublish : bool) (s3Options : S3ClientOptions) :
  mkdir_of a (str "./scratch") = Return tt ->
  (stat_of a (joined a [extensionPath; str "extension.json"]) = Stats true ->
   packageExtension (stateless a) extensionId extensionPath extensionVersion
     shouldPublish s3Options tt
   = (Throw (str "The `extension.json` manifest format has been superseded by `extension.toml`"),
      tt,
      [Mkdir (str "./scratch");
       Stat (joined a [extensionPath; str "extension.json"])]))
  /\ (forall tomlContents extensionToml found,
        no_file (stat_of a (joined a [extensionPath; str "extension.json"])) ->
        stat_of a (joined a [extensionPath; str "extension.toml"]) = Stats true ->
        contents_of a (joined a [extensionPath; str "extension.toml"])
        = Return tomlContents ->
        toml_of a tomlContents = Return extensionToml ->
        prop extensionToml (str "id") = Return found ->
        found <> JStr extensionId ->
        exists e,
          packageExtension (stateless a) extensionId extensionPath extensionVersion
            shouldPublish s3Options tt
          = (Throw e, tt,
             [Mkdir (str "./scratch");
              Stat (joined a [extensionPath; str "extension.json"]);
              Stat (joined a [extensionPath; str "extension.toml"]);
              ReadFile (joined a [extensionPath; str "extension.toml"])])
          /\ (forall foundId,
                to_string found = Return foundId ->
                e = join [LF]
                      [str "IDs in `extensions.toml` and `extension.toml` do not match:";
                       [];
                       str "extensions.toml: " ++ extensionId;
                       str " extension.toml: " ++ foundId])
          /\ ((forall foundId, to_string found <> Return foundId) ->
              e = str "Cannot convert object to primitive value")).
Proof.
  intros Hmkdir. split.
  - intros Hjson. unfold packageExtension. cbv zeta.
    rewrite (bind_Return _ _ tt tt tt [Mkdir (str "./scratch")])
      by (cbn [stateless fs_mkdir]; by rewrite Hmkdir).
    rewrite (bind_Return _ _ _ _ _ _ (fileExists_file a _ Hjson)). reflexivity.
  - intros tomlContents extensionToml found Hjson Htoml Hread Hparse Hid Hne.
    assert (Hcheck : exists e,
      (do! message := lift (W := unit) (id_mismatch_message extensionId found) in
       throw (A := unit) message) tt = (Throw e, tt, [])
      /\ (forall foundId,
            to_string found = Return foundId ->
            e = join [LF]
                  [str "IDs in `extensions.toml` and `extension.toml` do not match:";
                   [];
                   str "extensions.toml: " ++ extensionId;
                   str " extension.toml: " ++ foundId])
      /\ ((forall foundId, to_string found <> Return foundId) ->
          e = str "Cannot convert object to primitive value")).
    { unfold bind, lift, throw, id_mismatch_message.
      destruct (to_string found) as [foundId|e0] eqn:Hfound; cbn [Js.bind].
      - eexists. split; [reflexivity|]. split.
        + by intros foundId' [= <-].
        + intros Hno. by destruct (Hno foundId).
      - eexists. split; [reflexivity|]. split; [done|]. intros _.
        by apply (to_string_throws found). }
    destruct Hcheck as (e & Hrun & Hmessage & Herror). exists e.
    split; [|by split].
    unfold packageExtension. cbv zeta.
    rewrite (bind_Return _ _ tt tt tt [Mkdir (str "./scratch")])
      by (cbn [stateless fs_mkdir]; by rewrite Hmkdir).
    rewrite (bind_Return _ _ _ _ _ _ (fileExists_no_file a _ Hjson)).
    rewrite (bind_Return _ _ _ _ _ _ (fileExists_file a _ Htoml)).
    rewrite (bind_Throw _ _ tt e tt
               [ReadFile (joined a [extensionPath; str "extension.toml"])]);
      [reflexivity|].
    rewrite (bind_Return _ _ tt extensionToml tt
               [ReadFile (joined a [extensionPath; str "extension.toml"])]).
    2:{ unfold readTomlFile, catch.
        rewrite (bind_Return _ _ tt tomlContents tt
                   [ReadFile (joined a [extensionPath; str "extension.toml"])])
          by (unfold call; cbn [stateless fs_readFile path_join]; by rewrite Hread).
        unfold lift. cbn [stateless toml_parse]. by rewrite Hparse. }
    rewrite (bind_Return _ _ tt found tt []) by (unfold lift; by rewrite Hid).
    rewrite (differs_from_other found extensionId Hne). by rewrite Hrun.
Qed.

Lemma packageExtension_source_checks_witness :
  packageExtension
    (stateless {| mkdir_of := fun _ => Return tt;
                  stat_of := fun _ => Stats true;
                  contents_of := fun _ => Return [];
                  listing_of := fun _ => Return [];
                  output_of := fun _ _ => Return {| stdout := []; stderr := [] |};
                  sent := fun _ => Return tt;
                  joined := join (str "/");
                  toml_of := fun _ => Return (JObj []);
                  json_of := fun _ => Return (JObj []);
                  path_variable := None |})
    (str "x") (str "extensions/x") (str "1.0.0") true some_options tt
  = (Throw (str "The `extension.json` manifest format has been superseded by `extension.toml`"),
     tt,
     [Mkdir (str "./scratch"); Stat (str "extensions/x/extension.json")]).
Proof.
  apply (proj1 (packageExtension_source_checks
                  {| mkdir_of := fun _ => Return tt;
                     stat_of := fun _ => Stats true;
                     contents_of := fun _ => Return [];
                     listing_of := fun _ => Return [];
                     output_of := fun _ _ => Return {| stdout := []; stderr := [] |};
                     sent := fun _ => Return tt;
                     joined := join (str "/");
                     toml_of := fun _ => Return (JObj []);
                     json_of := fun _ => Return (JObj []);
                     path_variable := None |}
                  (str "x") (str "extensions/x") (str "1.0.0") true some_options
                  eq_refl)).
  reflexivity.
Defined.

End PackagingRuns.
